(** * Landline shuttle booking: the seat-reservation endpoint

    A shallow embedding of [app/api/booking/route.ts] (the [POST] handler
    and [generateBookingRef]), of [bookingSchema] from [lib/types.ts] and of
    the tables of the Prisma migration it works on, together with the
    properties of the reservation protocol.

    - Numbers are [Z] (Prisma [Int] columns, [passengers.length]) and [Q]
      ([Math.random()], prices); the store maps trip-instance ids to rows
      with a [gmap] and keeps the [Booking] table as a list in insertion
      order, each booking with its passengers. Generated ids and the
      [createdAt]/[updatedAt] timestamps are left out. The code computes
      with doubles where the model has [Q]: products and floors are exact
      here and rounded there, so of [totalPrice] the properties say which
      product it is, and of the seeded seats the range they lie in.
    - The handler is written in a state-and-exception monad over a [World]:
      the committed rows, the rows the request's transaction sees, the
      position in the draws of [Math.random()], and the log of the calls
      made on the database client and the timer.
    - The handler awaits; what other requests commit meanwhile is an
      oracle [others] of the environment, consulted between the inventory
      read and the conditional write of an attempt and during the timer
      between two attempts. From its conditional write on a transaction
      holds the lock of its row; what others commit until it ends are
      other rows and new bookings, of which the oracle [late] says how
      many its look-ups of a reference have missed. The same statements,
      cut at these suspensions, are the steps of a system of concurrent
      requests ([stepClient], [run]); [handler_simulation] relates the
      two.
    - The calls of the Prisma client are modelled after the migration
      (primary keys, the unique index on [bookingRef], the foreign key of
      a booking), zod's e-mail test is a parameter.
    - Around the endpoint: the search route with [searchSchema] over the
      rows of [Route], [Trip] and [TripInstance] (what it takes from the
      runtime, date-fns and the database engine is a [Library]), the loop
      of the seed script that creates the trip instances, and the state
      and handlers of the search form, the booking form and the page. *)

From Stdlib Require Import ZArith QArith Qround Ascii Lia.
From stdpp Require Import base numbers strings list gmap pretty.

Local Open Scope Z_scope.

(** ** Data model (prisma migration: Trip, TripInstance, Booking, Passenger) *)

(** The columns of [Trip] the booking path reads through
    [include: { trip: ... }]. *)
Record Trip := mkTrip {
  basePrice : Q;
  capacity : Z;
}.

Record TripInstance := mkTripInstance {
  trip : Trip;
  availableSeats : Z;
  version : Z;
  status : string;
}.

Record Passenger := mkPassenger {
  firstName : string;
  lastName : string;
  email : option string;
  phone : option string;
}.

(** A [Booking] row with its [Passenger] children (the rows whose
    [bookingId] is this booking; they are created by the nested
    [passengers: { create: ... }] and deleted by cascade). *)
Record Booking := mkBooking {
  tripInstanceId : string;
  bookingRef : string;
  bookingStatus : string;
  totalPrice : Q;
  contactEmail : string;
  contactPhone : string;
  passengers : list Passenger;
  cancelledAt : option Z;
}.

Record Store := mkStore {
  tripInstances : gmap string TripInstance;
  bookings : list Booking;
}.

(** ** The seed script (prisma/seed.ts) *)

(** The trip instance [prisma.tripInstance.create] makes for a trip on one
    of its days, for a draw [r] of [Math.random()]: [availableSeats] is
    [trip.capacity - Math.floor(Math.random() * 10)], [version] and
    [status] take their defaults. *)
Definition seedTripInstance (t : Trip) (r : Q) : TripInstance :=
  let randomSeatReduction := Qfloor (r * inject_Z 10) in
  mkTripInstance t (capacity t - randomSeatReduction) 0 "active".

(** ** generateBookingRef *)

Definition chars : string := "ABCDEFGHJKLMNPQRSTUVWXYZ23456789".

(** [String.prototype.charAt]: the one-character string at index [i], the
    empty string when [i] is out of range. *)
Definition charAt (s : string) (i : Z) : string :=
  if i <? 0 then ""
  else match String.get (Z.to_nat i) s with
       | Some c => String c ""
       | None => ""
       end.

(** [Math.floor(Math.random() * chars.length)] for a draw [r] of
    [Math.random()]. *)
Definition randomIndex (r : Q) : Z :=
  Qfloor (r * inject_Z (Z.of_nat (String.length chars))).

(** The [for (let i = 0; i < 6; i++)] loop: [n] iterations are left, [ref]
    is the string built so far, [pos] the index of the next draw of the
    random source [random]. *)
Fixpoint generateLoop (random : nat -> Q) (n : nat) (pos : nat) (ref : string)
  : string * nat :=
  match n with
  | O => (ref, pos)
  | S n' => generateLoop random n' (S pos)
              (ref +:+ charAt chars (randomIndex (random pos)))
  end.

Definition generateBookingRef (random : nat -> Q) (pos : nat) : string * nat :=
  generateLoop random 6 pos "".

(** ** Request bodies and [bookingSchema] (lib/types.ts) *)

(** A parsed JSON request body, as [request.json()] returns it. *)
#[local] Unset Elimination Schemes.
Inductive JSON :=
| JNull
| JBool (b : bool)
| JNumber (q : Q)
| JString (s : string)
| JArray (items : list JSON)
| JObject (fields : list (string * JSON)).
#[local] Set Elimination Schemes.

(** Property access [obj[key]]: [None] is [undefined]. *)
Fixpoint jget (key : string) (fields : list (string * JSON)) : option JSON :=
  match fields with
  | [] => None
  | (k, v) :: rest => if String.eqb k key then Some v else jget key rest
  end.

(** [PassengerData] and [BookingRequest]: the output types of the schemas;
    an optional field that is absent is [None]. *)
Record PassengerData := mkPassengerData {
  pd_firstName : string;
  pd_lastName : string;
  pd_email : option string;
  pd_phone : option string;
}.

Record BookingRequest := mkBookingRequest {
  req_tripInstanceId : string;
  req_passengers : list PassengerData;
  req_contactEmail : string;
  req_contactPhone : string;
}.

Section Validation.

(** The regular expression behind zod's [.email()] is part of the zod
    package; it is taken as a parameter. *)
Variable isEmail : string -> bool.

(** [z.string()] *)
Definition zString (v : option JSON) : option string :=
  match v with
  | Some (JString s) => Some s
  | _ => None
  end.

(** [z.string().min(1, ...)] *)
Definition zStringMin1 (v : option JSON) : option string :=
  s ← zString v;
  if (1 <=? Z.of_nat (String.length s)) then Some s else None.

(** [z.string().email(...)] *)
Definition zEmail (v : option JSON) : option string :=
  s ← zString v;
  if isEmail s then Some s else None.

(** [z.literal('')] *)
Definition zLiteralEmpty (v : option JSON) : option string :=
  match v with
  | Some (JString s) => if String.eqb s "" then Some s else None
  | _ => None
  end.

(** [schema.optional().or(z.literal(''))]: [undefined] is accepted by
    [.optional()]; otherwise the inner schema is tried, then the
    literal. The outer option is the parse result, the inner one the
    parsed (possibly absent) value. *)
Definition zOptionalOrEmpty (schema : option JSON -> option string)
    (v : option JSON) : option (option string) :=
  match v with
  | None => Some None
  | Some _ =>
      match schema v with
      | Some s => Some (Some s)
      | None => Some <$> zLiteralEmpty v
      end
  end.

Definition passengerSchema (v : JSON) : option PassengerData :=
  match v with
  | JObject fields =>
      fn ← zStringMin1 (jget "firstName" fields);
      ln ← zStringMin1 (jget "lastName" fields);
      em ← zOptionalOrEmpty zEmail (jget "email" fields);
      ph ← zOptionalOrEmpty zString (jget "phone" fields);
      Some (mkPassengerData fn ln em ph)
  | _ => None
  end.

(** [z.array(passengerSchema).min(1, ...)] *)
Definition zPassengers (v : option JSON) : option (list PassengerData) :=
  match v with
  | Some (JArray items) =>
      ps ← mapM passengerSchema items;
      if (1 <=? Z.of_nat (length ps)) then Some ps else None
  | _ => None
  end.

(** [bookingSchema.safeParse(body)]: [Some data] when
    [validation.success], [None] otherwise. *)
Definition bookingSchema_safeParse (body : JSON) : option BookingRequest :=
  match body with
  | JObject fields =>
      tid ← zStringMin1 (jget "tripInstanceId" fields);
      ps ← zPassengers (jget "passengers" fields);
      ce ← zEmail (jget "contactEmail" fields);
      cp ← zStringMin1 (jget "contactPhone" fields);
      Some (mkBookingRequest tid ps ce cp)
  | _ => None
  end.

End Validation.

(** ** The handler's effects: a state-and-exception monad *)

(** A thrown JavaScript error: its constructor name and its message. *)
Record Exn := mkExn {
  exnName : string;
  exnMessage : string;
}.

(** [new Error(message)] *)
Definition Error (message : string) : Exn := mkExn "Error" message.

(** The calls the handler makes on the database client and the timer, in
    the order it makes them ([OpUpdateBooking] is the write of a
    cancellation). *)
Inductive Op :=
| OpBegin
| OpCommit
| OpRollback
| OpFindUniqueTripInstance (id : string)
| OpUpdateManyTripInstance (id : string) (whereVersion : Z)
    (newAvailableSeats newVersion : Z) (count : Z)
| OpFindUniqueBooking (ref : string)
| OpCreateBooking (ref : string)
| OpUpdateBooking (ref : string)
| OpSetTimeout (ms : Z).

(** What the handler cannot control: the environment variable, the draws of
    [Math.random()], and what the transactions of other requests commit
    while this request is suspended. [others k] is their effect on the
    committed store at this request's [k]-th suspension. A transaction of
    this request is suspended again at every look-up of a reference and at
    [booking.create]; the row it has written is locked until it ends, so
    what others commit meanwhile are other rows and new bookings, which
    this transaction meets in [booking.create] only. [others k] holds these
    commits too, and [late k'] counts the bookings among them that were
    inserted after the look-ups of the transaction that runs at suspension
    count [k']: its look-ups do not see them, its [booking.create] does.
    The count is unconstrained: the properties hold also for counts larger
    than the bookings that can have arrived. *)
Record Env := mkEnv {
  DATABASE_URL : option string;
  random : nat -> Q;
  others : nat -> Store -> Store;
  late : nat -> nat;
}.

(** [committed] is the database as every connection sees it; [working] is
    what this request's statements see: the committed rows and, inside a
    transaction, its own uncommitted writes. *)
Record World := mkWorld {
  committed : Store;
  working : Store;
  rngPos : nat;
  yields : nat;
  log : list Op;
}.

Definition initWorld (s : Store) : World := mkWorld s s 0 0 [].

Definition M (A : Type) : Type := World -> (Exn + A) * World.

Definition ret {A} (a : A) : M A := fun w => (inr a, w).
Definition throw {A} (e : Exn) : M A := fun w => (inl e, w).
Definition bind {A B} (m : M A) (k : A -> M B) : M B :=
  fun w => match m w with
           | (inr a, w') => k a w'
           | (inl e, w') => (inl e, w')
           end.
(** [try { m } catch (error) { h error }] *)
Definition catch {A} (m : M A) (h : Exn -> M A) : M A :=
  fun w => match m w with
           | (inr a, w') => (inr a, w')
           | (inl e, w') => h e w'
           end.

Declare Scope handler_scope.
Delimit Scope handler_scope with handler.
Notation "'let*' x := m 'in' k" := (bind m (fun x => k))
  (at level 10, x name, m at level 100, k at level 200) : handler_scope.
Notation "m ;;; k" := (bind m (fun _ => k))
  (at level 100, k at level 200, right associativity) : handler_scope.

Definition logged (op : Op) (w : World) : World :=
  mkWorld (committed w) (working w) (rngPos w) (yields w) (log w ++ [op]).

Definition emit (op : Op) : M unit := fun w => (inr tt, logged op w).

Definition setWorking (s : Store) : M unit :=
  fun w => (inr tt, mkWorld (committed w) s (rngPos w) (yields w) (log w)).

Definition getWorking : M Store := fun w => (inr (working w), w).

(** A suspension ([await]) at which the transactions of other requests
    commit: their rows become the committed rows, and visible to this
    request's next statement. *)
Definition yielded (env : Env) (w : World) : World :=
  mkWorld (others env (yields w) (committed w))
          (others env (yields w) (working w))
          (rngPos w) (S (yields w)) (log w).

Definition yield (env : Env) : M unit := fun w => (inr tt, yielded env w).

(** [await new Promise((resolve) => setTimeout(resolve, ms))] *)
Definition setTimeout (env : Env) (ms : Z) : M unit :=
  (emit (OpSetTimeout ms) ;;; yield env)%handler.

(** *** The Prisma client *)

(** [tx.tripInstance.findUnique({ where: { id }, include: { trip } })] *)
Definition tripInstance_findUnique (id : string) : M (option TripInstance) :=
  (emit (OpFindUniqueTripInstance id) ;;;
   let* s := getWorking in
   ret (tripInstances s !! id))%handler.

(** [tx.tripInstance.updateMany({ where: { id, version }, data:
    { availableSeats, version } })]: [id] is the primary key, so at most one
    row matches; the result is [updated.count]. *)
Definition tripInstance_updateMany (id : string) (whereVersion : Z)
    (newAvailableSeats newVersion : Z) : M Z :=
  (let* s := getWorking in
   match tripInstances s !! id with
   | Some row =>
       if version row =? whereVersion then
         setWorking
           (mkStore (<[id := mkTripInstance (trip row) newAvailableSeats
                               newVersion (status row)]> (tripInstances s))
                    (bookings s)) ;;;
         emit (OpUpdateManyTripInstance id whereVersion newAvailableSeats
                 newVersion 1) ;;;
         ret 1
       else
         emit (OpUpdateManyTripInstance id whereVersion newAvailableSeats
                 newVersion 0) ;;;
         ret 0
   | None =>
       emit (OpUpdateManyTripInstance id whereVersion newAvailableSeats
               newVersion 0) ;;;
       ret 0
   end)%handler.

Definition lookupBooking (ref : string) (bs : list Booking) : option Booking :=
  find (fun b => String.eqb (bookingRef b) ref) bs.

(** [tx.booking.findUnique({ where: { bookingRef } })] *)
Definition booking_findUnique (ref : string) : M (option Booking) :=
  (emit (OpFindUniqueBooking ref) ;;;
   let* s := getWorking in
   ret (lookupBooking ref (bookings s)))%handler.

(** The bookings that the look-ups of a transaction see: bookings are
    only ever appended, so they are all but the last [late] ones. *)
Definition visible (env : Env) (w : World) : list Booking :=
  take (length (bookings (working w)) - late env (yields w))
       (bookings (working w)).

(** [tx.booking.findUnique({ where: { bookingRef } })] of the reference
    loop, awaited before [booking.create] is. *)
Definition booking_findUnique_early (env : Env) (ref : string)
  : M (option Booking) :=
  (emit (OpFindUniqueBooking ref) ;;;
   fun w => (inr (lookupBooking ref (visible env w)), w))%handler.

(** The errors of the database client on a violated constraint
    ([PrismaClientKnownRequestError], codes P2002 and P2003). *)
Definition uniqueConstraintFailed : Exn :=
  mkExn "PrismaClientKnownRequestError"
        "Unique constraint failed on the fields: (`bookingRef`)".
Definition foreignKeyConstraintFailed : Exn :=
  mkExn "PrismaClientKnownRequestError"
        "Foreign key constraint failed on the field: `Booking_tripInstanceId_fkey`".

(** [tx.booking.create({ data, include: { passengers: true } })]: the row
    and its passengers are inserted unless the unique index
    [Booking_bookingRef_key] or the foreign key
    [Booking_tripInstanceId_fkey] of the migration forbids it. *)
Definition booking_create (b : Booking) : M Booking :=
  (emit (OpCreateBooking (bookingRef b)) ;;;
   let* s := getWorking in
   match lookupBooking (bookingRef b) (bookings s) with
   | Some _ => throw uniqueConstraintFailed
   | None =>
       match tripInstances s !! tripInstanceId b with
       | None => throw foreignKeyConstraintFailed
       | Some _ =>
           setWorking (mkStore (tripInstances s) (bookings s ++ [b])) ;;;
           ret b
       end
   end)%handler.

(** The end of a transaction: its writes become the committed rows, or
    are discarded. *)
Definition committedWorld (w : World) : World :=
  mkWorld (working w) (working w) (rngPos w) (yields w)
          (log w ++ [OpCommit]).

Definition rolledBack (w : World) : World :=
  mkWorld (committed w) (committed w) (rngPos w) (yields w)
          (log w ++ [OpRollback]).

(** [prisma.$transaction(async (tx) => body)]: the statements of [body]
    work on the transaction's view; its writes are committed when [body]
    returns and discarded when it throws. *)
Definition dollar_transaction {A} (body : M A) : M A :=
  fun w =>
    match (emit OpBegin ;;; body)%handler w with
    | (inr a, w') => (inr a, committedWorld w')
    | (inl e, w') => (inl e, rolledBack w')
    end.

(** ** The POST handler (app/api/booking/route.ts) *)

(** [generateBookingRef()] in the handler: the draws are taken from the
    random source at its current position. *)
Definition generateBookingRefM (env : Env) : M string :=
  fun w => let r := generateBookingRef (random env) (rngPos w) in
           (inr (fst r),
            mkWorld (committed w) (working w) (snd r) (yields w) (log w)).

Definition CONCURRENT_MODIFICATION : string := "CONCURRENT_MODIFICATION".

(** [passengers.length] *)
Definition passengerCount (d : BookingRequest) : Z :=
  Z.of_nat (length (req_passengers d)).

(** [s || null] *)
Definition orNull (o : option string) : option string :=
  match o with
  | Some s => if String.eqb s "" then None else Some s
  | None => None
  end.

Definition toPassenger (p : PassengerData) : Passenger :=
  mkPassenger (pd_firstName p) (pd_lastName p)
              (orNull (pd_email p)) (orNull (pd_phone p)).

(** The first half of the transaction callback: the inventory read and the
    three checks on it. *)
Definition checkAvailability (d : BookingRequest) : M TripInstance :=
  (let* found := tripInstance_findUnique (req_tripInstanceId d) in
   match found with
   | None => throw (Error "Trip not found")
   | Some tripInstance =>
       if negb (String.eqb (status tripInstance) "active") then
         throw (Error "Trip is no longer available")
       else if availableSeats tripInstance <? passengerCount d then
         throw (Error ("Only " +:+ pretty (availableSeats tripInstance)
                         +:+ " seats available"))
       else ret tripInstance
   end)%handler.

(** The [while (attempts < 10)] loop; [n] is [10 - attempts]. *)
Fixpoint uniqueRefLoop (env : Env) (n : nat) (bookingRef : string) : M string :=
  match n with
  | O => ret bookingRef
  | S n' =>
      (let* existing := booking_findUnique_early env bookingRef in
       match existing with
       | None => ret bookingRef
       | Some _ =>
           let* bookingRef' := generateBookingRefM env in
           uniqueRefLoop env n' bookingRef'
       end)%handler
  end.

(** The second half of the transaction callback: the conditional write,
    the choice of a reference and the creation of the booking with its
    passengers. *)
Definition reserveAndCreate (env : Env) (d : BookingRequest)
    (tripInstance : TripInstance) : M Booking :=
  (let* updated :=
     tripInstance_updateMany (req_tripInstanceId d) (version tripInstance)
       (availableSeats tripInstance - passengerCount d)
       (version tripInstance + 1) in
   if updated =? 0 then throw (Error CONCURRENT_MODIFICATION)
   else
     let* bookingRef0 := generateBookingRefM env in
     let* bookingRef := uniqueRefLoop env 10 bookingRef0 in
     let totalPrice :=
       (basePrice (trip tripInstance) * inject_Z (passengerCount d))%Q in
     booking_create
       (mkBooking (req_tripInstanceId d) bookingRef "confirmed" totalPrice
          (req_contactEmail d) (req_contactPhone d)
          (map toPassenger (req_passengers d)) None))%handler.

(** The same statements with the suspension before [booking.create]
    written out: when [tx.booking.create] is awaited, the bookings
    [arrived], which other requests inserted after the look-ups, are in the
    table. [reserveAndCreate] on the store that holds them, with [late]
    counting them, ends as this does ([late_covers_arrivals]). Bookings are
    only appended, so look-ups that each see more than the one before
    answer as they would if all had seen what the last one saw. *)
Definition withArrivals (arrived : list Booking) (s : Store) : Store :=
  mkStore (tripInstances s) (bookings s ++ arrived).

Definition arrive (arrived : list Booking) : M unit :=
  fun w => (inr tt,
            mkWorld (withArrivals arrived (committed w))
                    (withArrivals arrived (working w))
                    (rngPos w) (yields w) (log w)).

Definition reserveAndCreate_awaited (env : Env) (d : BookingRequest)
    (tripInstance : TripInstance) (arrived : list Booking) : M Booking :=
  (let* updated :=
     tripInstance_updateMany (req_tripInstanceId d) (version tripInstance)
       (availableSeats tripInstance - passengerCount d)
       (version tripInstance + 1) in
   if updated =? 0 then throw (Error CONCURRENT_MODIFICATION)
   else
     let* bookingRef0 := generateBookingRefM env in
     let* bookingRef := uniqueRefLoop env 10 bookingRef0 in
     let totalPrice :=
       (basePrice (trip tripInstance) * inject_Z (passengerCount d))%Q in
     arrive arrived ;;;
     booking_create
       (mkBooking (req_tripInstanceId d) bookingRef "confirmed" totalPrice
          (req_contactEmail d) (req_contactPhone d)
          (map toPassenger (req_passengers d)) None))%handler.

(** The transaction callback. Other requests commit between the awaited
    read and the awaited conditional write; from the conditional write on
    the row is this transaction's until it ends, and what others commit
    during the look-ups and before [booking.create] is still unseen by the
    look-ups ([visible]). *)
Definition bookingTx (env : Env) (d : BookingRequest) : M Booking :=
  (let* tripInstance := checkAvailability d in
   yield env ;;;
   reserveAndCreate env d tripInstance)%handler.

(** The test of the [catch] block:
    [error.message === 'CONCURRENT_MODIFICATION' && retries > 1]. *)
Definition retryable (error : Exn) (retries : nat) : bool :=
  String.eqb (exnMessage error) CONCURRENT_MODIFICATION
  && (1 <? Z.of_nat retries).

(** The [while (retries > 0 && !booking)] loop. [booking] is [null] at
    every test of the condition, since a successful transaction leaves the
    loop with [break]. *)
Fixpoint retryLoop (env : Env) (d : BookingRequest) (retries : nat)
  : M (option Booking) :=
  match retries with
  | O => ret None
  | S retries' =>
      catch
        (let* booking := dollar_transaction (bookingTx env d) in
         ret (Some booking))%handler
        (fun error =>
           if retryable error retries
           then (setTimeout env 100 ;;; retryLoop env d retries')%handler
           else throw error)
  end.

(** The JSON responses, with their status; the [details] field of the 400
    and of the configuration response is left out. *)
Record Response := mkResponse {
  httpStatus : Z;
  success : bool;
  error : option string;
  resBookingRef : option string;
  message : option string;
  errorType : option string;
}.

Definition configErrorResponse : Response :=
  mkResponse 500 false (Some "Database configuration error") None None None.
Definition invalidRequestResponse : Response :=
  mkResponse 400 false (Some "Invalid request") None None None.
Definition contentionResponse : Response :=
  mkResponse 409 false (Some "Unable to complete booking. Please try again.")
             None None None.
Definition confirmedResponse (b : Booking) : Response :=
  mkResponse 200 true None (Some (bookingRef b))
    (Some ("Booking confirmed! Your booking reference is " +:+ bookingRef b))
    None.
(** The outer [catch]: [error.message || 'Internal server error']. *)
Definition errorResponse (e : Exn) : Response :=
  mkResponse 500 false
    (Some (if String.eqb (exnMessage e) "" then "Internal server error"
           else exnMessage e))
    None None (Some (exnName e)).

(** The handler from the destructuring of [validation.data] on. *)
Definition book (env : Env) (d : BookingRequest) (w : World)
  : Response * World :=
  match retryLoop env d 3 w with
  | (inr (Some booking), w') => (confirmedResponse booking, w')
  | (inr None, w') => (contentionResponse, w')
  | (inl e, w') => (errorResponse e, w')
  end.

(** [!process.env.DATABASE_URL] *)
Definition unset (v : option string) : bool :=
  match v with
  | None => true
  | Some s => String.eqb s ""
  end.

Definition POST (isEmail : string -> bool) (env : Env) (body : JSON)
    (w : World) : Response * World :=
  if unset (DATABASE_URL env) then (configErrorResponse, w)
  else
    match bookingSchema_safeParse isEmail body with
    | None => (invalidRequestResponse, w)
    | Some d => book env d w
    end.


(** ** Concurrent requests

    Several requests run the handler against one database. A request is
    suspended at the top of its retry loop (before its first attempt, or in
    the timer between two attempts) or, inside a transaction, between the
    inventory read and the conditional write; one step runs one request
    from its suspension to the next one, against the rows committed so
    far. The conditional write takes the lock of the row, which the
    transaction holds until it ends: from the conditional write to the
    commit or rollback a transaction is one step. The code is suspended
    inside that step too, at every look-up of a reference and at
    [booking.create], and other transactions commit there: on other rows,
    since this one is locked, and new bookings. Such a commit and this
    transaction's write do not touch the same row, so the step is taken
    at the store that holds them, where the write finds the row as it
    was; the look-ups, which ran before them, do not see the last [late]
    bookings of that store ([visible]), and [booking.create] sees them
    all. *)

Inductive Phase :=
| AtLoop (retries : nat)
| InTransaction (retries : nat) (tripInstance : TripInstance)
| Responded (r : Response).

Record Client := mkClient {
  request : BookingRequest;
  clientEnv : Env;
  local : World;
  phase : Phase;
}.

Record System := mkSystem {
  db : Store;
  clients : list Client;
}.

(** The request runs again: its statements see the rows committed so
    far. *)
Definition attach (s : Store) (w : World) : World :=
  mkWorld s s (rngPos w) (yields w) (log w).

(** The request suspends: one more suspension is counted. *)
Definition suspended (w : World) : World :=
  mkWorld (committed w) (working w) (rngPos w) (S (yields w)) (log w).

(** The [catch] block of the retry loop, after the rollback; a retry
    suspends the request in its timer. *)
Definition afterError (c : Client) (retries : nat) (e : Exn) (w : World)
  : Client :=
  if retryable e retries
  then mkClient (request c) (clientEnv c)
                (suspended (logged (OpSetTimeout 100) w))
                (AtLoop (Nat.pred retries))
  else mkClient (request c) (clientEnv c) w (Responded (errorResponse e)).

(** One step of request [c] on the committed store [s]: the rest of the
    loop of [retryLoop] up to the next suspension, with the same statements
    ([checkAvailability], then [reserveAndCreate]), the same end of the
    transaction and the same [catch] block. *)
Definition stepClient (s : Store) (c : Client) : Store * Client :=
  match phase c with
  | Responded _ => (s, c)
  | AtLoop O =>
      (s, mkClient (request c) (clientEnv c) (attach s (local c))
            (Responded contentionResponse))
  | AtLoop (S r) =>
      match (emit OpBegin ;;; checkAvailability (request c))%handler
              (attach s (local c)) with
      | (inr tripInstance, w) =>
          (s, mkClient (request c) (clientEnv c) (suspended w)
                (InTransaction (S r) tripInstance))
      | (inl e, w) => (s, afterError c (S r) e (rolledBack w))
      end
  | InTransaction retries tripInstance =>
      match reserveAndCreate (clientEnv c) (request c) tripInstance
              (attach s (local c)) with
      | (inr booking, w) =>
          (working w,
           mkClient (request c) (clientEnv c) (committedWorld w)
             (Responded (confirmedResponse booking)))
      | (inl e, w) => (s, afterError c retries e (rolledBack w))
      end
  end.

(** Client [i] takes its next step. *)
Definition stepAt (i : nat) (σ : System) : System :=
  match clients σ !! i with
  | Some c => let '(s, c') := stepClient (db σ) c in
              mkSystem s (<[i := c']> (clients σ))
  | None => σ
  end.

(** A schedule names the client that moves at each step. *)
Definition run (schedule : list nat) (σ : System) : System :=
  fold_left (fun σ i => stepAt i σ) schedule σ.

(** A request that has been validated and is about to enter its loop; the
    rows of its world are set when it first runs. *)
Definition newClient (env : Env) (d : BookingRequest) : Client :=
  mkClient d env (initWorld (mkStore ∅ [])) (AtLoop 3).

(** ** Cancellation *)

(** Modelled from the spec: the cancellation operation [cancelBooking] is
    missing from the repository, which declares only the columns
    [Booking.status] and [Booking.cancelledAt] that it writes. The model
    follows the design's words: mark the booking [cancelled], stamp the
    cancellation time and, in the same atomic unit, add the booking's
    passenger count to the departure's [availableSeats] and increment its
    version, by the conditional-version write of the reservation applied in
    reverse, retried on conflict by the same controller (at most 3 tries,
    100 ms apart); exhausted retries end in a [Contention] failure. The
    operation is defined for confirmed bookings; any other booking is
    refused without a write. This is the booking row after it. *)
Definition cancelledBooking (b : Booking) (now : Z) : Booking :=
  mkBooking (tripInstanceId b) (bookingRef b) "cancelled" (totalPrice b)
            (contactEmail b) (contactPhone b) (passengers b) (Some now).

(** Modelled from the spec: the write that marks the booking [cancelled]
    and stamps [cancelledAt]. *)
Definition booking_cancel (ref : string) (now : Z) : M unit :=
  (emit (OpUpdateBooking ref) ;;;
   let* s := getWorking in
   setWorking
     (mkStore (tripInstances s)
        (map (fun b => if String.eqb (bookingRef b) ref
                       then cancelledBooking b now else b)
             (bookings s))))%handler.

(** Modelled from the spec: one cancellation attempt. *)
Definition cancelTx (env : Env) (now : Z) (ref : string) : M Booking :=
  (let* found := booking_findUnique ref in
   match found with
   | None => throw (Error "NotFound")
   | Some booking =>
       if negb (String.eqb (bookingStatus booking) "confirmed") then
         throw (Error "NotFound")
       else
         let* inventory := tripInstance_findUnique (tripInstanceId booking) in
         match inventory with
         | None => throw (Error "NotFound")
         | Some tripInstance =>
             yield env ;;;
             let* updated :=
               tripInstance_updateMany (tripInstanceId booking)
                 (version tripInstance)
                 (availableSeats tripInstance
                    + Z.of_nat (length (passengers booking)))
                 (version tripInstance + 1) in
             if updated =? 0 then throw (Error CONCURRENT_MODIFICATION)
             else
               booking_cancel ref now ;;;
               ret (cancelledBooking booking now)
         end
   end)%handler.

(** Modelled from the spec: the retry controller around the cancellation
    attempt; only a version conflict is retried, and the conflict of the
    last allowed attempt becomes [Contention]. *)
Fixpoint cancelRetry (env : Env) (now : Z) (ref : string) (attemptsLeft : nat)
  : M Booking :=
  match attemptsLeft with
  | O => throw (Error "Contention")
  | S attemptsLeft' =>
      catch (dollar_transaction (cancelTx env now ref))
        (fun error =>
           if String.eqb (exnMessage error) CONCURRENT_MODIFICATION
           then match attemptsLeft' with
                | O => throw (Error "Contention")
                | S _ => (setTimeout env 100 ;;;
                          cancelRetry env now ref attemptsLeft')%handler
                end
           else throw error)
  end.

(** Modelled from the spec: [cancelBooking(bookingRef)], the cancellation
    attempt under the retry controller with its reference bound of 3
    tries. *)
Definition cancelBooking (env : Env) (now : Z) (ref : string) : M Booking :=
  cancelRetry env now ref 3.

(** ** The search endpoint (app/api/search/route.ts) *)

(** The rows of the tables [Route], [Trip] and [TripInstance] of the
    migration, without the generated [createdAt]/[updatedAt] columns. The
    columns [basePrice] and [capacity] of a trip are its [Trip] record; a
    [date] is a point in time, in milliseconds since the epoch. *)
Record Route := mkRoute {
  routeId : string;
  origin : string;
  destination : string;
  distance : Z;
}.

Record TripRow := mkTripRow {
  tripId : string;
  tripRouteId : string;
  departureTime : string;
  arrivalTime : string;
  daysOfWeek : string;
  tripColumns : Trip;
}.

Record TripInstanceRow := mkTripInstanceRow {
  instanceId : string;
  instanceTripId : string;
  date : Z;
  rowAvailableSeats : Z;
  rowVersion : Z;
  rowStatus : string;
}.

Record Database := mkDatabase {
  routes : list Route;
  trips : list TripRow;
  instanceRows : list TripInstanceRow;
  bookingRows : list Booking;
}.

(** [TripResult] and the output type of [searchSchema] (lib/types.ts). *)
Record TripResult := mkTripResult {
  tr_id : string;
  tr_tripInstanceId : string;
  tr_origin : string;
  tr_destination : string;
  tr_date : string;
  tr_departureTime : string;
  tr_arrivalTime : string;
  tr_price : Q;
  tr_availableSeats : Z;
  tr_distance : Z;
}.

Record SearchRequest := mkSearchRequest {
  sr_origin : string;
  sr_destination : string;
  sr_date : string;
}.

(** What the search route takes from the JavaScript runtime, date-fns and
    the database engine: [new Date(s).getTime()] ([None] is [NaN], the time
    of an Invalid Date), [startOfDay], [endOfDay],
    [format(d, 'yyyy-MM-dd')], the filter [contains] with
    [mode: 'insensitive'] on a column value, and [String.localeCompare]. *)
Record Library := mkLibrary {
  newDate : string -> option Z;
  startOfDay : Z -> Z;
  endOfDay : Z -> Z;
  format_yyyy_MM_dd : Z -> string;
  containsInsensitive : string -> string -> bool;
  localeCompare : string -> string -> Z;
}.

(** [searchSchema.safeParse(body)]; the [refine] on [date] is
    [!isNaN(new Date(val).getTime())]. *)
Definition searchSchema_safeParse (lib : Library) (body : JSON)
  : option SearchRequest :=
  match body with
  | JObject fields =>
      o ← zStringMin1 (jget "origin" fields);
      d ← zStringMin1 (jget "destination" fields);
      dt ← zString (jget "date" fields);
      match newDate lib dt with
      | Some _ => Some (mkSearchRequest o d dt)
      | None => None
      end
  | _ => None
  end.

(** The [where] of the nested [tripInstances]: [date] between [dayStart]
    and [dayEnd], [status: 'active'], [availableSeats: { gt: 0 }]. *)
Definition instanceWhere (dayStart dayEnd : Z) (i : TripInstanceRow) : bool :=
  (dayStart <=? date i) && (date i <=? dayEnd)
  && String.eqb (rowStatus i) "active"
  && (0 <? rowAvailableSeats i).

(** [prisma.route.findMany({ where, include: { trips: { include:
    { tripInstances: { where } } } } })]: the routes whose origin and
    destination contain the search terms, each with all its trips, each
    trip with those of its instances that pass the nested [where]. *)
Definition route_findMany (lib : Library) (db : Database)
    (o d : string) (dayStart dayEnd : Z)
  : list (Route * list (TripRow * list TripInstanceRow)) :=
  map (fun route =>
         (route,
          map (fun trip =>
                 (trip,
                  List.filter
                    (fun i => String.eqb (instanceTripId i) (tripId trip)
                              && instanceWhere dayStart dayEnd i)
                    (instanceRows db)))
              (List.filter
                 (fun trip => String.eqb (tripRouteId trip) (routeId route))
                 (trips db))))
      (List.filter
         (fun route => containsInsensitive lib (origin route) o
                       && containsInsensitive lib (destination route) d)
         (routes db)).

(** The three nested [for ... of] loops that push one [TripResult] per
    instance. *)
Definition transformResults (lib : Library)
    (found : list (Route * list (TripRow * list TripInstanceRow)))
  : list TripResult :=
  flat_map
    (fun '(route, routeTrips) =>
       flat_map
         (fun '(trip, tripInstances) =>
            map (fun instance =>
                   mkTripResult (tripId trip) (instanceId instance)
                     (origin route) (destination route)
                     (format_yyyy_MM_dd lib (date instance))
                     (departureTime trip) (arrivalTime trip)
                     (basePrice (tripColumns trip))
                     (rowAvailableSeats instance) (distance route))
                tripInstances)
         routeTrips)
    found.

(** [Array.prototype.sort(compareFn)]: the sort is stable; an element goes
    before the elements it does not compare greater than and that followed
    it in the array. *)
Fixpoint insertSorted {A} (compareFn : A -> A -> Z) (x : A) (sorted : list A)
  : list A :=
  match sorted with
  | [] => [x]
  | y :: rest =>
      if compareFn x y <=? 0 then x :: y :: rest
      else y :: insertSorted compareFn x rest
  end.

Definition Array_sort {A} (compareFn : A -> A -> Z) (l : list A) : list A :=
  foldr (insertSorted compareFn) [] l.

(** [results.sort((a, b) => a.departureTime.localeCompare(b.departureTime))] *)
Definition sortByDeparture (lib : Library) (results : list TripResult)
  : list TripResult :=
  Array_sort (fun a b => localeCompare lib (tr_departureTime a)
                           (tr_departureTime b))
             results.

(** The JSON responses of the search route, with their status; the
    [details] and [type] fields of the error responses are left out. *)
Record SearchResponse := mkSearchResponse {
  search_status : Z;
  search_results : option (list TripResult);
  search_error : option string;
}.

(** The handler, for a request whose body is JSON. [queryRaw] is the error
    the connection test [prisma.$queryRaw`SELECT 1`] throws, if any, and
    [queryError] the error thrown after it inside the same [try], if any:
    by [prisma.route.findMany] when the database fails, or by [format] on
    a row it returned. The database client rejects an Invalid Date in a
    filter. The outer [catch] answers every thrown error alike. *)
Definition search_POST (lib : Library) (databaseUrl : option string)
    (queryRaw queryError : option Exn) (body : JSON) (db : Database)
  : SearchResponse :=
  if unset databaseUrl then
    mkSearchResponse 500 None (Some "Database configuration error")
  else
    match searchSchema_safeParse lib body with
    | None => mkSearchResponse 400 None (Some "Invalid request")
    | Some q =>
        match queryRaw with
        | Some _ => mkSearchResponse 500 None (Some "Internal server error")
        | None =>
            match newDate lib (sr_date q) with
            | None =>
                mkSearchResponse 500 None (Some "Internal server error")
            | Some searchDate =>
                let dayStart := startOfDay lib searchDate in
                let dayEnd := endOfDay lib searchDate in
                match queryError with
                | Some _ =>
                    mkSearchResponse 500 None (Some "Internal server error")
                | None =>
                    let found :=
                      route_findMany lib db (sr_origin q) (sr_destination q)
                        dayStart dayEnd in
                    mkSearchResponse 200
                      (Some (sortByDeparture lib (transformResults lib found)))
                      None
                end
            end
        end
    end.

(** ** The search form (components/SearchForm.tsx) *)

Record SearchFormState := mkSearchFormState {
  sf_origin : string;
  sf_destination : string;
  sf_date : string;
  sf_error : string;
}.

(** [handleSubmit]: the new state, and the arguments of [onSearch] when it
    is called. *)
Definition SearchForm_handleSubmit (st : SearchFormState)
  : SearchFormState * option (string * string * string) :=
  let cleared := mkSearchFormState (sf_origin st) (sf_destination st)
                   (sf_date st) "" in
  if String.eqb (sf_origin st) "" || String.eqb (sf_destination st) ""
     || String.eqb (sf_date st) ""
  then (mkSearchFormState (sf_origin st) (sf_destination st) (sf_date st)
          "Please fill in all fields", None)
  else if String.eqb (sf_origin st) (sf_destination st)
  then (mkSearchFormState (sf_origin st) (sf_destination st) (sf_date st)
          "Origin and destination must be different", None)
  else (cleared, Some (sf_origin st, sf_destination st, sf_date st)).

(** ** The booking form (components/BookingForm.tsx) *)

(** [keyof PassengerData] *)
Inductive PassengerField :=
| field_firstName
| field_lastName
| field_email
| field_phone.

(** A passenger object of the form's state; a property that is not set is
    [None]. *)
Record FormPassenger := mkFormPassenger {
  fp_firstName : option string;
  fp_lastName : option string;
  fp_email : option string;
  fp_phone : option string;
}.

(** [{ firstName: '', lastName: '', email: '', phone: '' }] *)
Definition blankPassenger : FormPassenger :=
  mkFormPassenger (Some "") (Some "") (Some "") (Some "").

(** The state of the component; an element of [passengers] that is
    [undefined] is [None]. *)
Record BookingFormState := mkBookingFormState {
  bf_numPassengers : Z;
  bf_passengers : list (option FormPassenger);
  bf_contactEmail : string;
  bf_contactPhone : string;
  bf_isSubmitting : bool;
  bf_error : string;
}.

Definition initialBookingForm : BookingFormState :=
  mkBookingFormState 1 [Some blankPassenger] "" "" false "".

(** [array.splice(start)]: the elements that stay in the array. A negative
    [start] counts from the end. *)
Definition splice {A} (start : Z) (array : list A) : list A :=
  let len := Z.of_nat (length array) in
  let actualStart :=
    if start <? 0 then Z.max (len + start) 0 else Z.min start len in
  take (Z.to_nat actualStart) array.

Definition handleNumPassengersChange (num : Z) (st : BookingFormState)
  : BookingFormState :=
  let passengers := bf_passengers st in
  let newPassengers :=
    if Z.of_nat (length passengers) <? num then
      passengers
        ++ replicate (Z.to_nat (num - Z.of_nat (length passengers)))
             (Some blankPassenger)
    else splice num passengers in
  mkBookingFormState num newPassengers (bf_contactEmail st)
    (bf_contactPhone st) (bf_isSubmitting st) (bf_error st).

(** [{ ...passenger, [field]: value }]; spreading [undefined] gives no
    property. *)
Definition withField (passenger : option FormPassenger)
    (field : PassengerField) (value : string) : FormPassenger :=
  let old := default (mkFormPassenger None None None None) passenger in
  match field with
  | field_firstName =>
      mkFormPassenger (Some value) (fp_lastName old) (fp_email old)
        (fp_phone old)
  | field_lastName =>
      mkFormPassenger (fp_firstName old) (Some value) (fp_email old)
        (fp_phone old)
  | field_email =>
      mkFormPassenger (fp_firstName old) (fp_lastName old) (Some value)
        (fp_phone old)
  | field_phone =>
      mkFormPassenger (fp_firstName old) (fp_lastName old) (fp_email old)
        (Some value)
  end.

(** [newPassengers[index] = ...]: an assignment past the end extends the
    array, the elements in between are [undefined]. *)
Definition updatePassenger (index : nat) (field : PassengerField)
    (value : string) (st : BookingFormState) : BookingFormState :=
  let passengers := bf_passengers st in
  let updated := Some (withField (mjoin (passengers !! index)) field value) in
  let newPassengers :=
    if (index <? length passengers)%nat then <[index := updated]> passengers
    else passengers ++ replicate (index - length passengers) None ++ [updated]
  in
  mkBookingFormState (bf_numPassengers st) newPassengers (bf_contactEmail st)
    (bf_contactPhone st) (bf_isSubmitting st) (bf_error st).

Definition setContactEmail (value : string) (st : BookingFormState)
  : BookingFormState :=
  mkBookingFormState (bf_numPassengers st) (bf_passengers st) value
    (bf_contactPhone st) (bf_isSubmitting st) (bf_error st).

Definition setContactPhone (value : string) (st : BookingFormState)
  : BookingFormState :=
  mkBookingFormState (bf_numPassengers st) (bf_passengers st)
    (bf_contactEmail st) value (bf_isSubmitting st) (bf_error st).

(** [!s] for a string property that may be missing. *)
Definition falsy (s : option string) : bool :=
  match s with
  | None => true
  | Some s => String.eqb s ""
  end.

(** The [for] loop of [handleSubmit] from index [i] on: every passenger
    has both names, or passenger [i] is the first that lacks one, or the
    loop reads a property of [undefined] and throws. *)
Inductive NameCheck :=
| AllNamed
| NameMissing (i : nat)
| ReadOfUndefined.

Fixpoint checkNames (passengers : list (option FormPassenger)) (i : nat)
  : NameCheck :=
  match passengers with
  | [] => AllNamed
  | None :: _ => ReadOfUndefined
  | Some p :: rest =>
      if falsy (fp_firstName p) || falsy (fp_lastName p) then NameMissing i
      else checkNames rest (S i)
  end.

(** [JSON.stringify] of the request, as [request.json()] parses it on the
    server: a property that is [undefined] is left out, an array element
    that is [undefined] becomes [null]. *)
Definition property (key : string) (value : option string)
  : list (string * JSON) :=
  match value with
  | Some s => [(key, JString s)]
  | None => []
  end.

Definition passengerJSON (passenger : option FormPassenger) : JSON :=
  match passenger with
  | None => JNull
  | Some p =>
      JObject (property "firstName" (fp_firstName p)
                 ++ property "lastName" (fp_lastName p)
                 ++ property "email" (fp_email p)
                 ++ property "phone" (fp_phone p))
  end.

Definition bookingBody (trip : TripResult) (st : BookingFormState) : JSON :=
  JObject [("tripInstanceId", JString (tr_tripInstanceId trip));
           ("passengers", JArray (map passengerJSON (bf_passengers st)));
           ("contactEmail", JString (bf_contactEmail st));
           ("contactPhone", JString (bf_contactPhone st))].

Definition afterSubmit (st : BookingFormState) (message : string)
  : BookingFormState :=
  mkBookingFormState (bf_numPassengers st) (bf_passengers st)
    (bf_contactEmail st) (bf_contactPhone st) false message.

(** [handleSubmit]: the state when it returns, and the argument of
    [onComplete] when it is called. [fetch] answers the request body with
    the parsed response, or [None] when [fetch] or [response.json()]
    throws. *)
Definition BookingForm_handleSubmit (trip : TripResult)
    (fetch : JSON -> option Response) (st : BookingFormState)
  : BookingFormState * option string :=
  match checkNames (bf_passengers st) 0 with
  | NameMissing i =>
      (afterSubmit st
         ("Please enter first and last name for passenger "
            +:+ pretty (Z.of_nat i + 1)), None)
  | ReadOfUndefined =>
      (afterSubmit st "An error occurred. Please try again.", None)
  | AllNamed =>
      match fetch (bookingBody trip st) with
      | None => (afterSubmit st "An error occurred. Please try again.", None)
      | Some data =>
          if success data && negb (falsy (resBookingRef data)) then
            (afterSubmit st "", resBookingRef data)
          else
            (afterSubmit st
               (if falsy (error data) then "Booking failed. Please try again."
                else default "" (error data)), None)
      end
  end.

(** [const totalPrice = trip.price * numPassengers] *)
Definition BookingForm_totalPrice (trip : TripResult) (st : BookingFormState)
  : Q :=
  (tr_price trip * inject_Z (bf_numPassengers st))%Q.

(** The values the passenger-count [select] offers:
    [[...Array(Math.min(10, trip.availableSeats))].map((_, i) => i + 1)];
    [Array(n)] throws for a negative [n]. *)
Definition passengerOptions (trip : TripResult) : option (list Z) :=
  let n := Z.min 10 (tr_availableSeats trip) in
  if n <? 0 then None
  else Some (map (fun i => Z.of_nat i + 1) (seq 0 (Z.to_nat n))).

(** ** The page (app/page.tsx) *)

Inductive Step :=
| step_search
| step_results
| step_booking
| step_confirmation.

Record HomeState := mkHomeState {
  home_step : Step;
  home_searchResults : list TripResult;
  home_selectedTrip : option TripResult;
  home_bookingRef : string;
  home_searchParams : string * string * string;
}.

Definition initialHome : HomeState :=
  mkHomeState step_search [] None "" ("", "", "").

(** [JSON.stringify({ origin, destination, date })] *)
Definition searchBody (o d dt : string) : JSON :=
  JObject [("origin", JString o); ("destination", JString d);
           ("date", JString dt)].

(** [handleSearch]: the state when it returns, and the message of the
    [alert] it raises, if any. [fetch] is as in the booking form. *)
Definition handleSearch (o d dt : string)
    (fetch : JSON -> option SearchResponse) (st : HomeState)
  : HomeState * option string :=
  let st1 := mkHomeState (home_step st) (home_searchResults st)
               (home_selectedTrip st) (home_bookingRef st) (o, d, dt) in
  match fetch (searchBody o d dt) with
  | None => (st1, Some "An error occurred while searching. Please try again.")
  | Some data =>
      match search_results data with
      | Some results =>
          (mkHomeState step_results results (home_selectedTrip st1)
             (home_bookingRef st1) (home_searchParams st1), None)
      | None => (st1, Some "No trips found for your search")
      end
  end.

Definition handleSelectTrip (trip : TripResult) (st : HomeState) : HomeState :=
  mkHomeState step_booking (home_searchResults st) (Some trip)
    (home_bookingRef st) (home_searchParams st).

Definition handleBookingComplete (ref : string) (st : HomeState) : HomeState :=
  mkHomeState step_confirmation (home_searchResults st) (home_selectedTrip st)
    ref (home_searchParams st).

Definition handleReset (st : HomeState) : HomeState :=
  mkHomeState step_search [] None "" (home_searchParams st).

(** [setStep(step)] of the two back buttons. *)
Definition setStep (step : Step) (st : HomeState) : HomeState :=
  mkHomeState step (home_searchResults st) (home_selectedTrip st)
    (home_bookingRef st) (home_searchParams st).

(** [handleSearch] up to its [await fetch(...)], and from the answer on:
    between the two the page stays as it is and reacts to other events. *)
Definition searchRequested (o d dt : string) (st : HomeState) : HomeState :=
  mkHomeState (home_step st) (home_searchResults st) (home_selectedTrip st)
    (home_bookingRef st) (o, d, dt).

Definition searchAnswered (answer : option SearchResponse) (st : HomeState)
  : HomeState * option string :=
  match answer with
  | None => (st, Some "An error occurred while searching. Please try again.")
  | Some data =>
      match search_results data with
      | Some results =>
          (mkHomeState step_results results (home_selectedTrip st)
             (home_bookingRef st) (home_searchParams st), None)
      | None => (st, Some "No trips found for your search")
      end
  end.

(** What happens on the page: the user works an element that is rendered,
    or a pending [fetch] is answered. The search of [handleSearch] and the
    request of the booking form are answered later, whatever the page
    shows by then; neither form disables the back buttons meanwhile. *)
Inductive HomeEvent :=
| SearchSubmitted (o d dt : string)
| SearchAnswered (answer : option SearchResponse)
| BackToSearch
| TripSelected (index : nat)
| BackToResults
| BookingCompleted (ref : string)
| ResetClicked.

(** The panel that is rendered: [step === 'booking' && selectedTrip]. *)
Definition rendered (st : HomeState) : option Step :=
  match home_step st with
  | step_booking =>
      match home_selectedTrip st with
      | Some _ => Some step_booking
      | None => None
      end
  | s => Some s
  end.

(** The user's events fire only from the panel that renders their element
    (the results panel renders one [Select] button per trip of
    [searchResults]); an answer runs the rest of [handleSearch], or
    [handleBookingComplete] through [onComplete], in every step. *)
Definition dispatch (ev : HomeEvent) (st : HomeState) : HomeState :=
  match ev with
  | SearchAnswered answer => fst (searchAnswered answer st)
  | BookingCompleted ref => handleBookingComplete ref st
  | _ =>
      match rendered st, ev with
      | Some step_search, SearchSubmitted o d dt => searchRequested o d dt st
      | Some step_results, BackToSearch => setStep step_search st
      | Some step_results, TripSelected index =>
          match home_searchResults st !! index with
          | Some trip => handleSelectTrip trip st
          | None => st
          end
      | Some step_booking, BackToResults => setStep step_results st
      | Some step_confirmation, ResetClicked => handleReset st
      | _, _ => st
      end
  end.

(** ** The trip instances of the seed script (prisma/seed.ts) *)

(** [s.split(',')] *)
Fixpoint split_comma (s : string) : list string :=
  match s with
  | EmptyString => [""]
  | String c rest =>
      if Ascii.eqb c ","%char then "" :: split_comma rest
      else match split_comma rest with
           | [] => [String c ""]
           | piece :: pieces => String c piece :: pieces
           end
  end.

(** The inner loop [for (const trip of createdTrips)] for one [date]:
    [count] trip instances have been created so far; the next one takes
    the next generated id [cuid count] and the next draw of
    [Math.random()]. The result is the rows created, in order, and the
    new count. *)
Fixpoint seedTrips (random : nat -> Q) (cuid : nat -> string) (date : Z)
    (dayOfWeek : string) (createdTrips : list TripRow) (count : nat)
  : list TripInstanceRow * nat :=
  match createdTrips with
  | [] => ([], count)
  | trip :: rest =>
      let daysArray := split_comma (daysOfWeek trip) in
      if existsb (String.eqb dayOfWeek) daysArray then
        let created := seedTripInstance (tripColumns trip) (random count) in
        let '(rows, count') :=
          seedTrips random cuid date dayOfWeek rest (S count) in
        (mkTripInstanceRow (cuid count) (tripId trip) date
           (availableSeats created) (version created) (status created)
           :: rows, count')
      else seedTrips random cuid date dayOfWeek rest count
  end.

(** The outer loop [for (let i = 0; i < 30; i++)], with [days] iterations
    left from day [i] on. [dateOf i] is [today] at midnight moved on by [i]
    days ([date.setDate(date.getDate() + i)]), [getDay] is
    [Date.prototype.getDay]. *)
Fixpoint seedDays (random : nat -> Q) (cuid : nat -> string)
    (dateOf : nat -> Z) (getDay : Z -> Z) (createdTrips : list TripRow)
    (days i count : nat) : list TripInstanceRow :=
  match days with
  | O => []
  | S days' =>
      let date := dateOf i in
      let dayOfWeek := pretty (getDay date) in
      let '(rows, count') :=
        seedTrips random cuid date dayOfWeek createdTrips count in
      rows ++ seedDays random cuid dateOf getDay createdTrips days' (S i)
                count'
  end.

Definition seedInstances (random : nat -> Q) (cuid : nat -> string)
    (dateOf : nat -> Z) (getDay : Z -> Z) (createdTrips : list TripRow)
  : list TripInstanceRow :=
  seedDays random cuid dateOf getDay createdTrips 30 0 0.

(** * Vocabulary of the properties *)

(** The character is one of [chars]. *)
Definition inAlphabet (c : ascii) : Prop :=
  In c (String.list_ascii_of_string chars).

(** The call is a look-up of a booking reference. *)
Definition isLookup (op : Op) : Prop :=
  exists ref, op = OpFindUniqueBooking ref.

(** The row the conditional write stores: the two columns of [data] come
    from the snapshot read earlier, the others stay as stored. *)
Definition writtenRow (row snapshot : TripInstance) (n : Z) : TripInstance :=
  mkTripInstance (trip row) (availableSeats snapshot - n)
                 (version snapshot + 1) (status row).

(** The [data] of [booking.create] for request [d] under reference [ref]. *)
Definition newBooking (d : BookingRequest) (snapshot : TripInstance)
    (ref : string) : Booking :=
  mkBooking (req_tripInstanceId d) ref "confirmed"
    (basePrice (trip snapshot) * inject_Z (passengerCount d))%Q
    (req_contactEmail d) (req_contactPhone d)
    (map toPassenger (req_passengers d)) None.

(** The conditional write of request [d] on its snapshot, as logged with
    the number of records it affected. *)
Definition conditionalWrite (d : BookingRequest) (snapshot : TripInstance)
    (count : Z) : Op :=
  OpUpdateManyTripInstance (req_tripInstanceId d) (version snapshot)
    (availableSeats snapshot - passengerCount d) (version snapshot + 1) count.

(** The second half of the transaction ends at its conditional write,
    which affected no record. *)
Definition conflictOutcome (env : Env) (d : BookingRequest)
    (snapshot : TripInstance) (w : World) : Prop :=
  reserveAndCreate env d snapshot w
  = (inl (Error CONCURRENT_MODIFICATION),
     logged (conditionalWrite d snapshot 0) w).

(** Seats held by the confirmed bookings of trip instance [id]. *)
Definition confirmedSeats (id : string) (bs : list Booking) : Z :=
  foldr (fun b acc =>
           if String.eqb (tripInstanceId b) id
              && String.eqb (bookingStatus b) "confirmed"
           then Z.of_nat (length (passengers b)) + acc
           else acc) 0 bs.

(** The references of the stored bookings. *)
Definition bookingRefs (s : Store) : list string :=
  map bookingRef (bookings s).

(** The request is not suspended inside a transaction. *)
Definition settled (c : Client) : Prop :=
  forall r tripInstance, phase c <> InTransaction r tripInstance.

(** The trip instance a request is for, and the seats it asks for. *)
Definition clientId (c : Client) : string := req_tripInstanceId (request c).
Definition clientSeats (c : Client) : Z := passengerCount (request c).

(** What a committing step does to the store. *)
Definition commitOf (c : Client) (s : Store) (row snapshot : TripInstance)
    (ref : string) : Store :=
  mkStore (<[clientId c := writtenRow row snapshot (clientSeats c)]>
             (tripInstances s))
          (bookings s ++ [newBooking (request c) snapshot ref]).

(** Every row has a non-negative seat counter, and the seats still
    available together with the seats of the confirmed bookings fit the
    capacity of the trip. *)
Definition consistent (s : Store) : Prop :=
  forall id row, tripInstances s !! id = Some row ->
    0 <= availableSeats row /\
    availableSeats row + confirmedSeats id (bookings s) <= capacity (trip row).

(** A request suspended inside a transaction holds a snapshot that asked for
    no more seats than it shows, that is no newer than the stored row, and
    that shows the stored seat counter whenever it shows the stored
    version. *)
Definition snapshotOk (s : Store) (c : Client) : Prop :=
  forall r snapshot, phase c = InTransaction r snapshot ->
    clientSeats c <= availableSeats snapshot /\
    exists row, tripInstances s !! clientId c = Some row /\
      version snapshot <= version row /\
      (version snapshot = version row ->
       availableSeats snapshot = availableSeats row).

(** The invariant of the concurrent system. *)
Definition invariant (σ : System) : Prop :=
  consistent (db σ) /\ Forall (snapshotOk (db σ)) (clients σ).

(** The result of the inventory read and its three checks, as a function of
    the rows read. *)
Definition availability (d : BookingRequest) (s : Store) : Exn + TripInstance :=
  match tripInstances s !! req_tripInstanceId d with
  | None => inl (Error "Trip not found")
  | Some tripInstance =>
      if negb (String.eqb (status tripInstance) "active") then
        inl (Error "Trip is no longer available")
      else if availableSeats tripInstance <? passengerCount d then
        inl (Error ("Only " +:+ pretty (availableSeats tripInstance)
                      +:+ " seats available"))
      else inr tripInstance
  end.

(** The world after the read of an attempt, and at its conditional write. *)
Definition afterRead (d : BookingRequest) (w : World) : World :=
  logged (OpFindUniqueTripInstance (req_tripInstanceId d)) (logged OpBegin w).
Definition atWrite (env : Env) (d : BookingRequest) (w : World) : World :=
  yielded env (afterRead d w).

(** The world after the statements of a transaction that reached
    [booking.create]. *)
Definition afterCreate (d : BookingRequest) (snapshot row : TripInstance)
    (ref : string) (pos' : nat) (lookups : list Op) (bs : list Booking)
    (wy : World) : World :=
  mkWorld (committed wy)
    (mkStore (<[req_tripInstanceId d
                := writtenRow row snapshot (passengerCount d)]>
                (tripInstances (working wy))) bs)
    pos' (yields wy)
    (log wy ++ [conditionalWrite d snapshot 1] ++ lookups
       ++ [OpCreateBooking ref]).

(** The four ways an attempt ends. *)
Inductive AttemptOutcome (env : Env) (d : BookingRequest) (w : World)
  : (Exn + Booking) * World -> Prop :=
| ReadFails e :
    availability d (working w) = inl e ->
    AttemptOutcome env d w (inl e, rolledBack (afterRead d w))
| Conflict snapshot :
    availability d (working w) = inr snapshot ->
    (forall row,
       tripInstances (working (atWrite env d w)) !! req_tripInstanceId d
       = Some row -> version row <> version snapshot) ->
    AttemptOutcome env d w
      (inl (Error CONCURRENT_MODIFICATION),
       rolledBack (logged (conditionalWrite d snapshot 0) (atWrite env d w)))
| ReferenceTaken snapshot row ref pos' lookups :
    availability d (working w) = inr snapshot ->
    tripInstances (working (atWrite env d w)) !! req_tripInstanceId d
    = Some row ->
    version row = version snapshot ->
    Forall isLookup lookups -> (length lookups <= 10)%nat ->
    (lookupBooking ref (visible env (atWrite env d w)) = None \/
     length lookups = 10%nat) ->
    lookupBooking ref (bookings (working (atWrite env d w))) <> None ->
    AttemptOutcome env d w
      (inl uniqueConstraintFailed,
       rolledBack (afterCreate d snapshot row ref pos' lookups
                     (bookings (working (atWrite env d w)))
                     (atWrite env d w)))
| Booked snapshot row ref pos' lookups :
    availability d (working w) = inr snapshot ->
    tripInstances (working (atWrite env d w)) !! req_tripInstanceId d
    = Some row ->
    version row = version snapshot ->
    Forall isLookup lookups -> (length lookups <= 10)%nat ->
    lookupBooking ref (bookings (working (atWrite env d w))) = None ->
    AttemptOutcome env d w
      (inr (newBooking d snapshot ref),
       committedWorld
         (afterCreate d snapshot row ref pos' lookups
            (bookings (working (atWrite env d w))
               ++ [newBooking d snapshot ref])
            (atWrite env d w))).

(** The optimistic-locking discipline of the other writers: a row they
    leave at the same version is the same row. *)
Definition versioned (g : Store -> Store) : Prop :=
  forall s id row row',
    tripInstances s !! id = Some row ->
    tripInstances (g s) !! id = Some row' ->
    version row' = version row -> row' = row.

(** The attempts and the delays a log shows. *)
Fixpoint attemptsIn (ops : list Op) : nat :=
  match ops with
  | [] => O
  | OpBegin :: rest => S (attemptsIn rest)
  | _ :: rest => attemptsIn rest
  end.

Fixpoint delaysIn (ops : list Op) : list Z :=
  match ops with
  | [] => []
  | OpSetTimeout ms :: rest => ms :: delaysIn rest
  | _ :: rest => delaysIn rest
  end.

(** What the other requests commit during the suspensions [from],
    [from + 1], ..., [from + count - 1] of this request. *)
Fixpoint interference (env : Env) (from count : nat) (s : Store) : Store :=
  match count with
  | O => s
  | S count' => interference env (S from) count' (others env from s)
  end.

(** The statements of a log after its first conditional write and before
    the next [booking.create]. *)
Fixpoint afterWrite (ops : list Op) : list Op :=
  match ops with
  | [] => []
  | OpUpdateManyTripInstance _ _ _ _ _ :: rest => rest
  | _ :: rest => afterWrite rest
  end.

Fixpoint beforeCreate (ops : list Op) : list Op :=
  match ops with
  | [] => []
  | OpCreateBooking _ :: _ => []
  | op :: rest => op :: beforeCreate rest
  end.

Definition betweenWriteAndCreate (ops : list Op) : list Op :=
  beforeCreate (afterWrite ops).

Definition isInventoryRead (op : Op) : bool :=
  match op with
  | OpFindUniqueTripInstance _ => true
  | _ => false
  end.

(** The trip-instance row and the booking table after a cancellation of
    booking [b]. *)
Definition restockedRow (row : TripInstance) (b : Booking) : TripInstance :=
  mkTripInstance (trip row)
    (availableSeats row + Z.of_nat (length (passengers b)))
    (version row + 1) (status row).

Definition markCancelled (ref : string) (now : Z) (bs : list Booking)
  : list Booking :=
  map (fun b => if String.eqb (bookingRef b) ref
                then cancelledBooking b now else b) bs.

(** The row the conditional write of a cancellation stores: the two columns
    of its data come from the snapshot read earlier, the others stay as
    stored. *)
Definition restocked (row snapshot : TripInstance) (b : Booking)
  : TripInstance :=
  mkTripInstance (trip row)
    (availableSeats snapshot + Z.of_nat (length (passengers b)))
    (version snapshot + 1) (status row).

(** What a cancellation attempt finds in store [s]: the booking, which is
    confirmed, and the row of its departure. *)
Definition cancellable (ref : string) (s : Store)
  : option (Booking * TripInstance) :=
  match lookupBooking ref (bookings s) with
  | Some b =>
      if negb (String.eqb (bookingStatus b) "confirmed") then None
      else match tripInstances s !! tripInstanceId b with
           | Some snapshot => Some (b, snapshot)
           | None => None
           end
  | None => None
  end.

(** The reads of a cancellation attempt, as logged. *)
Definition cancelReads (ref : string) (s : Store) : list Op :=
  OpFindUniqueBooking ref ::
  match lookupBooking ref (bookings s) with
  | Some b =>
      if negb (String.eqb (bookingStatus b) "confirmed") then []
      else [OpFindUniqueTripInstance (tripInstanceId b)]
  | None => []
  end.

(** The conditional write of a cancellation on its snapshot, as logged
    with the number of records it affected. *)
Definition restockWrite (b : Booking) (snapshot : TripInstance) (count : Z)
  : Op :=
  OpUpdateManyTripInstance (tripInstanceId b) (version snapshot)
    (availableSeats snapshot + Z.of_nat (length (passengers b)))
    (version snapshot + 1) count.

(** The world of a cancellation attempt at its conditional write. *)
Definition cancelAtWrite (env : Env) (ref : string) (w : World) : World :=
  yielded env
    (mkWorld (committed w) (working w) (rngPos w) (yields w)
       (log w ++ OpBegin :: cancelReads ref (working w))).

(** No transaction of the log was committed. *)
Definition uncommitted (ops : list Op) : Prop :=
  Forall (fun op => op <> OpCommit) ops.

(** The conditional writes of a log that affected no record. *)
Definition isConflict (op : Op) : bool :=
  match op with
  | OpUpdateManyTripInstance _ _ _ _ count => count =? 0
  | _ => false
  end.

Definition conflictsIn (ops : list Op) : nat := length (filter isConflict ops).

(** The handler's answer for the result of its retry loop. *)
Definition respond (result : (Exn + option Booking) * World)
  : Response * World :=
  match result with
  | (inr (Some booking), w) => (confirmedResponse booking, w)
  | (inr None, w) => (contentionResponse, w)
  | (inl e, w) => (errorResponse e, w)
  end.

(** The rest of the retry loop for a request that resumes at the
    conditional write of an attempt. *)
Definition finishAttempt (env : Env) (d : BookingRequest) (retries : nat)
    (snapshot : TripInstance) (w : World) : (Exn + option Booking) * World :=
  match reserveAndCreate env d snapshot w with
  | (inr booking, w') => (inr (Some booking), committedWorld w')
  | (inl e, w') =>
      if retryable e retries
      then retryLoop env d (Nat.pred retries)
             (yielded env (logged (OpSetTimeout 100) (rolledBack w')))
      else (inl e, rolledBack w')
  end.

(** What the handler, run on its own from where the request is suspended,
    answers when the request resumes on the store [s]. *)
Definition completion (env : Env) (c : Client) (s : Store)
  : Response * World :=
  match phase c with
  | AtLoop r => respond (retryLoop env (request c) r (attach s (local c)))
  | InTransaction r snapshot =>
      respond (finishAttempt env (request c) r snapshot (attach s (local c)))
  | Responded resp => (resp, local c)
  end.

(** The system at the next step of client [i] under a schedule. *)
Fixpoint resumeAt (i : nat) (schedule : list nat) (σ : System) : System :=
  match schedule with
  | [] => σ
  | j :: rest => if Nat.eqb j i then σ else resumeAt i rest (stepAt j σ)
  end.

(** An environment with other writers. *)
Definition withOthers (env : Env) (os : nat -> Store -> Store) : Env :=
  mkEnv (DATABASE_URL env) (random env) os (late env).

(** The writers [os] except at suspension [k], where the other requests
    leave the store [s]. *)
Definition leaving (k : nat) (s : Store) (os : nat -> Store -> Store)
  : nat -> Store -> Store :=
  fun n => if Nat.eqb n k then fun _ => s else os n.

(** The calls of a log are grouped in transactions: every statement on the
    database lies between a [OpBegin] and the one [OpCommit] or
    [OpRollback] that follows it, and a timer runs only outside a
    transaction. [inTx] tells whether a transaction is open at the head of
    the log. *)
Fixpoint bracketed (inTx : bool) (ops : list Op) : bool :=
  match ops with
  | [] => negb inTx
  | OpBegin :: rest => negb inTx && bracketed true rest
  | OpCommit :: rest => inTx && bracketed false rest
  | OpRollback :: rest => inTx && bracketed false rest
  | OpSetTimeout _ :: rest => negb inTx && bracketed false rest
  | _ :: rest => inTx && bracketed true rest
  end.

(** A request as [bookingSchema] accepts it. *)
Definition validPassenger (isEmail : string -> bool) (p : PassengerData)
  : Prop :=
  pd_firstName p <> "" /\ pd_lastName p <> "" /\
  (forall e, pd_email p = Some e -> e = "" \/ isEmail e = true).

Definition validRequest (isEmail : string -> bool) (d : BookingRequest)
  : Prop :=
  req_tripInstanceId d <> "" /\
  req_passengers d <> [] /\
  Forall (validPassenger isEmail) (req_passengers d) /\
  isEmail (req_contactEmail d) = true /\
  req_contactPhone d <> "".

(** [JSON.stringify] of a [BookingRequest], as [request.json()] parses it:
    an optional property that is absent is left out. *)
Definition passengerDataJSON (p : PassengerData) : JSON :=
  JObject ([("firstName", JString (pd_firstName p));
            ("lastName", JString (pd_lastName p))]
             ++ property "email" (pd_email p)
             ++ property "phone" (pd_phone p)).

Definition requestJSON (d : BookingRequest) : JSON :=
  JObject [("tripInstanceId", JString (req_tripInstanceId d));
           ("passengers", JArray (map passengerDataJSON (req_passengers d)));
           ("contactEmail", JString (req_contactEmail d));
           ("contactPhone", JString (req_contactPhone d))].

(** The [TripResult] the search route builds for an instance of a trip of
    a route. *)
Definition tripResult (lib : Library) (route : Route) (trip : TripRow)
    (instance : TripInstanceRow) : TripResult :=
  mkTripResult (tripId trip) (instanceId instance)
    (origin route) (destination route)
    (format_yyyy_MM_dd lib (date instance))
    (departureTime trip) (arrivalTime trip)
    (basePrice (tripColumns trip))
    (rowAvailableSeats instance) (distance route).

(** [r] stands for a departure that can be booked on the day of
    [searchDate]: an active instance with a seat left, of a trip of a route
    that matches the search terms. *)
Definition bookableOn (lib : Library) (db : Database) (q : SearchRequest)
    (searchDate : Z) (r : TripResult) : Prop :=
  exists route trip instance,
    In route (routes db) /\
    containsInsensitive lib (origin route) (sr_origin q) = true /\
    containsInsensitive lib (destination route) (sr_destination q) = true /\
    In trip (trips db) /\ tripRouteId trip = routeId route /\
    In instance (instanceRows db) /\ instanceTripId instance = tripId trip /\
    startOfDay lib searchDate <= date instance <= endOfDay lib searchDate /\
    rowStatus instance = "active" /\
    0 < rowAvailableSeats instance /\
    r = tripResult lib route trip instance.

(** No element compares greater than a later one. *)
Fixpoint inOrder {A} (compareFn : A -> A -> Z) (l : list A) : Prop :=
  match l with
  | [] => True
  | x :: rest => Forall (fun y => compareFn x y <= 0) rest
                 /\ inOrder compareFn rest
  end.

(** The comparison of the search route. *)
Definition byDeparture (lib : Library) (a b : TripResult) : Z :=
  localeCompare lib (tr_departureTime a) (tr_departureTime b).

(** The tables as the booking route reads them: a trip instance comes with
    the trip its [tripId] refers to ([include: { trip }]). *)
Definition includeTrip (db : Database) (i : TripInstanceRow)
  : option TripInstance :=
  t ← List.find (fun t => String.eqb (tripId t) (instanceTripId i)) (trips db);
  Some (mkTripInstance (tripColumns t) (rowAvailableSeats i) (rowVersion i)
          (rowStatus i)).

Fixpoint joinedRows (db : Database) (rows : list TripInstanceRow)
  : gmap string TripInstance :=
  match rows with
  | [] => ∅
  | i :: rest =>
      match includeTrip db i with
      | Some row => <[instanceId i := row]> (joinedRows db rest)
      | None => joinedRows db rest
      end
  end.

Definition storeOf (db : Database) : Store :=
  mkStore (joinedRows db (instanceRows db)) (bookingRows db).

(** What the user can do on the booking form. *)
Inductive FormEvent :=
| NumPassengersChanged (num : Z)
| PassengerEdited (index : nat) (field : PassengerField) (value : string)
| ContactEmailEdited (value : string)
| ContactPhoneEdited (value : string)
| Submitted (fetch : JSON -> option Response).

(** The element that raises the event is rendered: the [select] offers
    [passengerOptions], and there is one group of inputs per element of
    [passengers]. *)
Definition offered (trip : TripResult) (st : BookingFormState)
    (ev : FormEvent) : Prop :=
  match ev with
  | NumPassengersChanged num =>
      exists options, passengerOptions trip = Some options /\ In num options
  | PassengerEdited index _ _ => (index < length (bf_passengers st))%nat
  | _ => True
  end.

Definition formStep (trip : TripResult) (ev : FormEvent)
    (st : BookingFormState) : BookingFormState :=
  match ev with
  | NumPassengersChanged num => handleNumPassengersChange num st
  | PassengerEdited index field value => updatePassenger index field value st
  | ContactEmailEdited value => setContactEmail value st
  | ContactPhoneEdited value => setContactPhone value st
  | Submitted fetch => fst (BookingForm_handleSubmit trip fetch st)
  end.

(** The states of the form for [trip] that the user can reach. *)
Inductive reachable (trip : TripResult) : BookingFormState -> Prop :=
| reachable_initial : reachable trip initialBookingForm
| reachable_step st ev :
    reachable trip st -> offered trip st ev ->
    reachable trip (formStep trip ev st).

(** A passenger object with its four properties set. *)
Definition complete (p : option FormPassenger) : Prop :=
  exists fn ln em ph,
    p = Some (mkFormPassenger (Some fn) (Some ln) (Some em) (Some ph)).

(** The request the form's state stands for. *)
Definition formPassengerData (p : option FormPassenger) : PassengerData :=
  let p := default (mkFormPassenger None None None None) p in
  mkPassengerData (default "" (fp_firstName p)) (default "" (fp_lastName p))
    (fp_email p) (fp_phone p).

Definition formRequest (trip : TripResult) (st : BookingFormState)
  : BookingRequest :=
  mkBookingRequest (tr_tripInstanceId trip)
    (map formPassengerData (bf_passengers st))
    (bf_contactEmail st) (bf_contactPhone st).

(** A passenger object with a first and a last name. *)
Definition named (p : option FormPassenger) : Prop :=
  exists p', p = Some p' /\ falsy (fp_firstName p') = false
             /\ falsy (fp_lastName p') = false.

(** The position of a character in a string (its length when the
    character does not occur), and draws of [Math.random()] under which the
    generator spells out [ref]: the [k]-th draw selects the [k]-th
    character of [ref] in the alphabet. *)
Fixpoint indexOf (c : ascii) (s : string) : nat :=
  match s with
  | EmptyString => O
  | String c' rest => if Ascii.eqb c c' then O else S (indexOf c rest)
  end.

Definition drawsFor (ref : string) : nat -> Q :=
  fun k => match String.get k ref with
           | Some c => (Z.of_nat (indexOf c chars) # 32)%Q
           | None => 0%Q
           end.

(** A row as the seed script creates it for one of [createdTrips] on a day
    the trip runs. *)
Definition seededRow (getDay : Z -> Z) (createdTrips : list TripRow)
    (r : TripInstanceRow) : Prop :=
  exists trip,
    In trip createdTrips /\
    instanceTripId r = tripId trip /\
    In (pretty (getDay (date r))) (split_comma (daysOfWeek trip)) /\
    capacity (tripColumns trip) - 9 <= rowAvailableSeats r
      <= capacity (tripColumns trip) /\
    rowVersion r = 0 /\ rowStatus r = "active".

(** * Scenarios *)

Definition quiet : nat -> Store -> Store := fun _ s => s.

(** No booking of another request arrives after the look-ups. *)
Definition punctual : nat -> nat := fun _ => 0%nat.

(** Draws of [Math.random()] that select the characters of index [seed],
    [seed + 1], ... of the alphabet. *)
Definition draws (seed : nat) : nat -> Q :=
  fun n => (Z.of_nat ((seed + n) mod 32) # 32)%Q.

Definition quietEnv (seed : nat) : Env :=
  mkEnv (Some "postgresql://landline") (draws seed) quiet punctual.

Definition traveller (first last : string) : PassengerData :=
  mkPassengerData first last None None.

Definition partyOfTwo : BookingRequest :=
  mkBookingRequest "dep1"
    [traveller "Ada" "Lovelace"; traveller "Alan" "Turing"]
    "ada@example.com" "555-0100".

Definition single : BookingRequest :=
  mkBookingRequest "dep1" [traveller "Grace" "Hopper"]
    "grace@example.com" "555-0101".

(** A departure with capacity 2, 2 seats available, version 0. *)
Definition smallDeparture : Store :=
  mkStore {[ "dep1" := mkTripInstance (mkTrip (49 # 1) 2) 2 0 "active" ]} [].

(** A departure of the seed script: capacity 55. *)
Definition largeDeparture : Store :=
  mkStore {[ "dep1" := mkTripInstance (mkTrip (49 # 1) 55) 55 0 "active" ]} [].

(** A departure that is sold out and no longer active. *)
Definition cancelledDeparture : Store :=
  mkStore {[ "dep1" := mkTripInstance (mkTrip (49 # 1) 55) 0 7 "cancelled" ]} [].

(** Another request for one seat on "dep1" runs from its read to its
    commit. *)
Definition competitor (seed : nat) (s : Store) : Store :=
  db (run [0%nat; 0%nat] (mkSystem s [newClient (quietEnv seed) single])).

(** An environment in which a competitor commits between every read and
    conditional write of this request, and nobody commits during its
    delays. *)
Definition contendedEnv : Env :=
  mkEnv (Some "postgresql://landline") (draws 0)
    (fun k s => if Nat.even k then competitor (7 * k + 1) s else s)
    punctual.

(** An environment in which one competitor commits between the read and
    the conditional write of this request's first attempt, and nobody
    commits afterwards. *)
Definition onceContendedEnv : Env :=
  mkEnv (Some "postgresql://landline") (draws 0)
    (fun k s => if Nat.eqb k 0 then competitor 1 s else s) punctual.

(** A store in which the reference AAAAAA is taken, and draws that produce
    AAAAAA ten times and then BBBBBB. *)
Definition takenStore : Store :=
  mkStore {[ "dep1" := mkTripInstance (mkTrip (49 # 1) 55) 54 1 "active" ]}
    [mkBooking "dep1" "AAAAAA" "confirmed" (49 # 1) "ada@example.com"
       "555-0100" [mkPassenger "Ada" "Lovelace" None None] None].

Definition collidingEnv : Env :=
  mkEnv (Some "postgresql://landline")
    (fun n => if (n <? 60)%nat then 0%Q else (1 # 32)%Q) quiet punctual.

(** Two departures, a request for one seat on the second, and an
    environment with the draws of [quietEnv 0] in which one booking of
    another request is stored after the look-ups of each transaction. *)
Definition twoDepartures : Store :=
  mkStore {[ "dep1" := mkTripInstance (mkTrip (49 # 1) 55) 55 0 "active";
             "dep2" := mkTripInstance (mkTrip (35 # 1) 55) 55 0 "active" ]} [].

Definition singleOnSecond : BookingRequest :=
  mkBookingRequest "dep2" [traveller "Alan" "Turing"]
    "alan@example.com" "555-0102".

Definition overtakenEnv : Env :=
  mkEnv (Some "postgresql://landline") (draws 0) quiet (fun _ => 1%nat).

(** A stand-in for zod's e-mail test in the scenarios: the address has the
    separator. *)
Definition hasAt (s : string) : bool :=
  existsb (fun c => Ascii.eqb c "@"%char) (String.list_ascii_of_string s).

Definition unconfiguredEnv : Env :=
  mkEnv None (draws 0) quiet punctual.

Definition emptyPartyBody : JSON :=
  JObject [("tripInstanceId", JString "dep1");
           ("passengers", JArray []);
           ("contactEmail", JString "ada@example.com");
           ("contactPhone", JString "555-0100")].

(** A departure that is sold out and still active. *)
Definition soldOutDeparture : Store :=
  mkStore {[ "dep1" := mkTripInstance (mkTrip (49 # 1) 55) 0 9 "active" ]} [].

(** Draws that produce the candidate AAAAAA every time. *)
Definition stuckEnv : Env :=
  mkEnv (Some "postgresql://landline") (fun _ => 0%Q) quiet punctual.

(** A stand-in for the runtime in the scenarios: two dates parse, to their
    midnight in UTC; a day has 86400000 milliseconds; a column matches a
    term it contains, letter case as is; strings compare by the number
    their code points spell. *)
Fixpoint contains (needle s : string) : bool :=
  String.prefix needle s
  || match s with
     | EmptyString => false
     | String _ rest => contains needle rest
     end.

Definition codeValue (s : string) : Z :=
  fold_left (fun acc c => acc * 256 + Z.of_N (N_of_ascii c))
            (String.list_ascii_of_string s) 0.

Definition exampleLibrary : Library :=
  mkLibrary
    (fun s => if String.eqb s "2025-11-03" then Some 1762128000000
              else if String.eqb s "2025-11-04" then Some 1762214400000
              else None)
    (fun t => t - t mod 86400000)
    (fun t => t - t mod 86400000 + 86399999)
    (fun t => if t <? 1762214400000 then "2025-11-03" else "2025-11-04")
    (fun column needle => contains needle column)
    (fun a b => codeValue a - codeValue b).

(** One route with an afternoon and a morning trip on two days; the
    instance of the afternoon trip on the first day is sold out. *)
Definition exampleDatabase : Database :=
  mkDatabase
    [mkRoute "r1" "San Francisco" "Los Angeles" 382]
    [mkTripRow "t2" "r1" "15:00" "23:30" "4,5,6" (mkTrip (69 # 1) 55);
     mkTripRow "t1" "r1" "07:00" "15:30" "0,1,2,3,4,5,6" (mkTrip (49 # 1) 55)]
    [mkTripInstanceRow "dep0" "t2" 1762128000000 0 55 "active";
     mkTripInstanceRow "dep1" "t1" 1762128000000 2 3 "active";
     mkTripInstanceRow "dep2" "t2" 1762214400000 55 0 "active";
     mkTripInstanceRow "dep3" "t1" 1762214400000 54 1 "active"]
    [].

Definition searchBodyFor (o d dt : string) : JSON :=
  JObject [("origin", JString o); ("destination", JString d);
           ("date", JString dt)].

(** The only result of a search for the first day in [exampleDatabase]. *)
Definition morningTrip : TripResult :=
  mkTripResult "t1" "dep1" "San Francisco" "Los Angeles" "2025-11-03"
    "07:00" "15:30" (49 # 1) 2 382.

(** The results of a search for the second day. *)
Definition secondDayResults : list TripResult :=
  [mkTripResult "t1" "dep3" "San Francisco" "Los Angeles" "2025-11-04"
     "07:00" "15:30" (49 # 1) 54 382;
   mkTripResult "t2" "dep2" "San Francisco" "Los Angeles" "2025-11-04"
     "15:00" "23:30" (69 # 1) 55 382].

(** The form for [morningTrip], filled in for one traveller. *)
Definition filledForm : BookingFormState :=
  formStep morningTrip (ContactPhoneEdited "555-0100")
    (formStep morningTrip (ContactEmailEdited "ada@example.com")
       (formStep morningTrip (PassengerEdited 0 field_lastName "Lovelace")
          (formStep morningTrip (PassengerEdited 0 field_firstName "Ada")
             initialBookingForm))).

(** The booking endpoint as the form reaches it: one request against the
    rows of [exampleDatabase], with nobody else writing. *)
Definition exampleServer (body : JSON) : option Response :=
  Some (fst (POST hasAt (quietEnv 0) body
               (initWorld (storeOf exampleDatabase)))).

(** Draws that fall in the middle of the intervals [draws 0] starts. *)
Definition midDraws : nat -> Q :=
  fun n => ((2 * Z.of_nat (n mod 32) + 1) # 64)%Q.

(** * Properties *)

(** ** Strings *)

Lemma length_append (a b : string) :
  String.length (a +:+ b) = (String.length a + String.length b)%nat.
Proof.
  induction a as [|c a IH]; [reflexivity |].
  change (String c a +:+ b) with (String c (a +:+ b)). simpl. now rewrite IH.
Qed.

Lemma list_ascii_append (a b : string) :
  String.list_ascii_of_string (a +:+ b)
  = String.list_ascii_of_string a ++ String.list_ascii_of_string b.
Proof.
  induction a as [|c a IH]; [reflexivity |].
  change (String c a +:+ b) with (String c (a +:+ b)). simpl. now rewrite IH.
Qed.

Lemma get_In (s : string) (n : nat) (c : ascii) :
  String.get n s = Some c -> In c (String.list_ascii_of_string s).
Proof.
  revert n; induction s as [|c' s IH]; intros n H; simpl in *.
  - discriminate.
  - destruct n as [|n].
    + injection H as ->. now left.
    + right. eapply IH, H.
Qed.

Lemma get_lt (s : string) (n : nat) :
  (n < String.length s)%nat -> exists c, String.get n s = Some c.
Proof.
  revert n; induction s as [|c' s IH]; intros n H; simpl in *.
  - lia.
  - destruct n as [|n]; [eauto | apply IH; lia].
Qed.

(** ** C8: the reference generator *)

Lemma randomIndex_range (r : Q) :
  (0 <= r)%Q -> (r < 1)%Q ->
  0 <= randomIndex r < Z.of_nat (String.length chars).
Proof.
  intros H0 H1. unfold randomIndex.
  set (n := Z.of_nat (String.length chars)).
  assert (Hn : 0 < n) by (subst n; vm_compute; reflexivity).
  assert (Hq : (inject_Z 0 < inject_Z n)%Q) by (rewrite <- Zlt_Qlt; exact Hn).
  split.
  - change 0 with (Qfloor 0). apply Qfloor_resp_le.
    apply Qmult_le_0_compat; [exact H0 | apply Qlt_le_weak, Hq].
  - rewrite Zlt_Qlt.
    eapply Qle_lt_trans; [apply Qfloor_le |].
    eapply Qlt_le_trans; [apply Qmult_lt_compat_r; [exact Hq | exact H1] |].
    rewrite Qmult_1_l. apply Qle_refl.
Qed.

Lemma charAt_alphabet (i : Z) :
  0 <= i < Z.of_nat (String.length chars) ->
  exists c, charAt chars i = String c "" /\ inAlphabet c.
Proof.
  intros [H0 H1]. unfold charAt.
  destruct (Z.ltb_spec i 0) as [Hneg|_]; [lia |].
  destruct (get_lt chars (Z.to_nat i)) as [c Hc]; [lia |].
  rewrite Hc. exists c. split; [reflexivity | eapply get_In, Hc].
Qed.

Lemma generateLoop_spec (random : nat -> Q) :
  (forall k, (0 <= random k)%Q /\ (random k < 1)%Q) ->
  forall n pos ref,
    snd (generateLoop random n pos ref) = (pos + n)%nat /\
    String.length (fst (generateLoop random n pos ref))
      = (String.length ref + n)%nat /\
    (Forall inAlphabet (String.list_ascii_of_string ref) ->
     Forall inAlphabet
       (String.list_ascii_of_string (fst (generateLoop random n pos ref)))).
Proof.
  intros Hr n; induction n as [|n IH]; intros pos ref; simpl.
  - repeat split; [lia | lia | tauto].
  - destruct (charAt_alphabet (randomIndex (random pos))) as (c & Hc & Hin).
    { apply randomIndex_range; apply Hr. }
    rewrite Hc.
    destruct (IH (S pos) (ref +:+ String c "")) as (Hp & Hl & Hf).
    repeat split.
    + rewrite Hp; lia.
    + rewrite Hl, length_append; simpl; lia.
    + intros Href. apply Hf. rewrite list_ascii_append.
      apply Forall_app_2; [exact Href | constructor; [exact Hin | constructor]].
Qed.

(** C8 (as the code has it): with every draw of [Math.random()] in
    [0, 1), the reference returned by [generateBookingRef] has exactly 6
    characters, each of them a character of
    [ABCDEFGHJKLMNPQRSTUVWXYZ23456789]; that alphabet has 32 symbols and
    contains none of [0], [O], [1], [I]. *)
Theorem generateBookingRef_format (random : nat -> Q) (pos : nat) :
  (forall k, (0 <= random k)%Q /\ (random k < 1)%Q) ->
  String.length (fst (generateBookingRef random pos)) = 6%nat /\
  Forall inAlphabet (String.list_ascii_of_string (fst (generateBookingRef random pos))) /\
  String.length chars = 32%nat /\
  Forall (fun c => ~ inAlphabet c) (String.list_ascii_of_string "0O1I").
Proof.
  intros Hr.
  destruct (generateLoop_spec random Hr 6 pos "") as (_ & Hl & Hf).
  repeat split.
  - exact Hl.
  - apply Hf. constructor.
  - repeat constructor; unfold inAlphabet; simpl; intros H;
      repeat (destruct H as [H|H]; [discriminate H |]); exact H.
Qed.

Lemma generateBookingRef_format_witness :
  String.length (fst (generateBookingRef (fun _ => 0%Q) 0)) = 6%nat /\
  Forall inAlphabet
    (String.list_ascii_of_string (fst (generateBookingRef (fun _ => 0%Q) 0))) /\
  String.length chars = 32%nat /\
  Forall (fun c => ~ inAlphabet c) (String.list_ascii_of_string "0O1I").
Proof.
  apply (generateBookingRef_format (fun _ => 0%Q) 0).
  intros k; split; [apply Qle_refl | reflexivity].
Defined.

(** C8 (as stated) fails on the size of the alphabet: the string [chars]
    of [generateBookingRef] has 32 characters, not 33. *)
Lemma generateBookingRef_alphabet_not_33 :
  ~ (String.length chars = 33%nat).
Proof. vm_compute. discriminate. Qed.

(** ** The statements of the transaction, one at a time *)

#[local] Opaque generateBookingRef.

Ltac run_handler :=
  unfold bind, ret, throw, catch, emit, logged, getWorking, setWorking,
    tripInstance_findUnique, booking_findUnique; simpl.

Lemma checkAvailability_run (d : BookingRequest) (w : World) :
  checkAvailability d w =
  let w1 := logged (OpFindUniqueTripInstance (req_tripInstanceId d)) w in
  match tripInstances (working w) !! req_tripInstanceId d with
  | None => (inl (Error "Trip not found"), w1)
  | Some tripInstance =>
      if negb (String.eqb (status tripInstance) "active") then
        (inl (Error "Trip is no longer available"), w1)
      else if availableSeats tripInstance <? passengerCount d then
        (inl (Error ("Only " +:+ pretty (availableSeats tripInstance)
                       +:+ " seats available")), w1)
      else (inr tripInstance, w1)
  end.
Proof.
  unfold checkAvailability, logged. run_handler.
  destruct (tripInstances (working w) !! req_tripInstanceId d) as [ti|];
    [| reflexivity].
  destruct (negb (String.eqb (status ti) "active")); [reflexivity |].
  destruct (availableSeats ti <? passengerCount d); reflexivity.
Qed.

(** The reference loop only reads. It makes at most [n] lookups, and the
    reference it returns is either unused or the candidate drawn after the
    [n]-th collision, which it has not looked up. *)
Lemma uniqueRefLoop_run (env : Env) (n : nat) :
  forall (ref : string) (w : World),
  exists ref' pos' lookups,
    uniqueRefLoop env n ref w
    = (inr ref', mkWorld (committed w) (working w) pos' (yields w)
                   (log w ++ lookups)) /\
    Forall isLookup lookups /\
    (length lookups <= n)%nat /\
    (lookupBooking ref' (visible env w) = None \/
     length lookups = n).
Proof.
  induction n as [|n IH]; intros ref w.
  - exists ref, (rngPos w), []. simpl. unfold ret. rewrite app_nil_r.
    destruct w; simpl. repeat split; auto.
  - simpl. unfold booking_findUnique_early. run_handler.
    change (visible env (mkWorld (committed w) (working w) (rngPos w)
                           (yields w) (log w ++ [OpFindUniqueBooking ref])))
      with (visible env w).
    destruct (lookupBooking ref (visible env w)) as [b|] eqn:Hfind.
    + unfold generateBookingRefM; simpl.
      destruct (IH (fst (generateBookingRef (random env) (rngPos w)))
                   (mkWorld (committed w) (working w)
                      (snd (generateBookingRef (random env) (rngPos w)))
                      (yields w) (log w ++ [OpFindUniqueBooking ref])))
        as (ref' & pos' & lookups & Hrun & Hall & Hlen & Hfree).
      simpl in *.
      exists ref', pos', (OpFindUniqueBooking ref :: lookups).
      rewrite Hrun. rewrite <- app_assoc. simpl.
      repeat split.
      * constructor; [eexists; reflexivity | exact Hall].
      * lia.
      * destruct Hfree as [Hfree|Hfree]; [left; exact Hfree | right; lia].
    + exists ref, (rngPos w), [OpFindUniqueBooking ref]. simpl.
      repeat split.
      * constructor; [eexists; reflexivity | constructor].
      * lia.
      * left; exact Hfind.
Qed.

(** The reference loop uses of its environment the random source and the
    count of late bookings only. *)
Lemma uniqueRefLoop_ext (env1 env2 : Env) :
  random env1 = random env2 -> late env1 = late env2 ->
  forall n ref w, uniqueRefLoop env1 n ref w = uniqueRefLoop env2 n ref w.
Proof.
  intros Hr Hl n. induction n as [|n IH]; intros ref w; simpl; [reflexivity |].
  unfold booking_findUnique_early, visible, bind, emit. rewrite Hl.
  destruct (lookupBooking ref _); [| reflexivity].
  unfold generateBookingRefM. rewrite Hr. apply IH.
Qed.

(** What the look-ups see when [late] counts the bookings that arrived. *)
Lemma visible_arrived (env : Env) (arrived bs : list Booking)
    (c wk : Store) (pos y : nat) (l : list Op) :
  late env y = length arrived ->
  bookings wk = bs ++ arrived ->
  visible env (mkWorld c wk pos y l) = bs.
Proof.
  intros Hl Hb. unfold visible. cbn [working yields]. rewrite Hb, Hl.
  rewrite length_app.
  replace (length bs + length arrived - length arrived)%nat
    with (length bs) by lia.
  apply take_app_length.
Qed.

Lemma uniqueRefLoop_arrived (env env' : Env) (arrived : list Booking) (n : nat) :
  random env' = random env ->
  forall ref c1 w1 c2 w2 pos y l,
    late env y = 0%nat -> late env' y = length arrived ->
    bookings w2 = bookings w1 ++ arrived ->
    uniqueRefLoop env' n ref (mkWorld c2 w2 pos y l)
    = (fst (uniqueRefLoop env n ref (mkWorld c1 w1 pos y l)),
       mkWorld c2 w2
         (rngPos (snd (uniqueRefLoop env n ref (mkWorld c1 w1 pos y l)))) y
         (log (snd (uniqueRefLoop env n ref (mkWorld c1 w1 pos y l))))).
Proof.
  intros Hr. induction n as [|n IH]; intros ref c1 w1 c2 w2 pos y l H0 Hl Hb.
  - reflexivity.
  - cbn [uniqueRefLoop]. unfold booking_findUnique_early, emit, logged, ret, bind.
    cbn [committed working rngPos yields log].
    rewrite (visible_arrived env' arrived (bookings w1)) by assumption.
    rewrite (visible_arrived env [] (bookings w1))
      by (try assumption; now rewrite app_nil_r).
    destruct (lookupBooking ref (bookings w1)); [| reflexivity].
    unfold generateBookingRefM. cbn [rngPos committed working yields log].
    rewrite Hr. apply IH; assumption.
Qed.

#[local] Opaque uniqueRefLoop.

Lemma reserveAndCreate_run (env : Env) (d : BookingRequest)
    (snapshot : TripInstance) (w : World) :
  let s := working w in
  let id := req_tripInstanceId d in
  match tripInstances s !! id with
  | Some row =>
      if version row =? version snapshot then
        exists ref pos' lookups,
          Forall isLookup lookups /\
          (length lookups <= 10)%nat /\
          (lookupBooking ref (visible env w) = None \/
           length lookups = 10%nat) /\
          let ts' := <[id := writtenRow row snapshot (passengerCount d)]>
                       (tripInstances s) in
          let l' := log w ++ [conditionalWrite d snapshot 1] ++ lookups
                      ++ [OpCreateBooking ref] in
          reserveAndCreate env d snapshot w =
          match lookupBooking ref (bookings s) with
          | Some _ =>
              (inl uniqueConstraintFailed,
               mkWorld (committed w) (mkStore ts' (bookings s)) pos'
                       (yields w) l')
          | None =>
              (inr (newBooking d snapshot ref),
               mkWorld (committed w)
                       (mkStore ts' (bookings s ++ [newBooking d snapshot ref]))
                       pos' (yields w) l')
          end
      else conflictOutcome env d snapshot w
  | None => conflictOutcome env d snapshot w
  end.
Proof.
  intros s id. subst s id.
  unfold conflictOutcome, reserveAndCreate, tripInstance_updateMany.
  destruct (tripInstances (working w) !! req_tripInstanceId d) as [row|] eqn:Hrow.
  2:{ run_handler. rewrite Hrow. reflexivity. }
  destruct (version row =? version snapshot) eqn:Hv.
  2:{ run_handler. rewrite Hrow, Hv. reflexivity. }
  run_handler. rewrite Hrow, Hv. simpl.
  match goal with
  | |- context [uniqueRefLoop env 10 ?r ?w1] =>
      destruct (uniqueRefLoop_run env 10 r w1)
        as (ref & pos' & lookups & Hrun & Hall & Hlen & Hfree)
  end.
  simpl in Hrun, Hfree.
  exists ref, pos', lookups. repeat split; try assumption.
  rewrite Hrun. unfold booking_create. run_handler.
  rewrite <- !app_assoc. simpl.
  destruct (lookupBooking ref (bookings (working w))); [reflexivity |].
  rewrite lookup_insert_eq. reflexivity.
Qed.

(** The second half of a transaction with the bookings [arrived] inserted
    by other requests between its look-ups and its [booking.create] ends
    as the model's does on the store that holds them, its look-ups blind
    to them. *)
Lemma late_covers_arrivals (env env' : Env) (d : BookingRequest)
    (snapshot row : TripInstance) (arrived : list Booking) (w : World) :
  random env' = random env ->
  late env (yields w) = 0%nat ->
  late env' (yields w) = length arrived ->
  tripInstances (working w) !! req_tripInstanceId d = Some row ->
  version row = version snapshot ->
  reserveAndCreate_awaited env d snapshot arrived w
  = reserveAndCreate env' d snapshot (snd (arrive arrived w)).
Proof.
  intros Hr H0 Hl Hrow Hv.
  unfold reserveAndCreate_awaited, reserveAndCreate, tripInstance_updateMany,
    arrive, withArrivals, generateBookingRefM.
  unfold getWorking, setWorking, emit, logged, ret, throw, bind.
  cbn [fst snd committed working rngPos yields log tripInstances bookings].
  rewrite Hrow, Hv, Z.eqb_refl.
  cbn [fst snd committed working rngPos yields log tripInstances bookings
       Z.eqb].
  rewrite Hr.
  match goal with
  | |- context [uniqueRefLoop env' 10 ?r (mkWorld ?c2 ?w2 ?pos ?y ?l)] =>
      match goal with
      | |- context [uniqueRefLoop env 10 r (mkWorld ?c1 ?w1 pos y l)] =>
          rewrite (uniqueRefLoop_arrived env env' arrived 10 Hr r c1 w1 c2 w2
                     pos y l H0 Hl eq_refl)
      end
  end.
  match goal with
  | |- context [uniqueRefLoop env 10 ?r ?w1] =>
      destruct (uniqueRefLoop_run env 10 r w1)
        as (ref & pos' & lookups & Hrun & _)
  end.
  rewrite Hrun. reflexivity.
Qed.

(** ** One step of one request *)

Lemma afterError_settled c r e w : settled (afterError c r e w).
Proof.
  unfold settled, afterError. intros r' ti.
  destruct (retryable e r); simpl; discriminate.
Qed.

Lemma afterError_request c r e w : request (afterError c r e w) = request c.
Proof. unfold afterError. destruct (retryable e r); reflexivity. Qed.

Ltac no_write :=
  split; [first [reflexivity | apply afterError_request] |];
  left; split; [reflexivity |];
  left; first [apply afterError_settled | intros ? ?; simpl; discriminate].

Lemma stepClient_cases (s : Store) (c : Client) :
  request (snd (stepClient s c)) = request c /\
  ((fst (stepClient s c) = s /\
    (settled (snd (stepClient s c)) \/
     exists r snapshot,
       phase (snd (stepClient s c)) = InTransaction r snapshot /\
       (phase c = InTransaction r snapshot \/
        (tripInstances s !! clientId c = Some snapshot /\
         clientSeats c <= availableSeats snapshot))))
   \/
   (exists r snapshot row ref,
      phase c = InTransaction r snapshot /\
      settled (snd (stepClient s c)) /\
      tripInstances s !! clientId c = Some row /\
      version row = version snapshot /\
      lookupBooking ref (bookings s) = None /\
      fst (stepClient s c) = commitOf c s row snapshot ref)).
Proof.
  unfold stepClient.
  destruct (phase c) as [[|r]|r snapshot|resp] eqn:Hphase.
  - simpl. split; [reflexivity |]. left. split; [reflexivity |].
    left. intros r ti. simpl. discriminate.
  - change ((emit OpBegin ;;; checkAvailability (request c))%handler
              (attach s (local c)))
      with (checkAvailability (request c) (logged OpBegin (attach s (local c)))).
    rewrite checkAvailability_run. simpl.
    fold (clientId c). fold (clientSeats c).
    destruct (tripInstances s !! clientId c) as [ti|] eqn:Hrow; simpl.
    2:{ no_write. }
    destruct (negb (String.eqb (status ti) "active")); simpl.
    { no_write. }
    destruct (Z.ltb_spec (availableSeats ti) (clientSeats c)); simpl.
    { no_write. }
    split; [reflexivity |]. left. split; [reflexivity |].
    right. exists (S r), ti. split; [reflexivity |]. right. split; [reflexivity | lia].
  - pose proof (reserveAndCreate_run (clientEnv c) (request c) snapshot
                  (attach s (local c))) as Hrun.
    simpl in Hrun. fold (clientId c) in Hrun.
    destruct (tripInstances s !! clientId c) as [row|] eqn:Hrow.
    2:{ unfold conflictOutcome in Hrun. rewrite Hrun. simpl.
        no_write. }
    destruct (Z.eqb_spec (version row) (version snapshot)) as [Hv|Hv].
    2:{ unfold conflictOutcome in Hrun. rewrite Hrun. simpl.
        no_write. }
    destruct Hrun as (ref & pos' & lookups & _ & _ & _ & Hrun).
    rewrite Hrun.
    destruct (lookupBooking ref (bookings s)) eqn:Hfree; simpl.
    { no_write. }
    split; [reflexivity |]. right.
    exists r, snapshot, row, ref. repeat split; try assumption.
    intros r' ti'. simpl. discriminate.
  - simpl. split; [reflexivity |]. left. split; [reflexivity |].
    left. intros r ti. rewrite Hphase. discriminate.
Qed.

(** ** C1: the capacity invariant *)

Lemma confirmedSeats_app (id : string) (bs : list Booking) (b : Booking) :
  confirmedSeats id (bs ++ [b])
  = confirmedSeats id bs
    + (if String.eqb (tripInstanceId b) id
          && String.eqb (bookingStatus b) "confirmed"
       then Z.of_nat (length (passengers b)) else 0).
Proof.
  induction bs as [|b' bs IH]; simpl.
  - destruct (_ && _); lia.
  - rewrite IH. destruct (String.eqb (tripInstanceId b') id && _); lia.
Qed.

Lemma confirmedSeats_nonneg (id : string) (bs : list Booking) :
  0 <= confirmedSeats id bs.
Proof.
  induction bs as [|b bs IH]; simpl; [lia |].
  destruct (_ && _); lia.
Qed.

Lemma confirmedSeats_newBooking (id : string) (bs : list Booking)
    (d : BookingRequest) (snapshot : TripInstance) (ref : string) :
  confirmedSeats id (bs ++ [newBooking d snapshot ref])
  = confirmedSeats id bs
    + (if String.eqb (req_tripInstanceId d) id then passengerCount d else 0).
Proof.
  rewrite confirmedSeats_app. simpl. unfold passengerCount.
  rewrite length_map.
  destruct (String.eqb (req_tripInstanceId d) id); reflexivity.
Qed.

Lemma commitOf_consistent (c : Client) (s : Store)
    (row snapshot : TripInstance) (ref : string) :
  consistent s ->
  tripInstances s !! clientId c = Some row ->
  availableSeats snapshot = availableSeats row ->
  clientSeats c <= availableSeats snapshot ->
  consistent (commitOf c s row snapshot ref).
Proof.
  intros Hcons Hrow Hseats Hn id row' Hlook.
  unfold commitOf, clientId, clientSeats in *; simpl in *.
  rewrite confirmedSeats_newBooking.
  destruct (decide (req_tripInstanceId (request c) = id)) as [<-|Hne].
  - rewrite lookup_insert_eq in Hlook. injection Hlook as <-.
    rewrite String.eqb_refl. simpl.
    destruct (Hcons _ _ Hrow) as [H0 Hcap]. lia.
  - rewrite lookup_insert_ne in Hlook by exact Hne.
    destruct (String.eqb_spec (req_tripInstanceId (request c)) id)
      as [Heq|_]; [contradiction |].
    destruct (Hcons _ _ Hlook) as [H0 Hcap]. lia.
Qed.

Lemma commitOf_snapshotOk (c c2 : Client) (s : Store)
    (row snapshot : TripInstance) (ref : string) :
  tripInstances s !! clientId c = Some row ->
  version row = version snapshot ->
  snapshotOk s c2 ->
  snapshotOk (commitOf c s row snapshot ref) c2.
Proof.
  intros Hrow Hv Hok r2 snap2 Hphase.
  destruct (Hok r2 snap2 Hphase) as (Hn & row2 & Hrow2 & Hle & Heq).
  split; [exact Hn |].
  unfold commitOf; simpl.
  destruct (decide (clientId c = clientId c2)) as [Hid|Hne].
  - rewrite <- Hid in *. rewrite lookup_insert_eq.
    assert (row2 = row) by congruence. subst row2.
    eexists; split; [reflexivity |]. simpl. split; lia.
  - rewrite lookup_insert_ne by exact Hne.
    exists row2. auto.
Qed.

Lemma invariant_stepAt (i : nat) (σ : System) :
  invariant σ -> invariant (stepAt i σ).
Proof.
  intros [Hcons Hall]. unfold stepAt.
  destruct (clients σ !! i) as [c|] eqn:Hc; [| split; assumption].
  pose proof (stepClient_cases (db σ) c) as [Hreq Hcases].
  pose proof (Forall_lookup_1 _ _ _ _ Hall Hc) as Hok.
  destruct (stepClient (db σ) c) as [s' c'] eqn:Hstep. simpl in *.
  assert (Hid : clientId c' = clientId c) by (unfold clientId; now rewrite Hreq).
  assert (Hseats : clientSeats c' = clientSeats c)
    by (unfold clientSeats; now rewrite Hreq).
  destruct Hcases as [[-> Hc'] | (r & snapshot & row & ref & Hphase & Hset
                                   & Hrow & Hv & _ & ->)].
  - split; [exact Hcons |]. simpl.
    apply Forall_insert; [exact Hall |].
    destruct Hc' as [Hset | (r & snapshot & Hphase' & Hfrom)].
    + intros r snap Hp. destruct (Hset r snap Hp).
    + intros r' snap' Hp. rewrite Hphase' in Hp. injection Hp as <- <-.
      rewrite Hid, Hseats.
      destruct Hfrom as [Hold | [Hrow Hn]].
      * exact (Hok r snapshot Hold).
      * split; [exact Hn |]. exists snapshot. split; [exact Hrow |]. lia.
  - destruct (Hok r snapshot Hphase) as (Hn & row0 & Hrow0 & Hle & Heq).
    assert (row0 = row) by congruence. subst row0.
    split; simpl.
    + apply commitOf_consistent; auto.
    + apply Forall_insert.
      * eapply Forall_impl; [exact Hall |].
        intros c2 Hc2. apply commitOf_snapshotOk; assumption.
      * intros r' snap' Hp. destruct (Hset r' snap' Hp).
Qed.

Lemma invariant_run (schedule : list nat) :
  forall σ, invariant σ -> invariant (run schedule σ).
Proof.
  induction schedule as [|i schedule IH]; intros σ Hinv; simpl.
  - exact Hinv.
  - apply IH, invariant_stepAt, Hinv.
Qed.

(** A step leaves every row in place, and changes a row only together with
    an increment of its version. *)
Lemma stepAt_version (i : nat) (σ : System) (id : string) (row : TripInstance) :
  tripInstances (db σ) !! id = Some row ->
  exists row', tripInstances (db (stepAt i σ)) !! id = Some row' /\
               (row' = row \/ version row' = version row + 1).
Proof.
  intros Hrow. unfold stepAt.
  destruct (clients σ !! i) as [c|] eqn:Hc; [| eauto].
  pose proof (stepClient_cases (db σ) c) as [_ Hcases].
  destruct (stepClient (db σ) c) as [s' c'] eqn:Hstep. simpl in *.
  destruct Hcases as [[-> _] | (r & snapshot & row0 & ref & _ & _
                                 & Hrow0 & Hv & _ & ->)]; [eauto |].
  unfold commitOf; simpl.
  destruct (decide (clientId c = id)) as [<-|Hne].
  - rewrite lookup_insert_eq. eexists; split; [reflexivity |].
    right. simpl. assert (row0 = row) by congruence. subst. lia.
  - rewrite lookup_insert_ne by exact Hne. eauto.
Qed.

(** The stores the invariant starts from: a trip instance as the seed
    script creates it, not yet booked, is consistent with the capacity of
    its trip (the seeded trips have capacity 55). *)
Lemma seedTripInstance_consistent (id : string) (t : Trip) (r : Q) :
  (0 <= r)%Q -> (r < 1)%Q -> 9 <= capacity t ->
  consistent (mkStore {[ id := seedTripInstance t r ]} []).
Proof.
  intros H0 H1 Hcap id' row Hrow.
  assert (Hr : 0 <= Qfloor (r * inject_Z 10) < 10).
  { split.
    - change 0 with (Qfloor 0). apply Qfloor_resp_le.
      apply Qmult_le_0_compat; [exact H0 | discriminate].
    - rewrite Zlt_Qlt. eapply Qle_lt_trans; [apply Qfloor_le |].
      eapply Qlt_le_trans;
        [apply Qmult_lt_compat_r; [reflexivity | exact H1] |].
      rewrite Qmult_1_l. apply Qle_refl. }
  unfold seedTripInstance in Hrow.
  set (reduction := Qfloor (r * inject_Z 10)) in *.
  cbn [tripInstances] in Hrow.
  apply lookup_singleton_Some in Hrow as [<- <-].
  cbn [availableSeats trip bookings confirmedSeats foldr]. lia.
Qed.

(** C1: for every store in which each trip instance is consistent with its
    capacity, every set of requests entering the handler and every
    interleaving of their steps, at every moment each trip instance has
    [0 <= availableSeats <= capacity], the passengers of its confirmed
    bookings number at most [capacity], and a step that changes a row
    strictly increases its version. *)
Theorem capacity_invariant (σ0 : System) (schedule : list nat) :
  consistent (db σ0) ->
  Forall settled (clients σ0) ->
  let σ := run schedule σ0 in
  (forall id row, tripInstances (db σ) !! id = Some row ->
     0 <= availableSeats row <= capacity (trip row) /\
     confirmedSeats id (bookings (db σ)) <= capacity (trip row)) /\
  (forall i id row, tripInstances (db σ) !! id = Some row ->
     exists row', tripInstances (db (stepAt i σ)) !! id = Some row' /\
                  (row' = row \/ version row < version row')).
Proof.
  intros Hcons Hset σ.
  assert (Hinv : invariant σ).
  { apply invariant_run. split; [exact Hcons |].
    eapply Forall_impl; [exact Hset |].
    intros c Hc r snap Hp. destruct (Hc r snap Hp). }
  split.
  - intros id row Hrow. destruct Hinv as [Hc _].
    destruct (Hc id row Hrow) as [H0 Hcap].
    pose proof (confirmedSeats_nonneg id (bookings (db σ))). lia.
  - intros i id row Hrow.
    destruct (stepAt_version i σ id row Hrow) as (row' & Hrow' & Hch).
    exists row'. split; [exact Hrow' |].
    destruct Hch as [->|Hv]; [left; reflexivity | right; lia].
Qed.

Lemma capacity_invariant_witness :
  let σ := run [0; 1; 1; 0; 0; 0]%nat
             (mkSystem smallDeparture
                [newClient (quietEnv 0) partyOfTwo;
                 newClient (quietEnv 1) single]) in
  (forall id row, tripInstances (db σ) !! id = Some row ->
     0 <= availableSeats row <= capacity (trip row) /\
     confirmedSeats id (bookings (db σ)) <= capacity (trip row)) /\
  (forall i id row, tripInstances (db σ) !! id = Some row ->
     exists row', tripInstances (db (stepAt i σ)) !! id = Some row' /\
                  (row' = row \/ version row < version row')).
Proof.
  apply (capacity_invariant
           (mkSystem smallDeparture
              [newClient (quietEnv 0) partyOfTwo;
               newClient (quietEnv 1) single])
           [0; 1; 1; 0; 0; 0]%nat).
  - intros id row H. simpl in H.
    apply lookup_singleton_Some in H as [<- <-]. simpl. lia.
  - repeat constructor; intros r ti; discriminate.
Defined.

(** The race of the design notes: capacity 2, 2 seats available, version
    0; one request asks for 2 seats and one for 1. Whoever commits first
    books; the other is refused for lack of seats, after a conflict when it
    had read the row before the winner committed. *)
Example race_party_first :
  let σ := run [0; 0; 1; 1]%nat
             (mkSystem smallDeparture
                [newClient (quietEnv 0) partyOfTwo;
                 newClient (quietEnv 1) single]) in
  (availableSeats <$> (tripInstances (db σ) !! "dep1"),
   version <$> (tripInstances (db σ) !! "dep1"),
   map (fun c => match phase c with
                 | Responded r => error r
                 | _ => Some "pending"
                 end) (clients σ))
  = (Some 0, Some 1, [None; Some "Only 0 seats available"]).
Proof. vm_compute. reflexivity. Qed.

Example race_single_first :
  let σ := run [0; 1; 1; 0; 0; 0]%nat
             (mkSystem smallDeparture
                [newClient (quietEnv 0) partyOfTwo;
                 newClient (quietEnv 1) single]) in
  (availableSeats <$> (tripInstances (db σ) !! "dep1"),
   version <$> (tripInstances (db σ) !! "dep1"),
   map (fun c => match phase c with
                 | Responded r => error r
                 | _ => Some "pending"
                 end) (clients σ),
   map (fun c => attemptsIn (log (local c))) (clients σ))
  = (Some 1, Some 1, [Some "Only 1 seats available"; None], [2%nat; 1%nat]).
Proof. vm_compute. reflexivity. Qed.

(** ** Requests as the other writers *)

Lemma run_rows (schedule : list nat) :
  forall σ id row, tripInstances (db σ) !! id = Some row ->
    exists row', tripInstances (db (run schedule σ)) !! id = Some row' /\
                 (row' = row \/ version row < version row').
Proof.
  induction schedule as [|i schedule IH]; intros σ id row Hrow; simpl.
  - eauto.
  - destruct (stepAt_version i σ id row Hrow) as (r1 & H1 & Hc1).
    destruct (IH _ _ _ H1) as (r2 & H2 & Hc2).
    exists r2. split; [exact H2 |].
    destruct Hc1 as [->|Hc1], Hc2 as [->|Hc2]; auto; right; lia.
Qed.

(** Whatever a set of requests running the handler commits, under any
    schedule, follows the optimistic-locking discipline. *)
Lemma system_versioned (schedule : list nat) (cs : list Client) :
  versioned (fun s => db (run schedule (mkSystem s cs))).
Proof.
  intros s id row row' Hrow Hrow' Hv.
  destruct (run_rows schedule (mkSystem s cs) id row Hrow) as (r2 & H2 & Hc).
  simpl in *. rewrite Hrow' in H2. injection H2 as <-.
  destruct Hc as [->|Hlt]; [reflexivity | lia].
Qed.

(** ** One attempt and the retry loop, unfolded *)

Lemma attempt_run (env : Env) (d : BookingRequest) (w : World) :
  dollar_transaction (bookingTx env d) w =
  match checkAvailability d (logged OpBegin w) with
  | (inl e, w1) => (inl e, rolledBack w1)
  | (inr snapshot, w1) =>
      match reserveAndCreate env d snapshot (yielded env w1) with
      | (inr booking, w2) => (inr booking, committedWorld w2)
      | (inl e, w2) => (inl e, rolledBack w2)
      end
  end.
Proof.
  unfold dollar_transaction, bookingTx.
  change ((emit OpBegin ;;;
           (let* tripInstance := checkAvailability d
            in yield env ;;; reserveAndCreate env d tripInstance))%handler w)
    with (match checkAvailability d (logged OpBegin w) with
          | (inr ti, w1) => reserveAndCreate env d ti (yielded env w1)
          | (inl e, w1) => (inl e, w1)
          end).
  destruct (checkAvailability d (logged OpBegin w)) as [[e|ti] w1];
    [reflexivity |].
  destruct (reserveAndCreate env d ti (yielded env w1)) as [[e|b] w2];
    reflexivity.
Qed.

Lemma retryLoop_unfold (env : Env) (d : BookingRequest) (r : nat) (w : World) :
  retryLoop env d (S r) w =
  match dollar_transaction (bookingTx env d) w with
  | (inr booking, w') => (inr (Some booking), w')
  | (inl e, w') =>
      if retryable e (S r)
      then retryLoop env d r (yielded env (logged (OpSetTimeout 100) w'))
      else (inl e, w')
  end.
Proof.
  simpl retryLoop. unfold catch, bind, ret.
  destruct (dollar_transaction (bookingTx env d) w) as [[e|b] w'];
    [| reflexivity].
  destruct (retryable e (S r)); reflexivity.
Qed.

Lemma checkAvailability_availability (d : BookingRequest) (w : World) :
  checkAvailability d w
  = (availability d (working w),
     logged (OpFindUniqueTripInstance (req_tripInstanceId d)) w).
Proof.
  rewrite checkAvailability_run. unfold availability. simpl.
  destruct (tripInstances (working w) !! req_tripInstanceId d) as [ti|];
    [| reflexivity].
  destruct (negb (String.eqb (status ti) "active")); [reflexivity |].
  destruct (availableSeats ti <? passengerCount d); reflexivity.
Qed.

Lemma attempt_outcome (env : Env) (d : BookingRequest) (w : World) :
  AttemptOutcome env d w (dollar_transaction (bookingTx env d) w).
Proof.
  rewrite attempt_run, checkAvailability_availability.
  change (logged (OpFindUniqueTripInstance (req_tripInstanceId d))
            (logged OpBegin w)) with (afterRead d w).
  change (working (logged OpBegin w)) with (working w).
  destruct (availability d (working w)) as [e|snapshot] eqn:Hav.
  { apply ReadFails. exact Hav. }
  fold (atWrite env d w).
  pose proof (reserveAndCreate_run env d snapshot (atWrite env d w)) as Hrun.
  cbv zeta in Hrun.
  destruct (tripInstances (working (atWrite env d w)) !! req_tripInstanceId d)
    as [row|] eqn:Hrow.
  2:{ unfold conflictOutcome in Hrun. rewrite Hrun.
      apply Conflict; [exact Hav | intros row' Hrow'; rewrite Hrow in Hrow'; discriminate]. }
  destruct (Z.eqb_spec (version row) (version snapshot)) as [Hv|Hv].
  2:{ unfold conflictOutcome in Hrun. rewrite Hrun.
      apply Conflict; [exact Hav |].
      intros row' Hrow'. rewrite Hrow in Hrow'. injection Hrow' as <-.
      exact Hv. }
  destruct Hrun as (ref & pos' & lookups & Hall & Hlen & Hfree & Hrun).
  rewrite Hrun.
  destruct (lookupBooking ref (bookings (working (atWrite env d w))))
    as [b|] eqn:Hused.
  - eapply (ReferenceTaken env d w snapshot row ref pos' lookups); eauto.
    rewrite Hused; discriminate.
  - eapply (Booked env d w snapshot row ref pos' lookups); eauto.
Qed.

(** A failed attempt leaves in the committed store what the other requests
    committed while it was suspended, and nothing else. *)
Lemma failed_attempt_store (env : Env) (d : BookingRequest) (w : World)
    (e : Exn) (w' : World) :
  dollar_transaction (bookingTx env d) w = (inl e, w') ->
  exists k, yields w' = (yields w + k)%nat /\
            committed w' = interference env (yields w) k (committed w) /\
            working w' = committed w'.
Proof.
  intros Hrun. pose proof (attempt_outcome env d w) as Hout.
  rewrite Hrun in Hout. inversion Hout; subst.
  - exists 0%nat. simpl. rewrite Nat.add_0_r. auto.
  - exists 1%nat. simpl. rewrite Nat.add_1_r. auto.
  - exists 1%nat. simpl. rewrite Nat.add_1_r. auto.
Qed.

(** ** The concurrent system and the handler

    Whatever a request is answered in the concurrent system, under any
    schedule, the handler run on its own answers too, in an environment
    whose other writers commit what the other requests of the system
    committed while the request was suspended. *)

Lemma reserveAndCreate_ext (env1 env2 : Env) (d : BookingRequest)
    (snapshot : TripInstance) (w : World) :
  random env1 = random env2 -> late env1 = late env2 ->
  reserveAndCreate env1 d snapshot w = reserveAndCreate env2 d snapshot w.
Proof.
  intros Hr Hl. unfold reserveAndCreate, bind.
  destruct (tripInstance_updateMany _ _ _ _ w) as [[e|n] w1]; [reflexivity |].
  destruct (n =? 0); [reflexivity |].
  unfold generateBookingRefM. rewrite Hr.
  rewrite (uniqueRefLoop_ext env1 env2 Hr Hl). reflexivity.
Qed.

Lemma yielded_ext (env1 env2 : Env) (w : World) :
  (forall s, others env1 (yields w) s = others env2 (yields w) s) ->
  yielded env1 w = yielded env2 w.
Proof. intros H. unfold yielded. now rewrite !H. Qed.

Lemma attempt_ext (env1 env2 : Env) (d : BookingRequest) (w : World) :
  random env1 = random env2 -> late env1 = late env2 ->
  (forall s, others env1 (yields w) s = others env2 (yields w) s) ->
  dollar_transaction (bookingTx env1 d) w
  = dollar_transaction (bookingTx env2 d) w.
Proof.
  intros Hr Hl Ho. rewrite !attempt_run, checkAvailability_availability.
  destruct (availability d (working (logged OpBegin w))) as [e|snapshot];
    [reflexivity |].
  rewrite (yielded_ext env1 env2) by exact Ho.
  rewrite (reserveAndCreate_ext env1 env2) by assumption. reflexivity.
Qed.

Lemma retryLoop_ext (env1 env2 : Env) (d : BookingRequest) :
  random env1 = random env2 -> late env1 = late env2 ->
  forall r w,
    (forall n s, (yields w <= n)%nat -> others env1 n s = others env2 n s) ->
    retryLoop env1 d r w = retryLoop env2 d r w.
Proof.
  intros Hr Hl r. induction r as [|r IH]; intros w Ho; [reflexivity |].
  rewrite !retryLoop_unfold.
  rewrite (attempt_ext env1 env2 d w Hr Hl) by (intros s; apply Ho; lia).
  destruct (dollar_transaction (bookingTx env2 d) w) as [[e|b] w'] eqn:Hrun;
    [| reflexivity].
  destruct (retryable e (S r)); [| reflexivity].
  destruct (failed_attempt_store env2 d w e w' Hrun) as (k & Hy & _).
  rewrite (yielded_ext env1 env2) by (intros s; apply Ho; simpl; lia).
  apply IH. intros n s Hn. apply Ho. simpl in Hn. lia.
Qed.

Lemma reserveAndCreate_yields (env : Env) (d : BookingRequest)
    (snapshot : TripInstance) (w : World) :
  yields (snd (reserveAndCreate env d snapshot w)) = yields w.
Proof.
  pose proof (reserveAndCreate_run env d snapshot w) as Hrun. cbv zeta in Hrun.
  unfold conflictOutcome in Hrun.
  destruct (tripInstances (working w) !! req_tripInstanceId d) as [row|];
    [| now rewrite Hrun].
  destruct (version row =? version snapshot); [| now rewrite Hrun].
  destruct Hrun as (ref & pos' & lookups & _ & _ & _ & ->).
  destruct (lookupBooking ref (bookings (working w))); reflexivity.
Qed.

Lemma finishAttempt_ext (env1 env2 : Env) (d : BookingRequest) (r : nat)
    (snapshot : TripInstance) (w : World) :
  random env1 = random env2 -> late env1 = late env2 ->
  (forall n s, (yields w <= n)%nat -> others env1 n s = others env2 n s) ->
  finishAttempt env1 d r snapshot w = finishAttempt env2 d r snapshot w.
Proof.
  intros Hr Hl Ho. unfold finishAttempt.
  rewrite (reserveAndCreate_ext env1 env2) by assumption.
  pose proof (reserveAndCreate_yields env2 d snapshot w) as Hy.
  destruct (reserveAndCreate env2 d snapshot w) as [[e|b] w']; [| reflexivity].
  simpl in Hy.
  destruct (retryable e r); [| reflexivity].
  rewrite (yielded_ext env1 env2) by (intros s; apply Ho; simpl; lia).
  apply retryLoop_ext; [exact Hr | exact Hl |].
  intros n s Hn. apply Ho. simpl in Hn. lia.
Qed.

(** The loop of the handler is an attempt that resumes at its conditional
    write. *)
Lemma retryLoop_finishAttempt (env : Env) (d : BookingRequest) (r : nat)
    (w : World) :
  retryLoop env d (S r) w =
  match availability d (working w) with
  | inl e =>
      if retryable e (S r)
      then retryLoop env d r
             (yielded env (logged (OpSetTimeout 100)
                             (rolledBack (afterRead d w))))
      else (inl e, rolledBack (afterRead d w))
  | inr snapshot =>
      finishAttempt env d (S r) snapshot (yielded env (afterRead d w))
  end.
Proof.
  rewrite retryLoop_unfold, attempt_run, checkAvailability_availability.
  change (working (logged OpBegin w)) with (working w).
  fold (afterRead d w).
  destruct (availability d (working w)) as [e|snapshot]; [reflexivity |].
  unfold finishAttempt.
  destruct (reserveAndCreate env d snapshot (yielded env (afterRead d w)))
    as [[e|b] w']; reflexivity.
Qed.

Lemma yielded_leaving (env : Env) (os : nat -> Store -> Store) (s' : Store)
    (k : nat) (w : World) :
  yields w = k ->
  yielded (withOthers env (leaving k s' os)) w = attach s' (suspended w).
Proof.
  intros <-. unfold yielded, withOthers, leaving, attach, suspended. simpl.
  rewrite Nat.eqb_refl. reflexivity.
Qed.

Lemma leaving_above (env : Env) (os : nat -> Store -> Store) (s' : Store)
    (k n : nat) (s : Store) :
  (k < n)%nat ->
  others (withOthers env (leaving k s' os)) n s = others (withOthers env os) n s.
Proof.
  intros Hn. unfold withOthers, leaving. simpl.
  destruct (Nat.eqb_spec n k); [lia | reflexivity].
Qed.

Lemma stepClient_env (s : Store) (c : Client) :
  clientEnv (snd (stepClient s c)) = clientEnv c.
Proof.
  unfold stepClient, afterError.
  destruct (phase c) as [[|r]|r snapshot|resp]; try reflexivity.
  - destruct ((emit OpBegin ;;; checkAvailability (request c))%handler
                (attach s (local c))) as [[e|ti] w]; [| reflexivity].
    simpl. destruct (retryable e (S r)); reflexivity.
  - destruct (reserveAndCreate (clientEnv c) (request c) snapshot
                (attach s (local c))) as [[e|b] w]; [| reflexivity].
    simpl. destruct (retryable e r); reflexivity.
Qed.

(** One step of a request, seen from the handler: the handler resumed now
    completes as the handler resumed after the step does, once the other
    writers leave at this suspension the store the request will resume
    on. *)
Lemma step_completion (c : Client) (s s' : Store)
    (os1 : nat -> Store -> Store) :
  exists os,
    completion (withOthers (clientEnv c) os) c s
    = completion (withOthers (clientEnv c) os1) (snd (stepClient s c)) s'.
Proof.
  exists (leaving (yields (local c)) s' os1).
  unfold completion, stepClient.
  destruct (phase c) as [[|r]|r snapshot|resp] eqn:Hp.
  - reflexivity.
  - rewrite retryLoop_finishAttempt.
    change ((emit OpBegin ;;; checkAvailability (request c))%handler
              (attach s (local c)))
      with (checkAvailability (request c)
              (logged OpBegin (attach s (local c)))).
    rewrite checkAvailability_availability.
    change (working (logged OpBegin (attach s (local c)))) with s.
    change (working (attach s (local c))) with s.
    fold (afterRead (request c) (attach s (local c))).
    destruct (availability (request c) s) as [e|ti].
    + simpl snd. unfold afterError.
      destruct (retryable e (S r)); simpl; [| reflexivity].
      rewrite yielded_leaving by reflexivity. f_equal.
      apply retryLoop_ext; [reflexivity | reflexivity |].
      intros n x Hn. apply leaving_above. simpl in Hn. lia.
    + simpl. rewrite yielded_leaving by reflexivity. f_equal.
      apply finishAttempt_ext; [reflexivity | reflexivity |].
      intros n x Hn. apply leaving_above. simpl in Hn. lia.
  - unfold finishAttempt.
    rewrite (reserveAndCreate_ext _ (clientEnv c)) by reflexivity.
    pose proof (reserveAndCreate_yields (clientEnv c) (request c) snapshot
                  (attach s (local c))) as Hy.
    destruct (reserveAndCreate (clientEnv c) (request c) snapshot
                (attach s (local c))) as [[e|b] w2]; [| reflexivity].
    simpl in Hy. simpl snd. unfold afterError.
    destruct (retryable e r); simpl; [| reflexivity].
    rewrite yielded_leaving by exact Hy. f_equal.
    apply retryLoop_ext; [reflexivity | reflexivity |].
    intros n x Hn. apply leaving_above. simpl in Hn. lia.
  - simpl. rewrite Hp. reflexivity.
Qed.

Lemma stepAt_other (i j : nat) (σ : System) :
  j <> i -> clients (stepAt j σ) !! i = clients σ !! i.
Proof.
  intros Hne. unfold stepAt.
  destruct (clients σ !! j) as [c|]; [| reflexivity].
  destruct (stepClient (db σ) c) as [s c']. simpl.
  now apply list_lookup_insert_ne.
Qed.

Lemma stepAt_self (i : nat) (σ : System) (c : Client) :
  clients σ !! i = Some c ->
  clients (stepAt i σ) !! i = Some (snd (stepClient (db σ) c)).
Proof.
  intros Hc. unfold stepAt. rewrite Hc.
  destruct (stepClient (db σ) c) as [s c']. simpl.
  apply list_lookup_insert_eq. eapply lookup_lt_Some, Hc.
Qed.

(** Every answer a request gets in the concurrent system is an answer of
    the handler run on its own under some other writers, with the same
    statements, draws and suspensions. *)
Theorem handler_simulation (i : nat) (schedule : list nat) :
  forall σ c cfin resp,
    clients σ !! i = Some c ->
    clients (run schedule σ) !! i = Some cfin ->
    phase cfin = Responded resp ->
    exists os,
      completion (withOthers (clientEnv c) os) c
        (db (resumeAt i schedule σ))
      = (resp, local cfin).
Proof.
  induction schedule as [|j schedule IH]; intros σ c cfin resp Hc Hfin Hresp.
  - simpl in *. exists quiet. unfold completion.
    assert (cfin = c) by congruence. subst cfin. now rewrite Hresp.
  - simpl in Hfin. simpl resumeAt.
    destruct (Nat.eqb_spec j i) as [->|Hne].
    + pose proof (stepAt_self i σ c Hc) as Hc1.
      destruct (IH _ _ _ _ Hc1 Hfin Hresp) as (os1 & H1).
      rewrite stepClient_env in H1.
      destruct (step_completion c (db σ)
                  (db (resumeAt i schedule (stepAt i σ))) os1) as (os & H).
      exists os. now rewrite H.
    + apply (IH (stepAt j σ) c cfin resp); [| exact Hfin | exact Hresp].
      now rewrite stepAt_other.
Qed.

Lemma book_respond (env : Env) (d : BookingRequest) (w : World) :
  book env d w = respond (retryLoop env d 3 w).
Proof.
  unfold book, respond.
  destruct (retryLoop env d 3 w) as [[e|[b|]] w']; reflexivity.
Qed.

(** In particular for a request that enters the system at its loop. *)
Corollary request_is_handler_run (i : nat) (schedule : list nat) (σ : System)
    (env : Env) (d : BookingRequest) (cfin : Client) (resp : Response) :
  clients σ !! i = Some (newClient env d) ->
  clients (run schedule σ) !! i = Some cfin ->
  phase cfin = Responded resp ->
  exists os,
    book (withOthers env os) d (initWorld (db (resumeAt i schedule σ)))
    = (resp, local cfin).
Proof.
  intros Hc Hfin Hresp.
  destruct (handler_simulation i schedule σ _ cfin resp Hc Hfin Hresp)
    as (os & H).
  exists os. rewrite book_respond. exact H.
Qed.

(** ** C2: the single attempt *)

Lemma atWrite_working (env : Env) (d : BookingRequest) (w : World) :
  working (atWrite env d w) = others env (yields w) (working w).
Proof. reflexivity. Qed.

(** C2: with other writers that change a row only together with its
    version, one attempt for [d] fails with 'Trip not found' when the trip
    instance does not exist, with 'Trip is no longer available' when its
    status is not 'active', with 'Only k seats available' when it has
    fewer seats than passengers; otherwise it issues the conditional
    write, which, when the stored version is the version read, stores the
    stored [availableSeats] less [passengerCount] and the stored [version]
    plus 1 (one record affected) and does not end in
    CONCURRENT_MODIFICATION, and which otherwise affects no record and ends
    in CONCURRENT_MODIFICATION. *)
Theorem single_attempt (env : Env) (d : BookingRequest) (w : World) :
  versioned (others env (yields w)) ->
  let id := req_tripInstanceId d in
  let n := passengerCount d in
  let result := dollar_transaction (bookingTx env d) w in
  let conflict snapshot :=
    fst result = inl (Error CONCURRENT_MODIFICATION) /\
    log (snd result)
    = log w ++ [OpBegin; OpFindUniqueTripInstance id;
                OpUpdateManyTripInstance id (version snapshot)
                  (availableSeats snapshot - n) (version snapshot + 1) 0;
                OpRollback] in
  match tripInstances (working w) !! id with
  | None => fst result = inl (Error "Trip not found")
  | Some snapshot =>
      if negb (String.eqb (status snapshot) "active") then
        fst result = inl (Error "Trip is no longer available")
      else if availableSeats snapshot <? n then
        fst result = inl (Error ("Only " +:+ pretty (availableSeats snapshot)
                                   +:+ " seats available"))
      else
        match tripInstances (others env (yields w) (working w)) !! id with
        | Some row =>
            if version row =? version snapshot then
              fst result <> inl (Error CONCURRENT_MODIFICATION) /\
              (exists rest,
                 log (snd result)
                 = log w ++ [OpBegin; OpFindUniqueTripInstance id;
                             OpUpdateManyTripInstance id (version row)
                               (availableSeats row - n) (version row + 1) 1]
                     ++ rest) /\
              (forall booking, fst result = inr booking ->
                 tripInstances (committed (snd result)) !! id
                 = Some (mkTripInstance (trip row) (availableSeats row - n)
                           (version row + 1) (status row)))
            else conflict snapshot
        | None => conflict snapshot
        end
  end.
Proof.
  intros Hvers id n result conflict. subst id n conflict result.
  pose proof (attempt_outcome env d w) as Hout.
  destruct (dollar_transaction (bookingTx env d) w) as [res w'].
  simpl fst; simpl snd.
  assert (Hav : availability d (working w) = availability d (working w))
    by reflexivity.
  unfold availability in Hav at 2.
  destruct (tripInstances (working w) !! req_tripInstanceId d)
    as [snapshot|] eqn:Hread.
  2:{ inversion Hout; subst; congruence. }
  destruct (negb (String.eqb (status snapshot) "active")).
  { inversion Hout; subst; congruence. }
  destruct (availableSeats snapshot <? passengerCount d).
  { inversion Hout; subst; congruence. }
  rewrite <- (atWrite_working env d w).
  destruct (tripInstances (working (atWrite env d w)) !! req_tripInstanceId d)
    as [row|] eqn:Hrow.
  2:{ inversion Hout; subst; try congruence.
      assert (snapshot0 = snapshot) by congruence. subst snapshot0.
      split; [reflexivity |]. simpl. rewrite <- !app_assoc. reflexivity. }
  destruct (Z.eqb_spec (version row) (version snapshot)) as [Hv|Hv].
  2:{ inversion Hout; subst; try congruence;
        assert (snapshot0 = snapshot) by congruence; subst snapshot0;
        try congruence.
      split; [reflexivity |]. simpl. rewrite <- !app_assoc. reflexivity. }
  assert (Hsame : row = snapshot).
  { rewrite atWrite_working in Hrow. eapply Hvers; eauto. }
  subst row.
  inversion Hout; subst; try congruence;
    assert (snapshot0 = snapshot) by congruence; subst snapshot0.
  - exfalso. match goal with H : forall _, _ -> _ <> _ |- _ =>
               eapply H; [exact Hrow | reflexivity] end.
  - split; [discriminate |]. split.
    + eexists. unfold rolledBack, afterCreate. simpl.
      rewrite <- !app_assoc. simpl. reflexivity.
    + intros b Hb. discriminate.
  - split; [discriminate |]. split.
    + eexists. unfold committedWorld, afterCreate. simpl.
      rewrite <- !app_assoc. simpl. reflexivity.
    + intros b _. simpl. rewrite lookup_insert_eq.
      assert (row = snapshot) by congruence. subst row.
      reflexivity.
Qed.


Lemma single_attempt_witness :
  versioned (others contendedEnv 0) /\
  (let result := dollar_transaction (bookingTx contendedEnv partyOfTwo)
                   (initWorld smallDeparture) in
   fst result = inl (Error CONCURRENT_MODIFICATION) /\
   log (snd result)
   = [OpBegin; OpFindUniqueTripInstance "dep1";
      OpUpdateManyTripInstance "dep1" 0 0 1 0; OpRollback]).
Proof.
  split.
  - exact (system_versioned [0; 0]%nat [newClient (quietEnv 1) single]).
  - exact (single_attempt contendedEnv partyOfTwo (initWorld smallDeparture)
             (system_versioned [0; 0]%nat [newClient (quietEnv 1) single])).
Defined.

(** ** C3: the retry policy *)

Lemma attemptsIn_app (a b : list Op) :
  attemptsIn (a ++ b) = (attemptsIn a + attemptsIn b)%nat.
Proof.
  induction a as [|op a IH]; [reflexivity |].
  destruct op; simpl; rewrite IH; reflexivity.
Qed.

Lemma delaysIn_app (a b : list Op) :
  delaysIn (a ++ b) = delaysIn a ++ delaysIn b.
Proof.
  induction a as [|op a IH]; [reflexivity |].
  destruct op; simpl; rewrite IH; reflexivity.
Qed.

Lemma lookups_quiet (lookups : list Op) :
  Forall isLookup lookups ->
  attemptsIn lookups = O /\ delaysIn lookups = [] /\
  Forall (fun op => isInventoryRead op = false) lookups /\
  beforeCreate lookups = lookups.
Proof.
  induction 1 as [|op lookups [ref ->] _ (IHa & IHd & IHr & IHb)]; simpl.
  - repeat split; constructor.
  - repeat split; auto. now rewrite IHb.
Qed.

(** Every attempt opens a transaction and reads the inventory row first;
    the rest of it neither opens a transaction nor sets a timer. *)
Lemma attempt_log (env : Env) (d : BookingRequest) (w : World) :
  exists ops,
    log (snd (dollar_transaction (bookingTx env d) w))
    = log w ++ OpBegin :: OpFindUniqueTripInstance (req_tripInstanceId d) :: ops
    /\ attemptsIn ops = O /\ delaysIn ops = [].
Proof.
  pose proof (attempt_outcome env d w) as Hout.
  destruct (dollar_transaction (bookingTx env d) w) as [res w'].
  inversion Hout; subst; simpl snd.
  - exists [OpRollback]. simpl. rewrite <- !app_assoc. auto.
  - eexists [_; OpRollback]. simpl. rewrite <- !app_assoc. simpl. auto.
  - destruct (lookups_quiet lookups) as (Ha & Hd & _); [assumption |].
    exists ([conditionalWrite d snapshot 1] ++ lookups
            ++ [OpCreateBooking ref; OpRollback]).
    simpl. rewrite <- !app_assoc. simpl. rewrite <- !app_assoc. simpl.
    rewrite attemptsIn_app, delaysIn_app, Ha, Hd. auto.
  - destruct (lookups_quiet lookups) as (Ha & Hd & _); [assumption |].
    exists ([conditionalWrite d snapshot 1] ++ lookups
            ++ [OpCreateBooking ref; OpCommit]).
    simpl. rewrite <- !app_assoc. simpl. rewrite <- !app_assoc. simpl.
    rewrite attemptsIn_app, delaysIn_app, Ha, Hd. auto.
Qed.

Lemma retryable_last (e : Exn) : retryable e 1 = false.
Proof. unfold retryable. simpl. apply andb_false_r. Qed.

Lemma retryable_conflict (e : Exn) (r : nat) :
  exnMessage e = CONCURRENT_MODIFICATION -> retryable e (S (S r)) = true.
Proof.
  intros He. unfold retryable. rewrite He, String.eqb_refl. simpl.
  apply Z.ltb_lt. lia.
Qed.

Lemma retryable_other (e : Exn) (r : nat) :
  exnMessage e <> CONCURRENT_MODIFICATION -> retryable e r = false.
Proof.
  intros He. unfold retryable.
  destruct (String.eqb_spec (exnMessage e) CONCURRENT_MODIFICATION);
    [contradiction | reflexivity].
Qed.

Lemma retryLoop_log (env : Env) (d : BookingRequest) (r : nat) :
  forall w, exists ops,
    log (snd (retryLoop env d (S r) w)) = log w ++ ops /\
    (1 <= attemptsIn ops <= S r)%nat /\
    delaysIn ops = repeat 100 (attemptsIn ops - 1).
Proof.
  induction r as [|r IH]; intros w; rewrite retryLoop_unfold;
    destruct (attempt_log env d w) as (ops & Hlog & Ha & Hd);
    destruct (dollar_transaction (bookingTx env d) w) as [[e|b] w'];
    simpl in Hlog.
  - rewrite retryable_last. eexists; split; [exact Hlog |].
    simpl. rewrite Ha, Hd. split; [lia | reflexivity].
  - eexists; split; [exact Hlog |].
    simpl. rewrite Ha, Hd. split; [lia | reflexivity].
  - destruct (retryable e (S (S r))).
    + destruct (IH (yielded env (logged (OpSetTimeout 100) w')))
        as (ops2 & Hlog2 & Ha2 & Hd2).
      rewrite Hlog2. simpl. rewrite Hlog.
      exists (OpBegin :: OpFindUniqueTripInstance (req_tripInstanceId d)
                :: ops ++ [OpSetTimeout 100] ++ ops2).
      split; [rewrite <- !app_assoc; reflexivity |].
      simpl. rewrite attemptsIn_app, delaysIn_app, Ha, Hd. simpl.
      rewrite Hd2. split; [lia |].
      destruct (attemptsIn ops2) as [|k]; [lia |].
      simpl. rewrite Nat.sub_0_r. reflexivity.
    + eexists; split; [exact Hlog |].
      simpl. rewrite Ha, Hd. split; [lia | reflexivity].
  - eexists; split; [exact Hlog |].
    simpl. rewrite Ha, Hd. split; [lia | reflexivity].
Qed.

Lemma book_world (env : Env) (d : BookingRequest) (w : World) :
  snd (book env d w) = snd (retryLoop env d 3 w).
Proof.
  unfold book. destruct (retryLoop env d 3 w) as [[e|[b|]] w']; reflexivity.
Qed.

(** C3: a successful attempt ends the loop; a failed attempt whose error is
    not CONCURRENT_MODIFICATION ends it with that error, whatever the
    number of retries left; a CONCURRENT_MODIFICATION with retries left is
    followed by a timer of 100 ms and then by the whole operation again,
    which starts with a read of the inventory row as it is stored then;
    the last allowed attempt is not retried; and in all the handler makes
    between 1 and 3 attempts, with one timer of 100 ms between consecutive
    ones, also when it runs among concurrent requests. *)
Theorem retry_policy (env : Env) (d : BookingRequest) :
  (forall r w booking w',
     dollar_transaction (bookingTx env d) w = (inr booking, w') ->
     retryLoop env d (S r) w = (inr (Some booking), w')) /\
  (forall r w e w',
     dollar_transaction (bookingTx env d) w = (inl e, w') ->
     exnMessage e <> CONCURRENT_MODIFICATION ->
     retryLoop env d (S r) w = (inl e, w')) /\
  (forall r w e w',
     dollar_transaction (bookingTx env d) w = (inl e, w') ->
     exnMessage e = CONCURRENT_MODIFICATION ->
     retryLoop env d (S (S r)) w
     = retryLoop env d (S r) (yielded env (logged (OpSetTimeout 100) w'))) /\
  (forall w e w',
     dollar_transaction (bookingTx env d) w = (inl e, w') ->
     retryLoop env d 1 w = (inl e, w')) /\
  (forall w, exists ops,
     log (snd (dollar_transaction (bookingTx env d) w))
     = log w ++ OpBegin
         :: OpFindUniqueTripInstance (req_tripInstanceId d) :: ops /\
     attemptsIn ops = O /\ delaysIn ops = []) /\
  (forall w, exists ops,
     log (snd (book env d w)) = log w ++ ops /\
     (1 <= attemptsIn ops <= 3)%nat /\
     delaysIn ops = repeat 100 (attemptsIn ops - 1)) /\
  (forall i schedule σ cfin resp,
     clients σ !! i = Some (newClient env d) ->
     clients (run schedule σ) !! i = Some cfin ->
     phase cfin = Responded resp ->
     (1 <= attemptsIn (log (local cfin)) <= 3)%nat /\
     delaysIn (log (local cfin))
     = repeat 100 (attemptsIn (log (local cfin)) - 1)).
Proof.
  split; [| split; [| split; [| split; [| split; [| split]]]]].
  - intros r w b w' H. rewrite retryLoop_unfold, H. reflexivity.
  - intros r w e w' H He. rewrite retryLoop_unfold, H.
    rewrite retryable_other by exact He. reflexivity.
  - intros r w e w' H He. rewrite retryLoop_unfold, H.
    rewrite retryable_conflict by exact He. reflexivity.
  - intros w e w' H. rewrite retryLoop_unfold, H, retryable_last.
    reflexivity.
  - intros w. apply attempt_log.
  - intros w. rewrite book_world. apply retryLoop_log.
  - intros i schedule σ cfin resp Hc Hfin Hresp.
    destruct (request_is_handler_run i schedule σ env d cfin resp
                Hc Hfin Hresp) as (os & Hbook).
    destruct (retryLoop_log (withOthers env os) d 2
                (initWorld (db (resumeAt i schedule σ))))
      as (ops & Hlog & Ha & Hd).
    rewrite <- book_world, Hbook in Hlog. simpl in Hlog.
    rewrite Hlog. split; assumption.
Qed.

Lemma retry_policy_witness :
  retryLoop contendedEnv single 3 (initWorld largeDeparture)
  = retryLoop contendedEnv single 2
      (yielded contendedEnv
         (logged (OpSetTimeout 100)
            (snd (dollar_transaction (bookingTx contendedEnv single)
                    (initWorld largeDeparture))))).
Proof.
  destruct (retry_policy contendedEnv single) as (_ & _ & Hretry & _).
  apply (Hretry 1%nat (initWorld largeDeparture)
           (Error CONCURRENT_MODIFICATION)).
  - vm_compute. reflexivity.
  - reflexivity.
Defined.

(** ** C4: what the caller sees when every attempt conflicts *)

Lemma retryLoop_some (env : Env) (d : BookingRequest) (r : nat) :
  forall w, fst (retryLoop env d (S r) w) <> inr None.
Proof.
  induction r as [|r IH]; intros w; rewrite retryLoop_unfold;
    destruct (dollar_transaction (bookingTx env d) w) as [[e|b] w'];
    try discriminate.
  - rewrite retryable_last. discriminate.
  - destruct (retryable e (S (S r))); [apply IH | discriminate].
Qed.

Lemma book_not_contention (env : Env) (d : BookingRequest) (w : World) :
  fst (book env d w) <> contentionResponse.
Proof.
  unfold book. pose proof (retryLoop_some env d 2 w) as Hsome.
  destruct (retryLoop env d 3 w) as [[e|[b|]] w']; simpl in *;
    try discriminate.
  congruence.
Qed.

(** C4 (the code at the failing input): when a competing request commits
    between the read and the conditional write of each of the three
    attempts, the handler answers 500 with the error text
    CONCURRENT_MODIFICATION and the type Error; and for no environment,
    request and store does it answer with the 409 response 'Unable to
    complete booking. Please try again.', since the loop never ends with
    [booking] still [null]; nor is a request among concurrent requests ever
    answered with it. *)
Theorem contention_surfaces_conflict :
  fst (book contendedEnv single (initWorld largeDeparture))
  = mkResponse 500 false (Some "CONCURRENT_MODIFICATION") None None
               (Some "Error") /\
  attemptsIn (log (snd (book contendedEnv single (initWorld largeDeparture))))
  = 3%nat /\
  (forall env d w,
     fst (retryLoop env d 3 w) = inl (Error CONCURRENT_MODIFICATION) ->
     fst (book env d w) = errorResponse (Error CONCURRENT_MODIFICATION)) /\
  (forall env d w, fst (book env d w) <> contentionResponse) /\
  (forall i schedule σ env d cfin resp,
     clients σ !! i = Some (newClient env d) ->
     clients (run schedule σ) !! i = Some cfin ->
     phase cfin = Responded resp ->
     resp <> contentionResponse).
Proof.
  split; [vm_compute; reflexivity |].
  split; [vm_compute; reflexivity |].
  split.
  { intros env d w H. unfold book.
    destruct (retryLoop env d 3 w) as [[e|[b|]] w']; simpl in *;
      try discriminate.
    injection H as ->. reflexivity. }
  split; [exact book_not_contention |].
  intros i schedule σ env d cfin resp Hc Hfin Hresp.
  destruct (request_is_handler_run i schedule σ env d cfin resp Hc Hfin Hresp)
    as (os & Hbook).
  pose proof (book_not_contention (withOthers env os) d
                (initWorld (db (resumeAt i schedule σ)))) as Hno.
  rewrite Hbook in Hno. exact Hno.
Qed.

(** ** C5: a failed attempt writes nothing *)

Lemma interference_add (env : Env) (from n m : nat) (s : Store) :
  interference env from (n + m) s
  = interference env (from + n) m (interference env from n s).
Proof.
  revert from s. induction n as [|n IH]; intros from s; simpl.
  - now rewrite Nat.add_0_r.
  - rewrite IH. now rewrite Nat.add_succ_r.
Qed.

Lemma interference_quiet (env : Env) (from n : nat) (s : Store) :
  (forall k s', others env k s' = s') -> interference env from n s = s.
Proof.
  intros Hq. revert from s.
  induction n as [|n IH]; intros from s; simpl; [reflexivity |].
  now rewrite Hq, IH.
Qed.

Lemma failed_loop_store (env : Env) (d : BookingRequest) (r : nat) :
  forall w e w',
    retryLoop env d (S r) w = (inl e, w') ->
    exists k, yields w' = (yields w + k)%nat /\
              committed w' = interference env (yields w) k (committed w).
Proof.
  induction r as [|r IH]; intros w e w'; rewrite retryLoop_unfold;
    destruct (dollar_transaction (bookingTx env d) w) as [[e1|b] w1] eqn:Hrun;
    try discriminate.
  - rewrite retryable_last. intros H; injection H as <- <-.
    destruct (failed_attempt_store env d w e1 w1 Hrun) as (k & Hy & Hc & _).
    eauto.
  - destruct (failed_attempt_store env d w e1 w1 Hrun) as (k & Hy & Hc & _).
    destruct (retryable e1 (S (S r))).
    + intros H. apply IH in H as (k2 & Hy2 & Hc2). simpl in Hy2, Hc2.
      exists (k + S k2)%nat. split; [lia |].
      rewrite interference_add, <- Hc, <- Hy. simpl. exact Hc2.
    + intros H; injection H as <- <-. eauto.
Qed.

Lemma sold_out_attempt (env : Env) (d : BookingRequest) (w : World)
    (row : TripInstance) :
  tripInstances (working w) !! req_tripInstanceId d = Some row ->
  status row = "active" -> availableSeats row = 0 ->
  req_passengers d <> [] ->
  dollar_transaction (bookingTx env d) w
  = (inl (Error "Only 0 seats available"), rolledBack (afterRead d w)).
Proof.
  intros Hrow Hst Hseats Hps.
  rewrite attempt_run, checkAvailability_availability.
  unfold availability. simpl. rewrite Hrow, Hst, Hseats. simpl.
  assert (Hn : (0 <? passengerCount d) = true).
  { apply Z.ltb_lt. unfold passengerCount.
    destruct (req_passengers d); [contradiction | simpl; lia]. }
  rewrite Hn. reflexivity.
Qed.

(** In the concurrent system the store changes only in the step that
    completes a booking. *)
Lemma stepClient_writes (s : Store) (c : Client) :
  fst (stepClient s c) = s \/
  exists booking,
    phase (snd (stepClient s c)) = Responded (confirmedResponse booking) /\
    bookings (fst (stepClient s c)) = bookings s ++ [booking].
Proof.
  unfold stepClient.
  destruct (phase c) as [[|r]|r snapshot|resp]; try (left; reflexivity).
  - destruct ((emit OpBegin ;;; checkAvailability (request c))%handler
                (attach s (local c))) as [[e|ti] w]; left; reflexivity.
  - pose proof (reserveAndCreate_run (clientEnv c) (request c) snapshot
                  (attach s (local c))) as Hrun.
    cbv zeta in Hrun. unfold conflictOutcome in Hrun. simpl in Hrun.
    destruct (tripInstances s !! req_tripInstanceId (request c)) as [row|];
      [| rewrite Hrun; left; reflexivity].
    destruct (version row =? version snapshot);
      [| rewrite Hrun; left; reflexivity].
    destruct Hrun as (ref & pos' & lookups & _ & _ & _ & ->).
    destruct (lookupBooking ref (bookings s)); [left; reflexivity |].
    right. eexists. split; reflexivity.
Qed.

(** The schema lets through only requests with at least one passenger. *)
Lemma safeParse_passengers (isEmail : string -> bool) (body : JSON)
    (d : BookingRequest) :
  bookingSchema_safeParse isEmail body = Some d -> req_passengers d <> [].
Proof.
  unfold bookingSchema_safeParse.
  destruct body as [| | | | |fields]; try discriminate.
  destruct (zStringMin1 (jget "tripInstanceId" fields)) as [tid|];
    [simpl | discriminate].
  unfold zPassengers.
  destruct (jget "passengers" fields) as [[| | | |items|]|]; try discriminate.
  destruct (mapM (passengerSchema isEmail) items) as [ps|];
    [simpl | discriminate].
  destruct (Z.leb_spec 1 (Z.of_nat (length ps))) as [Hlen|_];
    [simpl | discriminate].
  destruct (zEmail isEmail (jget "contactEmail" fields)) as [ce|];
    [simpl | discriminate].
  destruct (zStringMin1 (jget "contactPhone" fields)) as [cp|];
    [simpl | discriminate].
  intros H; injection H as <-. simpl.
  destruct ps; [simpl in Hlen; lia | discriminate].
Qed.

(** C5 (as the code has it): an attempt that fails, at whatever statement,
    leaves in the committed store exactly what the other requests committed
    meanwhile, and so does a request that is answered with a failure; with
    no other request committing, the store after the failure is the store
    before it; among concurrent requests the store changes only in the step
    that commits a booking. A request against an active trip instance with
    [availableSeats = 0] is answered 'Only 0 seats available' and leaves
    the store as it was. *)
Theorem all_or_nothing (env : Env) (d : BookingRequest) (w : World) :
  (forall e w',
     dollar_transaction (bookingTx env d) w = (inl e, w') ->
     exists k, yields w' = (yields w + k)%nat /\
               committed w' = interference env (yields w) k (committed w) /\
               working w' = committed w') /\
  (success (fst (book env d w)) = false ->
   exists k, committed (snd (book env d w))
             = interference env (yields w) k (committed w)) /\
  ((forall k s, others env k s = s) ->
   success (fst (book env d w)) = false ->
   committed (snd (book env d w)) = committed w) /\
  (forall s c,
     fst (stepClient s c) = s \/
     exists booking,
       phase (snd (stepClient s c)) = Responded (confirmedResponse booking) /\
       bookings (fst (stepClient s c)) = bookings s ++ [booking]) /\
  (forall row,
     tripInstances (working w) !! req_tripInstanceId d = Some row ->
     status row = "active" -> availableSeats row = 0 ->
     req_passengers d <> [] ->
     fst (book env d w) = errorResponse (Error "Only 0 seats available") /\
     committed (snd (book env d w)) = committed w) /\
  (forall isEmail body row,
     unset (DATABASE_URL env) = false ->
     bookingSchema_safeParse isEmail body = Some d ->
     tripInstances (working w) !! req_tripInstanceId d = Some row ->
     status row = "active" -> availableSeats row = 0 ->
     fst (POST isEmail env body w)
     = errorResponse (Error "Only 0 seats available") /\
     committed (snd (POST isEmail env body w)) = committed w).
Proof.
  assert (Hfail : success (fst (book env d w)) = false ->
                  exists k, committed (snd (book env d w))
                            = interference env (yields w) k (committed w)).
  { unfold book. pose proof (retryLoop_some env d 2 w) as Hsome.
    destruct (retryLoop env d 3 w) as [[e|[b|]] w'] eqn:Hloop; simpl in *.
    - intros _. destruct (failed_loop_store env d 2 w e w' Hloop)
        as (k & _ & Hc). eauto.
    - discriminate.
    - congruence. }
  assert (Hzero : forall row,
     tripInstances (working w) !! req_tripInstanceId d = Some row ->
     status row = "active" -> availableSeats row = 0 ->
     req_passengers d <> [] ->
     fst (book env d w) = errorResponse (Error "Only 0 seats available") /\
     committed (snd (book env d w)) = committed w).
  { intros row Hrow Hst Hseats Hps. unfold book. rewrite retryLoop_unfold.
    rewrite (sold_out_attempt env d w row) by assumption.
    split; reflexivity. }
  split; [intros e w' Hrun; eapply failed_attempt_store, Hrun |].
  split; [exact Hfail |].
  split.
  { intros Hq Hf. destruct (Hfail Hf) as (k & ->).
    apply interference_quiet, Hq. }
  split; [exact stepClient_writes |].
  split; [exact Hzero |].
  intros isEmail body row Henv Hbody Hrow Hst Hseats.
  unfold POST. rewrite Henv, Hbody.
  apply (Hzero row); try assumption.
  eapply safeParse_passengers, Hbody.
Qed.

Lemma all_or_nothing_witness :
  fst (book (quietEnv 0) partyOfTwo (initWorld soldOutDeparture))
  = errorResponse (Error "Only 0 seats available") /\
  committed (snd (book (quietEnv 0) partyOfTwo (initWorld soldOutDeparture)))
  = soldOutDeparture.
Proof.
  destruct (all_or_nothing (quietEnv 0) partyOfTwo (initWorld soldOutDeparture))
    as (_ & _ & _ & _ & Hzero & _).
  apply (Hzero (mkTripInstance (mkTrip (49 # 1) 55) 0 9 "active")).
  - reflexivity.
  - reflexivity.
  - reflexivity.
  - discriminate.
Defined.

(** A failure after the seat decrement: the conditional write affects one
    record, every candidate reference is taken, [booking.create] fails on
    the unique index, and the store is left as it was. *)
Example taken_reference_rolls_back :
  let result := book stuckEnv single (initWorld takenStore) in
  fst result = errorResponse uniqueConstraintFailed /\
  committed (snd result) = takenStore /\
  log (snd result)
  = [OpBegin; OpFindUniqueTripInstance "dep1";
     OpUpdateManyTripInstance "dep1" 1 53 2 1]
    ++ repeat (OpFindUniqueBooking "AAAAAA") 10
    ++ [OpCreateBooking "AAAAAA"; OpRollback].
Proof. repeat split; vm_compute; reflexivity. Qed.

(** C5 (as stated) fails for a trip instance that is no longer active: with
    [availableSeats = 0] and status 'cancelled' the request is answered
    'Trip is no longer available', the check that comes first. *)
Lemma zero_seats_inactive_is_unavailable :
  availableSeats <$> (tripInstances cancelledDeparture !! "dep1") = Some 0 /\
  error (fst (book (quietEnv 0) single (initWorld cancelledDeparture)))
  = Some "Trip is no longer available" /\
  fst (book (quietEnv 0) single (initWorld cancelledDeparture))
  <> errorResponse (Error "Only 0 seats available").
Proof.
  split; [reflexivity |]. split; [vm_compute; reflexivity |].
  vm_compute. discriminate.
Qed.

(** ** C6: what guards the creation of the booking *)

Lemma beforeCreate_lookups (lookups : list Op) (ref : string) (rest : list Op) :
  Forall isLookup lookups ->
  beforeCreate (lookups ++ OpCreateBooking ref :: rest) = lookups.
Proof.
  induction 1 as [|op lookups [ref' ->] _ IH]; simpl; [reflexivity |].
  now rewrite IH.
Qed.

Lemma lookups_no_inventory_read (lookups : list Op) :
  Forall isLookup lookups -> existsb isInventoryRead lookups = false.
Proof.
  induction 1 as [|op lookups [ref' ->] _ IH]; simpl; [reflexivity | exact IH].
Qed.

(** C6 (as the code has it): in every attempt, between the conditional
    write and [booking.create] there are only look-ups of candidate
    references, no read of the inventory row; a booking is returned only by
    an attempt whose statements were the read, a conditional write that
    affected one record because the stored version was the version read,
    the look-ups, the creation and the commit; and no attempt reaches
    [booking.create] without a conditional write that affected one
    record. *)
Theorem create_guarded_by_conditional_write (env : Env) (d : BookingRequest)
    (w : World) :
  exists ops,
    log (snd (dollar_transaction (bookingTx env d) w)) = log w ++ ops /\
    existsb isInventoryRead (betweenWriteAndCreate ops) = false /\
    (forall booking,
       fst (dollar_transaction (bookingTx env d) w) = inr booking ->
       exists snapshot row lookups,
         ops = [OpBegin; OpFindUniqueTripInstance (req_tripInstanceId d);
                conditionalWrite d snapshot 1]
               ++ lookups ++ [OpCreateBooking (bookingRef booking); OpCommit]
         /\ Forall isLookup lookups
         /\ tripInstances (working (atWrite env d w)) !! req_tripInstanceId d
            = Some row
         /\ version row = version snapshot) /\
    (forall ref, OpCreateBooking ref ∈ ops ->
                 exists snapshot, conditionalWrite d snapshot 1 ∈ ops).
Proof.
  pose proof (attempt_outcome env d w) as Hout.
  destruct (dollar_transaction (bookingTx env d) w) as [res w'].
  inversion Hout; subst; simpl fst; simpl snd.
  - exists [OpBegin; OpFindUniqueTripInstance (req_tripInstanceId d);
            OpRollback].
    split; [simpl; rewrite <- !app_assoc; reflexivity |].
    split; [reflexivity |]. split; [discriminate |].
    intros ref Hin. exfalso.
    repeat (apply elem_of_cons in Hin as [Hin|Hin]; [discriminate |]).
    inversion Hin.
  - exists [OpBegin; OpFindUniqueTripInstance (req_tripInstanceId d);
            conditionalWrite d snapshot 0; OpRollback].
    split; [simpl; rewrite <- !app_assoc; reflexivity |].
    split; [reflexivity |]. split; [discriminate |].
    intros ref Hin. exfalso.
    repeat (apply elem_of_cons in Hin as [Hin|Hin]; [discriminate |]).
    inversion Hin.
  - exists ([OpBegin; OpFindUniqueTripInstance (req_tripInstanceId d);
             conditionalWrite d snapshot 1]
            ++ lookups ++ [OpCreateBooking ref; OpRollback]).
    split; [simpl; rewrite <- !app_assoc; simpl; rewrite <- !app_assoc;
            reflexivity |].
    split.
    { unfold betweenWriteAndCreate. simpl.
      rewrite beforeCreate_lookups by assumption.
      now apply lookups_no_inventory_read. }
    split; [discriminate |].
    intros ref' _. exists snapshot. simpl. repeat constructor.
  - exists ([OpBegin; OpFindUniqueTripInstance (req_tripInstanceId d);
             conditionalWrite d snapshot 1]
            ++ lookups ++ [OpCreateBooking ref; OpCommit]).
    split; [simpl; rewrite <- !app_assoc; simpl; rewrite <- !app_assoc;
            reflexivity |].
    split.
    { unfold betweenWriteAndCreate. simpl.
      rewrite beforeCreate_lookups by assumption.
      now apply lookups_no_inventory_read. }
    split.
    + intros b Hb. injection Hb as <-.
      exists snapshot, row, lookups. auto.
    + intros ref' _. exists snapshot. simpl. repeat constructor.
Qed.

(** C6 (as stated) fails: a booking for one seat on a quiet database is
    created and committed after the conditional write and one look-up of
    the candidate reference; the inventory row is read once, before the
    write, and not again. *)
Lemma booking_created_without_reverification :
  success (fst (book (quietEnv 0) single (initWorld smallDeparture))) = true /\
  log (snd (book (quietEnv 0) single (initWorld smallDeparture)))
  = [OpBegin; OpFindUniqueTripInstance "dep1";
     OpUpdateManyTripInstance "dep1" 0 1 1 1;
     OpFindUniqueBooking "ABCDEF"; OpCreateBooking "ABCDEF"; OpCommit] /\
  existsb isInventoryRead
    (betweenWriteAndCreate
       (log (snd (book (quietEnv 0) single (initWorld smallDeparture)))))
  = false.
Proof. repeat split; vm_compute; reflexivity. Qed.

(** ** C7: booking references *)

Lemma lookupBooking_None (ref : string) (bs : list Booking) :
  lookupBooking ref bs = None -> ref ∉ map bookingRef bs.
Proof.
  unfold lookupBooking. induction bs as [|b bs IH]; simpl; intros Hfind Hin.
  - inversion Hin.
  - destruct (String.eqb_spec (bookingRef b) ref) as [Heq|Hne];
      [discriminate |].
    apply elem_of_cons in Hin as [Hin|Hin]; [congruence | now apply IH].
Qed.

Lemma lookupBooking_Some (ref : string) (bs : list Booking) (b : Booking) :
  lookupBooking ref bs = Some b -> bookingRef b = ref /\ b ∈ bs.
Proof.
  unfold lookupBooking. induction bs as [|b' bs IH]; simpl; intros Hfind.
  - discriminate.
  - destruct (String.eqb_spec (bookingRef b') ref) as [Heq|Hne].
    + injection Hfind as <-. split; [exact Heq | constructor].
    + destruct (IH Hfind) as [Hr Hin]. split; [exact Hr | now constructor].
Qed.

Lemma stepAt_unique (i : nat) (σ : System) :
  NoDup (bookingRefs (db σ)) -> NoDup (bookingRefs (db (stepAt i σ))).
Proof.
  intros Hnd. unfold stepAt.
  destruct (clients σ !! i) as [c|] eqn:Hc; [| exact Hnd].
  pose proof (stepClient_cases (db σ) c) as [_ Hcases].
  destruct (stepClient (db σ) c) as [s' c'] eqn:Hstep. simpl in *.
  destruct Hcases as [[-> _] | (r & snapshot & row & ref & _ & _ & _ & _
                                 & Hfree & ->)]; [exact Hnd |].
  unfold bookingRefs, commitOf. simpl. rewrite map_app. simpl.
  apply NoDup_app. split; [exact Hnd |]. split.
  - intros x Hx Hin. apply list_elem_of_singleton in Hin as ->.
    exact (lookupBooking_None _ _ Hfree Hx).
  - apply NoDup_singleton.
Qed.

Lemma run_unique (schedule : list nat) :
  forall σ, NoDup (bookingRefs (db σ)) ->
            NoDup (bookingRefs (db (run schedule σ))).
Proof.
  induction schedule as [|i schedule IH]; intros σ Hnd; simpl.
  - exact Hnd.
  - apply IH, stepAt_unique, Hnd.
Qed.




(** The unique index also decides between two requests that draw the same
    reference for different departures: the second looks the reference up
    before the first has stored it and creates its booking afterwards. Its
    single look-up finds nothing, [booking.create] fails, the seat it had
    taken is given back, and it is answered 500. *)
Lemma late_insert_fails_on_the_index :
  let σ := run [1; 0; 0; 1]%nat
             (mkSystem twoDepartures
                [newClient (quietEnv 0) single;
                 newClient overtakenEnv singleOnSecond]) in
  phase <$> clients σ
  = [Responded (mkResponse 200 true None (Some "ABCDEF")
       (Some "Booking confirmed! Your booking reference is ABCDEF") None);
     Responded (errorResponse uniqueConstraintFailed)] /\
  log ∘ local <$> clients σ
  = [[OpBegin; OpFindUniqueTripInstance "dep1";
      OpUpdateManyTripInstance "dep1" 0 54 1 1;
      OpFindUniqueBooking "ABCDEF"; OpCreateBooking "ABCDEF"; OpCommit];
     [OpBegin; OpFindUniqueTripInstance "dep2";
      OpUpdateManyTripInstance "dep2" 0 54 1 1;
      OpFindUniqueBooking "ABCDEF"; OpCreateBooking "ABCDEF"; OpRollback]] /\
  bookingRefs (db σ) = ["ABCDEF"] /\
  tripInstances (db σ) !! "dep2" = tripInstances twoDepartures !! "dep2".
Proof. repeat split; vm_compute; reflexivity. Qed.

(** ** C9: cancellation *)

Lemma lookupBooking_markCancelled (ref : string) (now : Z) (bs : list Booking)
    (b : Booking) :
  lookupBooking ref bs = Some b ->
  lookupBooking ref (markCancelled ref now bs) = Some (cancelledBooking b now).
Proof.
  unfold lookupBooking, markCancelled.
  induction bs as [|b' bs IH]; simpl; [discriminate |].
  destruct (String.eqb (bookingRef b') ref) eqn:Hb'; simpl.
  - intros H; injection H as <-. rewrite Hb'. reflexivity.
  - rewrite Hb'. exact IH.
Qed.

Lemma lookupBooking_last (ref : string) (bs : list Booking) (b : Booking) :
  lookupBooking ref bs = None -> bookingRef b = ref ->
  lookupBooking ref (bs ++ [b]) = Some b.
Proof.
  unfold lookupBooking. intros Hnone Hb.
  induction bs as [|b' bs IH]; simpl in *.
  - rewrite Hb, String.eqb_refl. reflexivity.
  - destruct (String.eqb (bookingRef b') ref); [discriminate | now apply IH].
Qed.

(** With no other request committing in between, the cancellation of a
    confirmed booking succeeds at its first attempt. *)
Lemma cancelBooking_run (env : Env) (now : Z) (w : World) (b : Booking)
    (row : TripInstance) :
  (forall k s, others env k s = s) ->
  lookupBooking (bookingRef b) (bookings (working w)) = Some b ->
  bookingStatus b = "confirmed" ->
  tripInstances (working w) !! tripInstanceId b = Some row ->
  cancelBooking env now (bookingRef b) w
  = (inr (cancelledBooking b now),
     let s' := mkStore (<[tripInstanceId b := restockedRow row b]>
                          (tripInstances (working w)))
                       (markCancelled (bookingRef b) now (bookings (working w)))
     in
     mkWorld s' s' (rngPos w) (S (yields w))
       (log w ++ [OpBegin; OpFindUniqueBooking (bookingRef b);
                  OpFindUniqueTripInstance (tripInstanceId b);
                  OpUpdateManyTripInstance (tripInstanceId b) (version row)
                    (availableSeats row + Z.of_nat (length (passengers b)))
                    (version row + 1) 1;
                  OpUpdateBooking (bookingRef b); OpCommit])).
Proof.
  intros Hq Hb Hst Hrow.
  unfold cancelBooking. simpl cancelRetry.
  unfold catch at 1, dollar_transaction, cancelTx, booking_cancel,
    tripInstance_updateMany, yield, yielded.
  run_handler.
  rewrite Hb, Hst. simpl. rewrite Hrow. simpl.
  rewrite !Hq. rewrite Hrow, Z.eqb_refl. simpl.
  unfold committedWorld. simpl.
  rewrite <- !app_assoc. reflexivity.
Qed.

(** One cancellation attempt, statement by statement. *)
Lemma cancelTx_run (env : Env) (now : Z) (ref : string) (w : World) :
  dollar_transaction (cancelTx env now ref) w =
  match cancellable ref (working w) with
  | None =>
      (inl (Error "NotFound"),
       mkWorld (committed w) (committed w) (rngPos w) (yields w)
         (log w ++ OpBegin :: cancelReads ref (working w) ++ [OpRollback]))
  | Some (b, snapshot) =>
      let wy := cancelAtWrite env ref w in
      let conflict :=
        (inl (Error CONCURRENT_MODIFICATION),
         rolledBack (logged (restockWrite b snapshot 0) wy)) in
      match tripInstances (working wy) !! tripInstanceId b with
      | Some row =>
          if version row =? version snapshot then
            (inr (cancelledBooking b now),
             committedWorld
               (mkWorld (committed wy)
                  (mkStore (<[tripInstanceId b := restocked row snapshot b]>
                              (tripInstances (working wy)))
                           (markCancelled ref now (bookings (working wy))))
                  (rngPos wy) (yields wy)
                  (log wy ++ [restockWrite b snapshot 1; OpUpdateBooking ref])))
          else conflict
      | None => conflict
      end
  end.
Proof.
  unfold cancellable, cancelAtWrite, cancelReads, dollar_transaction, cancelTx,
    booking_cancel, tripInstance_updateMany, yield, yielded, rolledBack,
    committedWorld, restockWrite, restocked, markCancelled.
  unfold bind, ret, throw, catch, emit, logged, getWorking, setWorking,
    tripInstance_findUnique, booking_findUnique; simpl.
  destruct (lookupBooking ref (bookings (working w))) as [b|]; simpl.
  2:{ rewrite <- !app_assoc. reflexivity. }
  destruct (negb (String.eqb (bookingStatus b) "confirmed")); simpl.
  { rewrite <- !app_assoc. reflexivity. }
  destruct (tripInstances (working w) !! tripInstanceId b) as [snapshot|]; simpl.
  2:{ rewrite <- !app_assoc. reflexivity. }
  rewrite <- !app_assoc. simpl.
  destruct (tripInstances (others env (yields w) (working w)) !! tripInstanceId b)
    as [row|]; simpl.
  2:{ rewrite <- !app_assoc. reflexivity. }
  destruct (version row =? version snapshot); simpl;
    rewrite <- ?app_assoc; reflexivity.
Qed.

Lemma cancellable_Some (ref : string) (s : Store) (b : Booking)
    (snapshot : TripInstance) :
  cancellable ref s = Some (b, snapshot) ->
  lookupBooking ref (bookings s) = Some b /\
  bookingStatus b = "confirmed" /\
  tripInstances s !! tripInstanceId b = Some snapshot /\
  cancelReads ref s
  = [OpFindUniqueBooking ref; OpFindUniqueTripInstance (tripInstanceId b)].
Proof.
  unfold cancellable, cancelReads.
  destruct (lookupBooking ref (bookings s)) as [b0|]; [| discriminate].
  destruct (String.eqb_spec (bookingStatus b0) "confirmed") as [Hc|Hc]; simpl;
    [| discriminate].
  destruct (tripInstances s !! tripInstanceId b0) as [row|] eqn:Hrow;
    [| discriminate].
  intros H; injection H as <- <-. auto.
Qed.

Lemma cancelReads_plain (ref : string) (s : Store) :
  uncommitted (cancelReads ref s) /\ attemptsIn (cancelReads ref s) = O /\
  delaysIn (cancelReads ref s) = [] /\ conflictsIn (cancelReads ref s) = O.
Proof.
  unfold cancelReads, uncommitted, conflictsIn.
  destruct (lookupBooking ref (bookings s)) as [b|];
    [destruct (negb (String.eqb (bookingStatus b) "confirmed")) |];
    simpl; repeat split; repeat constructor; discriminate.
Qed.

Lemma conflictsIn_app (a b : list Op) :
  conflictsIn (a ++ b) = (conflictsIn a + conflictsIn b)%nat.
Proof. unfold conflictsIn. now rewrite filter_app, length_app. Qed.

#[local] Opaque cancelReads.

(** The attempts of a cancellation: it is decided by the first attempt
    that does not end in a version conflict, and by the conflict of its
    last attempt otherwise. *)
Lemma cancelRetry_cases (env : Env) (now : Z) (ref : string) (n : nat) :
  forall w, working w = committed w ->
  let result := cancelRetry env now ref (S n) w in
  (exists k w0 earlier,
     (k <= 2 * n)%nat /\ yields w0 = (yields w + k)%nat /\
     working w0 = interference env (yields w) k (committed w) /\
     committed w0 = working w0 /\
     log w0 = log w ++ earlier /\ uncommitted earlier /\
     fst (dollar_transaction (cancelTx env now ref) w0)
     <> inl (Error CONCURRENT_MODIFICATION) /\
     result = dollar_transaction (cancelTx env now ref) w0)
  \/
  (exists k ops,
     fst result = inl (Error "Contention") /\
     committed (snd result) = interference env (yields w) k (committed w) /\
     working (snd result) = committed (snd result) /\
     log (snd result) = log w ++ ops /\ uncommitted ops /\
     attemptsIn ops = S n /\ delaysIn ops = repeat 100 n /\
     conflictsIn ops = S n).
Proof.
  induction n as [|n IH]; intros w Hw result; subst result.
  - simpl cancelRetry. unfold catch.
    pose proof (cancelTx_run env now ref w) as Hrun.
    destruct (cancellable ref (working w)) as [[b snapshot]|] eqn:Hc.
    2:{ left. exists 0%nat, w, []. rewrite Hrun. simpl.
        rewrite Nat.add_0_r, app_nil_r.
        repeat split; auto; try constructor; try discriminate. }
    cbv zeta in Hrun.
    destruct (cancelReads_plain ref (working w)) as (Hu & Ha & Hd & Hcf).
    assert (Hconf :
      dollar_transaction (cancelTx env now ref) w
      = (inl (Error CONCURRENT_MODIFICATION),
         rolledBack (logged (restockWrite b snapshot 0)
                       (cancelAtWrite env ref w))) ->
      exists k ops,
        fst (inl (Error "Contention") : Exn + Booking,
             rolledBack (logged (restockWrite b snapshot 0)
                           (cancelAtWrite env ref w)))
        = inl (Error "Contention") /\
        committed (rolledBack (logged (restockWrite b snapshot 0)
                                 (cancelAtWrite env ref w)))
        = interference env (yields w) k (committed w) /\
        working (rolledBack (logged (restockWrite b snapshot 0)
                               (cancelAtWrite env ref w)))
        = committed (rolledBack (logged (restockWrite b snapshot 0)
                                   (cancelAtWrite env ref w))) /\
        log (rolledBack (logged (restockWrite b snapshot 0)
                           (cancelAtWrite env ref w)))
        = log w ++ ops /\ uncommitted ops /\
        attemptsIn ops = 1%nat /\ delaysIn ops = [] /\
        conflictsIn ops = 1%nat).
    { intros _. exists 1%nat,
        (OpBegin :: cancelReads ref (working w)
           ++ [restockWrite b snapshot 0; OpRollback]).
      simpl. rewrite <- !app_assoc. simpl.
      repeat split.
      - constructor; [discriminate |]. apply Forall_app. split; [exact Hu |].
        repeat constructor; discriminate.
      - rewrite attemptsIn_app, Ha. reflexivity.
      - rewrite delaysIn_app, Hd. reflexivity.
      - change (OpBegin :: cancelReads ref (working w)
                  ++ [restockWrite b snapshot 0; OpRollback])
          with ([OpBegin] ++ cancelReads ref (working w)
                  ++ [restockWrite b snapshot 0; OpRollback]).
        rewrite !conflictsIn_app, Hcf. reflexivity. }
    destruct (tripInstances (working (cancelAtWrite env ref w)) !! tripInstanceId b)
      as [row|].
    + destruct (version row =? version snapshot).
      * left. exists 0%nat, w, []. rewrite Hrun. simpl.
        rewrite Nat.add_0_r, app_nil_r.
        repeat split; auto; try constructor; try discriminate.
      * right. rewrite Hrun. simpl. apply Hconf. exact Hrun.
    + right. rewrite Hrun. simpl. apply Hconf. exact Hrun.
  - change (cancelRetry env now ref (S (S n)) w)
      with (catch (dollar_transaction (cancelTx env now ref))
              (fun error =>
                 if String.eqb (exnMessage error) CONCURRENT_MODIFICATION
                 then (setTimeout env 100 ;;;
                       cancelRetry env now ref (S n))%handler
                 else throw error) w).
    unfold catch.
    pose proof (cancelTx_run env now ref w) as Hrun.
    destruct (cancellable ref (working w)) as [[b snapshot]|] eqn:Hc.
    2:{ left. exists 0%nat, w, []. rewrite Hrun. simpl.
        rewrite Nat.add_0_r, app_nil_r.
        repeat split; auto; try constructor; try discriminate; lia. }
    cbv zeta in Hrun.
    destruct (cancelReads_plain ref (working w)) as (Hu & Ha & Hd & Hcf).
    set (wr := rolledBack (logged (restockWrite b snapshot 0)
                             (cancelAtWrite env ref w))) in *.
    set (w1 := yielded env (logged (OpSetTimeout 100) wr)).
    assert (Hretry :
      dollar_transaction (cancelTx env now ref) w
      = (inl (Error CONCURRENT_MODIFICATION), wr) ->
      let result := cancelRetry env now ref (S n) w1 in
      (exists k w0 earlier,
         (k <= 2 * S n)%nat /\ yields w0 = (yields w + k)%nat /\
         working w0 = interference env (yields w) k (committed w) /\
         committed w0 = working w0 /\
         log w0 = log w ++ earlier /\ uncommitted earlier /\
         fst (dollar_transaction (cancelTx env now ref) w0)
         <> inl (Error CONCURRENT_MODIFICATION) /\
         result = dollar_transaction (cancelTx env now ref) w0)
      \/
      (exists k ops,
         fst result = inl (Error "Contention") /\
         committed (snd result) = interference env (yields w) k (committed w) /\
         working (snd result) = committed (snd result) /\
         log (snd result) = log w ++ ops /\ uncommitted ops /\
         attemptsIn ops = S (S n) /\ delaysIn ops = repeat 100 (S n) /\
         conflictsIn ops = S (S n))).
    { intros _.
      assert (Hw1 : working w1 = committed w1) by reflexivity.
      assert (Hs1 : committed w1 = interference env (yields w) 2 (committed w))
        by reflexivity.
      assert (Hy1 : yields w1 = (yields w + 2)%nat)
        by (simpl; lia).
      set (pre := OpBegin :: cancelReads ref (working w)
                    ++ [restockWrite b snapshot 0; OpRollback;
                        OpSetTimeout 100]).
      assert (Hl1 : log w1 = log w ++ pre).
      { subst pre. simpl. rewrite <- !app_assoc. simpl.
        rewrite <- ?app_assoc. reflexivity. }
      assert (Hu1 : uncommitted pre).
      { constructor; [discriminate |]. apply Forall_app. split; [exact Hu |].
        repeat constructor; discriminate. }
      assert (Hpa : attemptsIn pre = 1%nat).
      { subst pre. simpl. rewrite attemptsIn_app, Ha. reflexivity. }
      assert (Hpd : delaysIn pre = [100]).
      { subst pre. simpl. rewrite delaysIn_app, Hd. reflexivity. }
      assert (Hpc : conflictsIn pre = 1%nat).
      { subst pre.
        change (OpBegin :: cancelReads ref (working w)
                  ++ [restockWrite b snapshot 0; OpRollback;
                      OpSetTimeout 100])
          with ([OpBegin] ++ cancelReads ref (working w)
                  ++ [restockWrite b snapshot 0; OpRollback;
                      OpSetTimeout 100]).
        rewrite !conflictsIn_app, Hcf. reflexivity. }
      clearbody pre.
      destruct (IH w1 Hw1) as [(k & w0 & earlier & Hk & Hy & Hs & Hcw & Hl & Hue
                                 & Hne & Hres)
                              | (k & ops & He & Hs & Hcw & Hl & Huo & Hat & Hdl
                                 & Hcn)].
      - left. exists (2 + k)%nat, w0, (pre ++ earlier).
        split; [lia |]. split; [lia |].
        split. { rewrite Hs, Hy1, Hs1, interference_add. reflexivity. }
        split; [exact Hcw |].
        split. { rewrite Hl, Hl1, <- app_assoc. reflexivity. }
        split. { apply Forall_app. split; assumption. }
        split; assumption.
      - right. exists (2 + k)%nat, (pre ++ ops).
        split; [exact He |].
        split. { rewrite Hs, Hy1, Hs1, interference_add. reflexivity. }
        split; [exact Hcw |].
        split. { rewrite Hl, Hl1, <- app_assoc. reflexivity. }
        split. { apply Forall_app. split; assumption. }
        split; [| split].
        + rewrite attemptsIn_app, Hpa, Hat. reflexivity.
        + rewrite delaysIn_app, Hpd, Hdl. reflexivity.
        + rewrite conflictsIn_app, Hpc, Hcn. reflexivity. }
    destruct (tripInstances (working (cancelAtWrite env ref w)) !! tripInstanceId b)
      as [row|].
    + destruct (version row =? version snapshot).
      * left. exists 0%nat, w, []. rewrite Hrun. simpl.
        rewrite Nat.add_0_r, app_nil_r.
        repeat split; auto; try constructor; try discriminate; lia.
      * rewrite Hrun. simpl. apply Hretry. exact Hrun.
    + rewrite Hrun. simpl. apply Hretry. exact Hrun.
Qed.

Lemma uncommitted_notin (ops : list Op) : uncommitted ops -> OpCommit ∉ ops.
Proof.
  unfold uncommitted. rewrite Forall_forall. intros H Hin.
  exact (H _ Hin eq_refl).
Qed.

Lemma cancelAtWrite_working (env : Env) (ref : string) (w : World) :
  working (cancelAtWrite env ref w) = others env (yields w) (working w).
Proof. reflexivity. Qed.

#[local] Transparent cancelReads.




(** A cancellation that meets one version conflict is retried after
    100 ms and completes on the row it reads again: the competitor left 53
    seats at version 2, the cancellation leaves 54 at version 3. *)
Lemma cancellation_retries_after_conflict :
  let result := cancelBooking onceContendedEnv 1700000000 "AAAAAA"
                  (initWorld takenStore) in
  fst result
  = inr (mkBooking "dep1" "AAAAAA" "cancelled" (49 # 1) "ada@example.com"
           "555-0100" [mkPassenger "Ada" "Lovelace" None None]
           (Some 1700000000)) /\
  log (snd result)
  = [OpBegin; OpFindUniqueBooking "AAAAAA"; OpFindUniqueTripInstance "dep1";
     OpUpdateManyTripInstance "dep1" 1 55 2 0; OpRollback;
     OpSetTimeout 100;
     OpBegin; OpFindUniqueBooking "AAAAAA"; OpFindUniqueTripInstance "dep1";
     OpUpdateManyTripInstance "dep1" 2 54 3 1; OpUpdateBooking "AAAAAA";
     OpCommit] /\
  tripInstances (committed (snd result)) !! "dep1"
  = Some (mkTripInstance (mkTrip (49 # 1) 55) 54 3 "active") /\
  lookupBooking "AAAAAA" (bookings (committed (snd result)))
  = Some (mkBooking "dep1" "AAAAAA" "cancelled" (49 # 1) "ada@example.com"
            "555-0100" [mkPassenger "Ada" "Lovelace" None None]
            (Some 1700000000)).
Proof. repeat split; vm_compute; reflexivity. Qed.

(** ** C10: rejected request bodies *)

(** C10 (as the code has it): with DATABASE_URL configured, a request body
    that [bookingSchema] rejects is answered 400 'Invalid request' and the
    handler does nothing else: no statement is issued, the store and the
    random source are untouched. A body whose [passengers] is the empty
    array, whose [tripInstanceId] or [contactPhone] is the empty string, or
    whose [contactEmail] is a string that is not an e-mail address, is
    rejected. *)
Theorem invalid_request_rejected (isEmail : string -> bool) (env : Env)
    (w : World) :
  unset (DATABASE_URL env) = false ->
  (forall body,
     bookingSchema_safeParse isEmail body = None ->
     POST isEmail env body w = (invalidRequestResponse, w)) /\
  (forall fields,
     jget "passengers" fields = Some (JArray []) ->
     bookingSchema_safeParse isEmail (JObject fields) = None) /\
  (forall fields,
     jget "tripInstanceId" fields = Some (JString "") ->
     bookingSchema_safeParse isEmail (JObject fields) = None) /\
  (forall fields address,
     jget "contactEmail" fields = Some (JString address) ->
     isEmail address = false ->
     bookingSchema_safeParse isEmail (JObject fields) = None) /\
  (forall fields,
     jget "contactPhone" fields = Some (JString "") ->
     bookingSchema_safeParse isEmail (JObject fields) = None).
Proof.
  intros Henv. repeat split.
  - intros body Hbody. unfold POST. rewrite Henv, Hbody. reflexivity.
  - intros fields H. unfold bookingSchema_safeParse. rewrite H.
    destruct (zStringMin1 (jget "tripInstanceId" fields)); reflexivity.
  - intros fields H. unfold bookingSchema_safeParse. rewrite H. reflexivity.
  - intros fields address H Hno. unfold bookingSchema_safeParse. rewrite H.
    destruct (zStringMin1 (jget "tripInstanceId" fields)); [| reflexivity].
    destruct (zPassengers isEmail (jget "passengers" fields)); [| reflexivity].
    unfold zEmail. simpl. rewrite Hno. reflexivity.
  - intros fields H. unfold bookingSchema_safeParse. rewrite H.
    destruct (zStringMin1 (jget "tripInstanceId" fields)); [| reflexivity].
    destruct (zPassengers isEmail (jget "passengers" fields)); [| reflexivity].
    destruct (zEmail isEmail (jget "contactEmail" fields)); reflexivity.
Qed.

Lemma invalid_request_rejected_witness :
  POST hasAt (quietEnv 0) emptyPartyBody (initWorld smallDeparture)
  = (invalidRequestResponse, initWorld smallDeparture).
Proof.
  destruct (invalid_request_rejected hasAt (quietEnv 0)
              (initWorld smallDeparture)) as (Hreject & _).
  - reflexivity.
  - apply Hreject. reflexivity.
Defined.

(** C10 (as stated) fails when DATABASE_URL is not set: the body with an
    empty [passengers] array, which the schema rejects, is answered 500
    'Database configuration error' by the check that precedes the
    validation. *)
Lemma rejected_body_unconfigured_is_500 :
  bookingSchema_safeParse hasAt emptyPartyBody = None /\
  fst (POST hasAt unconfiguredEnv emptyPartyBody (initWorld smallDeparture))
  = mkResponse 500 false (Some "Database configuration error") None None None
  /\
  fst (POST hasAt unconfiguredEnv emptyPartyBody (initWorld smallDeparture))
  <> invalidRequestResponse.
Proof.
  split; [reflexivity |]. split; [reflexivity |].
  vm_compute. discriminate.
Qed.

(** * Further properties of the reservation endpoint *)

(** ** What the inventory read establishes *)

Lemma availability_inr (d : BookingRequest) (s : Store)
    (snapshot : TripInstance) :
  availability d s = inr snapshot ->
  tripInstances s !! req_tripInstanceId d = Some snapshot /\
  status snapshot = "active" /\
  passengerCount d <= availableSeats snapshot.
Proof.
  unfold availability.
  destruct (tripInstances s !! req_tripInstanceId d) as [ti|]; [| discriminate].
  destruct (String.eqb_spec (status ti) "active") as [Hst|]; simpl;
    [| discriminate].
  destruct (Z.ltb_spec (availableSeats ti) (passengerCount d)) as [|Hn];
    [discriminate |].
  intros H; injection H as <-. auto.
Qed.

Lemma availability_inl (d : BookingRequest) (s : Store) (e : Exn) :
  availability d s = inl e -> exnMessage e <> CONCURRENT_MODIFICATION.
Proof.
  unfold availability, CONCURRENT_MODIFICATION.
  destruct (tripInstances s !! req_tripInstanceId d) as [ti|].
  2:{ intros H; injection H as <-. simpl. discriminate. }
  destruct (negb (String.eqb (status ti) "active")).
  { intros H; injection H as <-. simpl. discriminate. }
  destruct (availableSeats ti <? passengerCount d); [| discriminate].
  intros H; injection H as <-. simpl.
  change ("Only " +:+ pretty (availableSeats ti) +:+ " seats available")
    with (String "O" ("nly " +:+ pretty (availableSeats ti)
                        +:+ " seats available")).
  discriminate.
Qed.

(** A booking the retry loop returns is the booking of one attempt. *)
Lemma retryLoop_booked (env : Env) (d : BookingRequest) (r : nat) :
  forall w b w',
    retryLoop env d r w = (inr (Some b), w') ->
    exists w0, dollar_transaction (bookingTx env d) w0 = (inr b, w').
Proof.
  induction r as [|r IH]; intros w b w'.
  - simpl. unfold ret. discriminate.
  - rewrite retryLoop_unfold.
    destruct (dollar_transaction (bookingTx env d) w) as [[e|b1] w1] eqn:Hrun.
    + destruct (retryable e (S r)); [apply IH | discriminate].
    + intros H; injection H as <- <-. eauto.
Qed.

(** What a successful attempt leaves behind. *)
Lemma booked_attempt (env : Env) (d : BookingRequest) (w0 : World)
    (b : Booking) (w' : World) :
  dollar_transaction (bookingTx env d) w0 = (inr b, w') ->
  exists snapshot row ref,
    b = newBooking d snapshot ref /\
    availability d (working w0) = inr snapshot /\
    tripInstances (working (atWrite env d w0)) !! req_tripInstanceId d
    = Some row /\
    version row = version snapshot /\
    lookupBooking ref (bookings (working (atWrite env d w0))) = None /\
    committed w'
    = mkStore (<[req_tripInstanceId d
                 := writtenRow row snapshot (passengerCount d)]>
                 (tripInstances (working (atWrite env d w0))))
              (bookings (working (atWrite env d w0)) ++ [b]) /\
    working w' = committed w'.
Proof.
  intros Hrun. pose proof (attempt_outcome env d w0) as Hout.
  rewrite Hrun in Hout. inversion Hout; subst.
  exists snapshot, row, ref. repeat split; auto.
Qed.

(** ** A confirmed response and the stored booking *)

Lemma book_success (env : Env) (d : BookingRequest)
    (w : World) :
  success (fst (book env d w)) = true ->
  exists snapshot ref,
    fst (book env d w) = confirmedResponse (newBooking d snapshot ref) /\
    status snapshot = "active" /\
    passengerCount d <= availableSeats snapshot /\
    lookupBooking ref (bookings (committed (snd (book env d w))))
    = Some (newBooking d snapshot ref) /\
    (exists row,
       tripInstances (committed (snd (book env d w))) !! req_tripInstanceId d
       = Some row /\
       availableSeats row = availableSeats snapshot - passengerCount d /\
       version row = version snapshot + 1) /\
    working (snd (book env d w)) = committed (snd (book env d w)).
Proof.
  unfold book.
  destruct (retryLoop env d 3 w) as [[e|[b|]] w'] eqn:Hloop; simpl;
    try discriminate.
  intros _.
  destruct (retryLoop_booked _ _ _ _ _ _ Hloop) as (w0 & Hrun).
  destruct (booked_attempt _ _ _ _ _ Hrun)
    as (snapshot & row & ref & -> & Hav & Hrow & Hv & Hfree & Hc & Hw).
  destruct (availability_inr _ _ _ Hav) as (_ & Hst & Hn).
  exists snapshot, ref. rewrite Hw, Hc. simpl.
  repeat split; auto.
  - apply lookupBooking_last; [exact Hfree | reflexivity].
  - rewrite lookup_insert_eq. eexists; split; [reflexivity |].
    simpl. split; reflexivity.
Qed.

(** A booking the retry loop returns is the booking of one attempt, which
    started on the store the other requests had left by then. *)
Lemma retryLoop_booked_at (env : Env) (d : BookingRequest) (r : nat) :
  forall w b w',
    working w = committed w ->
    retryLoop env d r w = (inr (Some b), w') ->
    exists k w0,
      (k + 2 <= 2 * r)%nat /\ yields w0 = (yields w + k)%nat /\
      working w0 = interference env (yields w) k (committed w) /\
      dollar_transaction (bookingTx env d) w0 = (inr b, w').
Proof.
  induction r as [|r IH]; intros w b w' Hw.
  - simpl. unfold ret. discriminate.
  - rewrite retryLoop_unfold.
    destruct (dollar_transaction (bookingTx env d) w) as [[e|b1] w1] eqn:Hrun.
    + destruct (retryable e (S r)); [| discriminate].
      destruct (failed_attempt_store env d w e w1 Hrun) as (k1 & Hy1 & Hc1 & Hw1).
      intros Hloop.
      apply IH in Hloop; [| simpl; now rewrite Hw1].
      destruct Hloop as (k & w0 & Hk & Hy & Hs & Hrun0).
      simpl in Hy, Hs.
      assert (Hk1 : (k1 <= 1)%nat).
      { pose proof (attempt_outcome env d w) as Hout. rewrite Hrun in Hout.
        inversion Hout; subst; simpl in Hy1; lia. }
      exists (k1 + 1 + k)%nat, w0.
      split; [lia |]. split; [lia |]. split; [| exact Hrun0].
      rewrite Hs, Hy1, Hc1.
      rewrite (interference_add env (yields w) (k1 + 1) k).
      rewrite (interference_add env (yields w) k1 1). simpl.
      replace (yields w + (k1 + 1))%nat with (S (yields w + k1)) by lia.
      reflexivity.
    + intros H; injection H as <- <-. exists 0%nat, w.
      split; [lia |]. split; [lia |]. split; [simpl; congruence | exact Hrun].
Qed.

(** X1: When the booking handler answers with success, its last attempt read
    the trip instance active and with enough seats in the store the other
    requests had left by then (after at most 4 suspensions), and found the
    stored version unchanged at its conditional write; the committed store
    is the store at that write with the row's availableSeats and version
    replaced by the values read less the passenger count and plus 1, and
    with one booking appended under a reference no booking had. That booking
    is the one the answered reference looks up: the request's trip instance,
    contacts and passengers, confirmed, its totalPrice the product of the
    basePrice read and the passenger count (exact in the model, a double in
    the code). With other writers that change a row only together with its
    version the row written is the row read. *)
Theorem confirmed_booking_is_stored (env : Env) (d : BookingRequest)
    (s : Store) (w0 : World) :
  let w := attach s w0 in
  let result := book env d w in
  success (fst result) = true ->
  exists k snapshot row ref,
    let read := interference env (yields w) k s in
    let stored := others env (yields w + k) read in
    let b := newBooking d snapshot ref in
    (k <= 4)%nat /\
    availability d read = inr snapshot /\
    tripInstances stored !! req_tripInstanceId d = Some row /\
    version row = version snapshot /\
    (versioned (others env (yields w + k)) -> row = snapshot) /\
    lookupBooking ref (bookings stored) = None /\
    fst result = confirmedResponse b /\
    committed (snd result)
    = mkStore (<[req_tripInstanceId d
                 := writtenRow row snapshot (passengerCount d)]>
                 (tripInstances stored))
              (bookings stored ++ [b]) /\
    lookupBooking ref (bookings (committed (snd result))) = Some b /\
    working (snd result) = committed (snd result).
Proof.
  intros w result. subst result. unfold book.
  destruct (retryLoop env d 3 w) as [[e|[b|]] w'] eqn:Hloop; simpl;
    try discriminate.
  intros _.
  destruct (retryLoop_booked_at env d 3 w b w' eq_refl Hloop)
    as (k & wa & Hk & Hy & Hs & Hrun).
  change (committed w) with s in Hs.
  destruct (booked_attempt _ _ _ _ _ Hrun)
    as (snapshot & row & ref & -> & Hav & Hrow & Hv & Hfree & Hc & Hw).
  rewrite atWrite_working, Hs, Hy in Hrow, Hfree, Hc.
  rewrite Hs in Hav.
  exists k, snapshot, row, ref.
  split; [lia |]. split; [exact Hav |]. split; [exact Hrow |].
  split; [exact Hv |].
  split.
  { intros Hvers. destruct (availability_inr _ _ _ Hav) as (Hsnap & _ & _).
    exact (Hvers _ _ _ _ Hsnap Hrow Hv). }
  split; [exact Hfree |]. split; [reflexivity |]. split; [exact Hc |].
  split; [| exact Hw].
  rewrite Hc. cbn [bookings].
  apply lookupBooking_last; [exact Hfree | reflexivity].
Qed.

Lemma confirmed_booking_is_stored_witness :
  exists k snapshot row ref,
    (k <= 4)%nat /\
    availability partyOfTwo (interference (quietEnv 0) 0 k smallDeparture)
    = inr snapshot /\
    tripInstances
      (others (quietEnv 0) (0 + k)
         (interference (quietEnv 0) 0 k smallDeparture))
      !! "dep1" = Some row /\
    version row = version snapshot /\
    (versioned (others (quietEnv 0) (0 + k)) -> row = snapshot) /\
    lookupBooking ref
      (bookings (others (quietEnv 0) (0 + k)
                   (interference (quietEnv 0) 0 k smallDeparture))) = None /\
    fst (book (quietEnv 0) partyOfTwo (initWorld smallDeparture))
    = confirmedResponse (newBooking partyOfTwo snapshot ref) /\
    committed (snd (book (quietEnv 0) partyOfTwo (initWorld smallDeparture)))
    = mkStore
        (<["dep1" := writtenRow row snapshot 2]>
           (tripInstances
              (others (quietEnv 0) (0 + k)
                 (interference (quietEnv 0) 0 k smallDeparture))))
        (bookings (others (quietEnv 0) (0 + k)
                     (interference (quietEnv 0) 0 k smallDeparture))
           ++ [newBooking partyOfTwo snapshot ref]) /\
    lookupBooking ref
      (bookings
         (committed (snd (book (quietEnv 0) partyOfTwo
                            (initWorld smallDeparture)))))
    = Some (newBooking partyOfTwo snapshot ref) /\
    working (snd (book (quietEnv 0) partyOfTwo (initWorld smallDeparture)))
    = committed (snd (book (quietEnv 0) partyOfTwo (initWorld smallDeparture))).
Proof.
  apply (confirmed_booking_is_stored (quietEnv 0) partyOfTwo smallDeparture
           (initWorld smallDeparture)).
  vm_compute. reflexivity.
Defined.

(** ** The shape of the responses *)

Lemma errorResponse_message (e : Exn) :
  exists msg, error (errorResponse e) = Some msg /\ msg <> "".
Proof.
  unfold errorResponse. simpl.
  destruct (String.eqb_spec (exnMessage e) "") as [Hm|Hm].
  - eexists; split; [reflexivity | discriminate].
  - eexists; split; [reflexivity | exact Hm].
Qed.


(** ** A request that nobody disturbs *)

Lemma undisturbed_attempt (env : Env) (d : BookingRequest) (w : World) :
  (forall s, others env (yields w) s = s) ->
  match availability d (working w) with
  | inl e =>
      dollar_transaction (bookingTx env d) w
      = (inl e, rolledBack (afterRead d w))
  | inr snapshot =>
      (exists ref w',
         dollar_transaction (bookingTx env d) w
         = (inr (newBooking d snapshot ref), w')) \/
      (exists w',
         dollar_transaction (bookingTx env d) w
         = (inl uniqueConstraintFailed, w'))
  end.
Proof.
  intros Hquiet. pose proof (attempt_outcome env d w) as Hout.
  destruct (availability d (working w)) as [e|snapshot] eqn:Hav.
  - inversion Hout; subst; congruence.
  - destruct (availability_inr _ _ _ Hav) as (Hrow & _ & _).
    inversion Hout as [e He Heq | snap Hs Hconf Heq
                       | snap row ref pos' lookups Hs Hr Hv Hl Hlen Hu Heq
                       | snap row ref pos' lookups Hs Hr Hv Hl Hlen Hu Heq];
      try congruence.
    + exfalso. rewrite Hav in Hs. injection Hs as <-.
      apply (Hconf snapshot); [| reflexivity].
      rewrite atWrite_working, Hquiet. exact Hrow.
    + right. eauto.
    + left. rewrite Hav in Hs. injection Hs as <-. eauto.
Qed.

Lemma undisturbed_loop (env : Env) (d : BookingRequest) (r : nat)
    (w : World) :
  (forall s, others env (yields w) s = s) ->
  retryLoop env d (S r) w
  = match dollar_transaction (bookingTx env d) w with
    | (inr b, w') => (inr (Some b), w')
    | (inl e, w') => (inl e, w')
    end /\
  forall e w', dollar_transaction (bookingTx env d) w = (inl e, w') ->
               exnMessage e <> CONCURRENT_MODIFICATION.
Proof.
  intros Hquiet.
  pose proof (undisturbed_attempt env d w Hquiet) as Hatt.
  rewrite retryLoop_unfold.
  destruct (availability d (working w)) as [e|snapshot] eqn:Hav.
  - rewrite Hatt.
    rewrite (retryable_other e (S r)) by (eapply availability_inl; eauto).
    split; [reflexivity |].
    intros e' w' H; injection H as <- <-. eapply availability_inl; eauto.
  - destruct Hatt as [(ref & w' & ->) | (w' & ->)].
    + split; [reflexivity | discriminate].
    + rewrite retryable_other by discriminate.
      split; [reflexivity |].
      intros e' w'' H; injection H as <- <-. discriminate.
Qed.

Lemma undisturbed_book (env : Env) (d : BookingRequest) (w : World) :
  (forall s, others env (yields w) s = s) ->
  book env d w
  = match dollar_transaction (bookingTx env d) w with
    | (inr b, w') => (confirmedResponse b, w')
    | (inl e, w') => (errorResponse e, w')
    end /\
  forall e w', dollar_transaction (bookingTx env d) w = (inl e, w') ->
               exnMessage e <> CONCURRENT_MODIFICATION.
Proof.
  intros Hquiet.
  destruct (undisturbed_loop env d 2 w Hquiet) as [Hloop Hmsg].
  split; [| exact Hmsg].
  unfold book. rewrite Hloop.
  destruct (dollar_transaction (bookingTx env d) w) as [[e|b] w'];
    reflexivity.
Qed.

Lemma undisturbed_attempt_store (env : Env) (d : BookingRequest) (w : World)
    (snapshot : TripInstance) :
  (forall s, others env (yields w) s = s) ->
  availability d (working w) = inr snapshot ->
  (exists ref w',
     dollar_transaction (bookingTx env d) w
     = (inr (newBooking d snapshot ref), w') /\
     lookupBooking ref (bookings (working w)) = None /\
     committed w'
     = mkStore (<[req_tripInstanceId d
                  := writtenRow snapshot snapshot (passengerCount d)]>
                  (tripInstances (working w)))
               (bookings (working w) ++ [newBooking d snapshot ref])) \/
  (exists w',
     dollar_transaction (bookingTx env d) w = (inl uniqueConstraintFailed, w') /\
     committed w' = committed w).
Proof.
  intros Hquiet Hav.
  destruct (availability_inr _ _ _ Hav) as (Hsnap & _ & _).
  pose proof (undisturbed_attempt env d w Hquiet) as Hatt.
  rewrite Hav in Hatt.
  - destruct Hatt as [(ref & w' & Hrun) | (w' & Hrun)].
    + left. exists ref, w'. split; [exact Hrun |].
      destruct (booked_attempt _ _ _ _ _ Hrun)
        as (snap & row & ref' & Hb & Hav' & Hrow & Hv & Hfree & Hc & Hw).
      rewrite Hav in Hav'. injection Hav' as <-.
      assert (ref' = ref) by (apply (f_equal bookingRef) in Hb; simpl in Hb; congruence).
      subst ref'.
      rewrite atWrite_working, Hquiet in Hrow, Hfree, Hc.
      rewrite Hsnap in Hrow. injection Hrow as <-.
      split; [exact Hfree | exact Hc].
    + right. exists w'. split; [exact Hrun |].
      pose proof (attempt_outcome env d w) as Hout. rewrite Hrun in Hout.
      inversion Hout; subst; simpl; first [congruence | apply Hquiet].
Qed.



(** ** The retry after a conflict *)

Lemma conflicting_attempt (env : Env) (d : BookingRequest) (w : World)
    (snapshot row : TripInstance) :
  availability d (working w) = inr snapshot ->
  tripInstances (others env (yields w) (working w)) !! req_tripInstanceId d
  = Some row ->
  version row <> version snapshot ->
  dollar_transaction (bookingTx env d) w
  = (inl (Error CONCURRENT_MODIFICATION),
     rolledBack (logged (conditionalWrite d snapshot 0) (atWrite env d w))).
Proof.
  intros Hav Hrow Hv. pose proof (attempt_outcome env d w) as Hout.
  rewrite <- (atWrite_working env d w) in Hrow.
  inversion Hout as [e He Heq | snap Hs Hconf Heq
                     | snap row' ref pos' lookups Hs Hr Hv' Hl Hlen Hu Heq
                     | snap row' ref pos' lookups Hs Hr Hv' Hl Hlen Hu Heq];
    try congruence.
Qed.



(** ** Seats are neither created nor lost *)

Lemma snapshots_stepAt (i : nat) (σ : System) :
  Forall (snapshotOk (db σ)) (clients σ) ->
  Forall (snapshotOk (db (stepAt i σ))) (clients (stepAt i σ)) /\
  forall id row, tripInstances (db σ) !! id = Some row ->
    exists row', tripInstances (db (stepAt i σ)) !! id = Some row' /\
      availableSeats row' + confirmedSeats id (bookings (db (stepAt i σ)))
      = availableSeats row + confirmedSeats id (bookings (db σ)) /\
      trip row' = trip row /\ status row' = status row.
Proof.
  intros Hall. unfold stepAt.
  destruct (clients σ !! i) as [c|] eqn:Hc; [| split; [assumption | eauto]].
  pose proof (stepClient_cases (db σ) c) as [Hreq Hcases].
  pose proof (Forall_lookup_1 _ _ _ _ Hall Hc) as Hok.
  destruct (stepClient (db σ) c) as [s' c'] eqn:Hstep. simpl in *.
  assert (Hid : clientId c' = clientId c) by (unfold clientId; now rewrite Hreq).
  assert (Hseats : clientSeats c' = clientSeats c)
    by (unfold clientSeats; now rewrite Hreq).
  destruct Hcases as [[-> Hc'] | (r & snapshot & row & ref & Hphase & Hset
                                   & Hrow & Hv & _ & ->)].
  - split; [| eauto].
    apply Forall_insert; [exact Hall |].
    destruct Hc' as [Hset | (r & snapshot & Hphase' & Hfrom)].
    + intros r snap Hp. destruct (Hset r snap Hp).
    + intros r' snap' Hp. rewrite Hphase' in Hp. injection Hp as <- <-.
      rewrite Hid, Hseats.
      destruct Hfrom as [Hold | [Hrow Hn]].
      * exact (Hok r snapshot Hold).
      * split; [exact Hn |]. exists snapshot. split; [exact Hrow |]. lia.
  - destruct (Hok r snapshot Hphase) as (Hn & row0 & Hrow0 & Hle & Heq).
    assert (row0 = row) by congruence. subst row0.
    split.
    + apply Forall_insert.
      * eapply Forall_impl; [exact Hall |].
        intros c2 Hc2. apply commitOf_snapshotOk; assumption.
      * intros r' snap' Hp. destruct (Hset r' snap' Hp).
    + intros id row1 Hrow1. unfold commitOf; simpl.
      rewrite confirmedSeats_newBooking. fold (clientId c).
      destruct (decide (clientId c = id)) as [<-|Hne].
      * rewrite lookup_insert_eq. eexists; split; [reflexivity |].
        assert (row1 = row) by congruence. subst row1.
        rewrite String.eqb_refl. simpl. fold (clientSeats c).
        specialize (Heq (eq_sym Hv)). repeat split; lia.
      * rewrite lookup_insert_ne by exact Hne.
        exists row1. split; [exact Hrow1 |].
        destruct (String.eqb_spec (clientId c) id); [contradiction |].
        repeat split; lia.
Qed.

Lemma snapshots_run (schedule : list nat) :
  forall σ,
    Forall (snapshotOk (db σ)) (clients σ) ->
    forall id row, tripInstances (db σ) !! id = Some row ->
      exists row', tripInstances (db (run schedule σ)) !! id = Some row' /\
        availableSeats row' + confirmedSeats id (bookings (db (run schedule σ)))
        = availableSeats row + confirmedSeats id (bookings (db σ)) /\
        trip row' = trip row /\ status row' = status row.
Proof.
  induction schedule as [|i schedule IH]; intros σ Hall id row Hrow; simpl.
  - eauto.
  - destruct (snapshots_stepAt i σ Hall) as [Hall' Hstep].
    destruct (Hstep id row Hrow) as (row1 & Hrow1 & Hsum1 & Ht1 & Hs1).
    destruct (IH _ Hall' id row1 Hrow1) as (row2 & Hrow2 & Hsum2 & Ht2 & Hs2).
    exists row2. split; [exact Hrow2 |].
    repeat split; congruence.
Qed.

(** X5: For every set of requests running the handler and every interleaving
    of their steps, each trip instance keeps availableSeats plus the
    passengers of its confirmed bookings constant, and its trip and status
    columns unchanged: seats are neither created nor lost. *)
Theorem seats_conserved (σ0 : System) (schedule : list nat)
    (id : string) (row0 : TripInstance) :
  Forall settled (clients σ0) ->
  tripInstances (db σ0) !! id = Some row0 ->
  exists row,
    tripInstances (db (run schedule σ0)) !! id = Some row /\
    availableSeats row + confirmedSeats id (bookings (db (run schedule σ0)))
    = availableSeats row0 + confirmedSeats id (bookings (db σ0)) /\
    trip row = trip row0 /\ status row = status row0.
Proof.
  intros Hset Hrow. apply snapshots_run; [| exact Hrow].
  eapply Forall_impl; [exact Hset |].
  intros c Hc r snap Hp. destruct (Hc r snap Hp).
Qed.

Lemma seats_conserved_witness :
  exists row,
    tripInstances
      (db (run [0; 1; 1; 0; 0; 0]%nat
             (mkSystem smallDeparture
                [newClient (quietEnv 0) partyOfTwo;
                 newClient (quietEnv 1) single]))) !! "dep1" = Some row /\
    availableSeats row
    + confirmedSeats "dep1"
        (bookings
           (db (run [0; 1; 1; 0; 0; 0]%nat
                  (mkSystem smallDeparture
                     [newClient (quietEnv 0) partyOfTwo;
                      newClient (quietEnv 1) single]))))
    = availableSeats (mkTripInstance (mkTrip (49 # 1) 2) 2 0 "active")
      + confirmedSeats "dep1" (bookings (db (mkSystem smallDeparture
                [newClient (quietEnv 0) partyOfTwo;
                 newClient (quietEnv 1) single]))) /\
    trip row = trip (mkTripInstance (mkTrip (49 # 1) 2) 2 0 "active") /\
    status row = status (mkTripInstance (mkTrip (49 # 1) 2) 2 0 "active").
Proof.
  apply (seats_conserved
           (mkSystem smallDeparture
              [newClient (quietEnv 0) partyOfTwo;
               newClient (quietEnv 1) single])
           [0; 1; 1; 0; 0; 0]%nat "dep1"
           (mkTripInstance (mkTrip (49 # 1) 2) 2 0 "active")).
  - repeat constructor; intros r ti; discriminate.
  - reflexivity.
Defined.

(** ** Two requests on the same version *)

Lemma stepClient_commit (s : Store) (c : Client) (r : nat)
    (snapshot : TripInstance) (booking : Booking) :
  phase c = InTransaction r snapshot ->
  phase (snd (stepClient s c)) = Responded (confirmedResponse booking) ->
  exists row ref,
    tripInstances s !! clientId c = Some row /\
    version row = version snapshot /\
    fst (stepClient s c) = commitOf c s row snapshot ref.
Proof.
  intros Hphase. unfold stepClient. rewrite Hphase.
  pose proof (reserveAndCreate_run (clientEnv c) (request c) snapshot
                (attach s (local c))) as Hrun.
  simpl in Hrun. fold (clientId c) in Hrun.
  assert (Herr : forall e w,
    phase (afterError c r e w) <> Responded (confirmedResponse booking)).
  { intros e w. unfold afterError.
    destruct (retryable e r); simpl; discriminate. }
  destruct (tripInstances s !! clientId c) as [row|] eqn:Hrow.
  2:{ unfold conflictOutcome in Hrun. rewrite Hrun. simpl.
      intros H. destruct (Herr _ _ H). }
  destruct (Z.eqb_spec (version row) (version snapshot)) as [Hv|Hv].
  2:{ unfold conflictOutcome in Hrun. rewrite Hrun. simpl.
      intros H. destruct (Herr _ _ H). }
  destruct Hrun as (ref & pos' & lookups & _ & _ & _ & Hrun).
  rewrite Hrun.
  destruct (lookupBooking ref (bookings s)) eqn:Hfree; simpl.
  { intros H. exfalso. apply (Herr uniqueConstraintFailed (local c)).
    unfold afterError. rewrite retryable_other by discriminate.
    exact H. }
  intros _. exists row, ref. repeat split; auto.
Qed.

Lemma stepClient_stale (s : Store) (c : Client) (r : nat)
    (snapshot row : TripInstance) :
  phase c = InTransaction r snapshot ->
  tripInstances s !! clientId c = Some row ->
  version row <> version snapshot ->
  fst (stepClient s c) = s /\
  phase (snd (stepClient s c))
  = if 1 <? Z.of_nat r then AtLoop (Nat.pred r)
    else Responded (errorResponse (Error CONCURRENT_MODIFICATION)).
Proof.
  intros Hphase Hrow Hv. unfold stepClient. rewrite Hphase.
  pose proof (reserveAndCreate_run (clientEnv c) (request c) snapshot
                (attach s (local c))) as Hrun.
  simpl in Hrun. fold (clientId c) in Hrun. rewrite Hrow in Hrun.
  destruct (Z.eqb_spec (version row) (version snapshot)); [contradiction |].
  unfold conflictOutcome in Hrun. rewrite Hrun. simpl.
  split; [reflexivity |].
  unfold afterError, retryable. simpl.
  destruct (1 <? Z.of_nat r); reflexivity.
Qed.

(** X6: Of two requests that read the same version of a trip instance, at
    most one books on it: once one of them has committed, the conditional
    write of the other affects no row, its transaction leaves the store
    unchanged, and it goes to a retry while retries > 1 and is otherwise
    answered CONCURRENT_MODIFICATION. *)
Theorem stale_snapshot_cannot_commit (s : Store) (c1 c2 : Client)
    (r1 r2 : nat) (snapshot1 snapshot2 : TripInstance) (booking : Booking) :
  phase c1 = InTransaction r1 snapshot1 ->
  phase c2 = InTransaction r2 snapshot2 ->
  clientId c1 = clientId c2 ->
  version snapshot1 = version snapshot2 ->
  phase (snd (stepClient s c1)) = Responded (confirmedResponse booking) ->
  let s' := fst (stepClient s c1) in
  fst (stepClient s' c2) = s' /\
  phase (snd (stepClient s' c2))
  = if 1 <? Z.of_nat r2 then AtLoop (Nat.pred r2)
    else Responded (errorResponse (Error CONCURRENT_MODIFICATION)).
Proof.
  intros Hp1 Hp2 Hid Hv Hdone s'.
  destruct (stepClient_commit s c1 r1 snapshot1 booking Hp1 Hdone)
    as (row & ref & Hrow & Hvrow & Hs').
  subst s'. rewrite Hs'.
  apply (stepClient_stale _ c2 r2 snapshot2
           (writtenRow row snapshot1 (clientSeats c1))); [exact Hp2 | |].
  - unfold commitOf. simpl. rewrite Hid. apply lookup_insert_eq.
  - simpl. lia.
Qed.

Lemma stale_snapshot_cannot_commit_witness :
  let c1 := snd (stepClient smallDeparture (newClient (quietEnv 0) single)) in
  let c2 := snd (stepClient smallDeparture (newClient (quietEnv 1) partyOfTwo)) in
  let s' := fst (stepClient smallDeparture c1) in
  fst (stepClient s' c2) = s' /\
  phase (snd (stepClient s' c2))
  = if 1 <? Z.of_nat 3 then AtLoop (Nat.pred 3)
    else Responded (errorResponse (Error CONCURRENT_MODIFICATION)).
Proof.
  intros c1 c2.
  apply (stale_snapshot_cannot_commit smallDeparture c1 c2 3 3
           (mkTripInstance (mkTrip (49 # 1) 2) 2 0 "active")
           (mkTripInstance (mkTrip (49 # 1) 2) 2 0 "active")
           (newBooking single
              (mkTripInstance (mkTrip (49 # 1) 2) 2 0 "active") "ABCDEF")).
  - vm_compute. reflexivity.
  - vm_compute. reflexivity.
  - reflexivity.
  - reflexivity.
  - vm_compute. reflexivity.
Defined.

(** ** What a booking request does not touch *)

Lemma stepAt_requests (i : nat) (σ : System) :
  request <$> clients (stepAt i σ) = request <$> clients σ.
Proof.
  unfold stepAt. destruct (clients σ !! i) as [c|] eqn:Hc; [| reflexivity].
  pose proof (stepClient_cases (db σ) c) as [Hreq _].
  destruct (stepClient (db σ) c) as [s' c']. simpl in *.
  rewrite list_fmap_insert, Hreq.
  apply list_insert_id. rewrite list_lookup_fmap, Hc. reflexivity.
Qed.

Lemma stepAt_added (i : nat) (σ : System) :
  (exists added,
     bookings (db (stepAt i σ)) = bookings (db σ) ++ added /\
     Forall (fun b => exists d snapshot ref,
                        d ∈ (request <$> clients σ) /\
                        b = newBooking d snapshot ref) added) /\
  (forall id,
     (forall d, d ∈ (request <$> clients σ) -> req_tripInstanceId d <> id) ->
     tripInstances (db (stepAt i σ)) !! id = tripInstances (db σ) !! id).
Proof.
  unfold stepAt. destruct (clients σ !! i) as [c|] eqn:Hc.
  2:{ split; [exists []; rewrite app_nil_r; auto | auto]. }
  pose proof (stepClient_cases (db σ) c) as [_ Hcases].
  assert (Hin : request c ∈ (request <$> clients σ)).
  { apply list_elem_of_fmap. exists c. split; [reflexivity |].
    eapply list_elem_of_lookup_2; eauto. }
  destruct (stepClient (db σ) c) as [s' c']. simpl in *.
  destruct Hcases as [[-> _] | (r & snapshot & row & ref & _ & _ & _ & _ & _
                                 & ->)].
  - split; [exists []; rewrite app_nil_r; auto | auto].
  - unfold commitOf; simpl. split.
    + eexists; split; [reflexivity |].
      constructor; [| constructor]. eauto.
    + intros id Hid. apply lookup_insert_ne. apply Hid, Hin.
Qed.

(** X7: Requests running the handler only append bookings, each the booking
    of one of the requests; existing bookings are never changed or removed,
    and a trip instance that no request names keeps its row. *)
Theorem booking_touches_only_its_departure (σ0 : System)
    (schedule : list nat) :
  (exists added,
     bookings (db (run schedule σ0)) = bookings (db σ0) ++ added /\
     Forall (fun b => exists d snapshot ref,
                        d ∈ (request <$> clients σ0) /\
                        b = newBooking d snapshot ref) added) /\
  (forall id,
     (forall d, d ∈ (request <$> clients σ0) -> req_tripInstanceId d <> id) ->
     tripInstances (db (run schedule σ0)) !! id
     = tripInstances (db σ0) !! id).
Proof.
  revert σ0. induction schedule as [|i schedule IH]; intros σ0; simpl.
  - split; [exists []; rewrite app_nil_r; auto | auto].
  - destruct (IH (stepAt i σ0)) as [(added2 & Hb2 & Hall2) Hrows2].
    destruct (stepAt_added i σ0) as [(added1 & Hb1 & Hall1) Hrows1].
    rewrite stepAt_requests in Hall2, Hrows2.
    split.
    + exists (added1 ++ added2). rewrite Hb2, Hb1, app_assoc.
      split; [reflexivity |]. apply Forall_app_2; assumption.
    + intros id Hid. rewrite Hrows2, Hrows1; auto.
Qed.

(** ** Transactions are always closed *)

Lemma bracketed_lookups (lookups rest : list Op) :
  Forall isLookup lookups ->
  bracketed true (lookups ++ rest) = bracketed true rest.
Proof.
  induction 1 as [|op lookups [ref ->] _ IH]; simpl; auto.
Qed.

Lemma attempt_bracketed (env : Env) (d : BookingRequest) (w : World) :
  exists ops,
    log (snd (dollar_transaction (bookingTx env d) w)) = log w ++ ops /\
    forall rest, bracketed false (ops ++ rest) = bracketed false rest.
Proof.
  pose proof (attempt_outcome env d w) as Hout.
  destruct (dollar_transaction (bookingTx env d) w) as [res w'].
  inversion Hout; subst; simpl.
  - exists [OpBegin; OpFindUniqueTripInstance (req_tripInstanceId d);
            OpRollback].
    split; [rewrite <- !app_assoc; reflexivity | reflexivity].
  - exists [OpBegin; OpFindUniqueTripInstance (req_tripInstanceId d);
            conditionalWrite d snapshot 0; OpRollback].
    split; [rewrite <- !app_assoc; reflexivity | reflexivity].
  - exists ([OpBegin; OpFindUniqueTripInstance (req_tripInstanceId d);
             conditionalWrite d snapshot 1]
              ++ lookups ++ [OpCreateBooking ref; OpRollback]).
    split; [simpl; rewrite <- !app_assoc; simpl; rewrite <- !app_assoc;
            reflexivity |].
    intros rest. simpl. rewrite <- app_assoc, bracketed_lookups by assumption.
    reflexivity.
  - exists ([OpBegin; OpFindUniqueTripInstance (req_tripInstanceId d);
             conditionalWrite d snapshot 1]
              ++ lookups ++ [OpCreateBooking ref; OpCommit]).
    split; [simpl; rewrite <- !app_assoc; simpl; rewrite <- !app_assoc;
            reflexivity |].
    intros rest. simpl. rewrite <- app_assoc, bracketed_lookups by assumption.
    reflexivity.
Qed.

Lemma retryLoop_bracketed (env : Env) (d : BookingRequest) (r : nat) :
  forall w, exists ops,
    log (snd (retryLoop env d r w)) = log w ++ ops /\
    bracketed false ops = true.
Proof.
  induction r as [|r IH]; intros w.
  - exists []. simpl. rewrite app_nil_r. auto.
  - rewrite retryLoop_unfold.
    destruct (attempt_bracketed env d w) as (ops & Hlog & Hops).
    destruct (dollar_transaction (bookingTx env d) w) as [[e|b] w'];
      simpl in Hlog.
    + destruct (retryable e (S r)).
      * destruct (IH (yielded env (logged (OpSetTimeout 100) w')))
          as (ops2 & Hlog2 & Hops2).
        exists (ops ++ OpSetTimeout 100 :: ops2).
        rewrite Hlog2. simpl. rewrite Hlog, <- !app_assoc.
        split; [reflexivity |]. rewrite Hops. simpl. exact Hops2.
      * exists ops. split; [exact Hlog |].
        rewrite <- (app_nil_r ops), Hops. reflexivity.
    + exists ops. split; [exact Hlog |].
      rewrite <- (app_nil_r ops), Hops. reflexivity.
Qed.

(** X8: In every run of the booking handler the calls on the database come
    in transactions: each statement lies between a begin and the one commit
    or rollback that follows it, no transaction is left open when the
    handler answers, and the 100 ms timer runs only between transactions. *)
Theorem transactions_are_closed (isEmail : string -> bool) (env : Env)
    (body : JSON) (w : World) :
  exists ops,
    log (snd (POST isEmail env body w)) = log w ++ ops /\
    bracketed false ops = true.
Proof.
  unfold POST.
  destruct (unset (DATABASE_URL env));
    [exists []; simpl; rewrite app_nil_r; auto |].
  destruct (bookingSchema_safeParse isEmail body) as [d|];
    [| exists []; simpl; rewrite app_nil_r; auto].
  rewrite book_world. apply retryLoop_bracketed.
Qed.

(** * The request schemas (lib/types.ts) *)

Lemma zString_Some (v : option JSON) (s : string) :
  zString v = Some s <-> v = Some (JString s).
Proof.
  unfold zString. split.
  - destruct v as [[| | |s'| |]|]; try discriminate. congruence.
  - intros ->. reflexivity.
Qed.

Lemma nonempty_length (s : string) :
  (1 <=? Z.of_nat (String.length s)) = true <-> s <> "".
Proof.
  destruct s; simpl.
  - split; [discriminate | congruence].
  - split; [discriminate | intros _; apply Z.leb_le; lia].
Qed.

Lemma zStringMin1_Some (v : option JSON) (s : string) :
  zStringMin1 v = Some s <-> v = Some (JString s) /\ s <> "".
Proof.
  unfold zStringMin1. split.
  - destruct (zString v) as [s'|] eqn:Hs; simpl; [| discriminate].
    apply zString_Some in Hs.
    destruct (1 <=? Z.of_nat (String.length s')) eqn:Hlen; [| discriminate].
    intros H; injection H as <-. split; [exact Hs |].
    apply nonempty_length, Hlen.
  - intros [-> Hne]. simpl.
    apply nonempty_length in Hne. rewrite Hne. reflexivity.
Qed.

Lemma zEmail_Some (isEmail : string -> bool) (v : option JSON) (s : string) :
  zEmail isEmail v = Some s <-> v = Some (JString s) /\ isEmail s = true.
Proof.
  unfold zEmail. split.
  - destruct (zString v) as [s'|] eqn:Hs; simpl; [| discriminate].
    apply zString_Some in Hs.
    destruct (isEmail s') eqn:He; [| discriminate].
    intros H; injection H as <-. auto.
  - intros [-> He]. simpl. rewrite He. reflexivity.
Qed.

Lemma zOptionalEmail_Some (isEmail : string -> bool) (v : option JSON)
    (o : option string) :
  zOptionalOrEmpty (zEmail isEmail) v = Some o <->
  (v = None /\ o = None) \/
  (exists s, v = Some (JString s) /\ o = Some s /\
             (s = "" \/ isEmail s = true)).
Proof.
  unfold zOptionalOrEmpty. split.
  - destruct v as [j|]; [| intros H; injection H as <-; auto].
    destruct (zEmail isEmail (Some j)) as [s|] eqn:He.
    + apply zEmail_Some in He as [Hj He].
      intros H; injection H as <-. right. exists s. auto.
    + unfold zLiteralEmpty.
      destruct j as [| | |s| |]; try discriminate.
      destruct (String.eqb_spec s ""); [| discriminate].
      simpl. intros H; injection H as <-. right. exists s. auto.
  - intros [[-> ->] | (s & -> & -> & Hs)]; [reflexivity |].
    unfold zEmail. simpl.
    destruct (isEmail s) eqn:He; [reflexivity |].
    destruct Hs as [-> | Hs]; [reflexivity | discriminate].
Qed.

Lemma zOptionalString_Some (v : option JSON) (o : option string) :
  zOptionalOrEmpty zString v = Some o <->
  (v = None /\ o = None) \/ (exists s, v = Some (JString s) /\ o = Some s).
Proof.
  unfold zOptionalOrEmpty. split.
  - destruct v as [j|]; [| intros H; injection H as <-; auto].
    destruct j as [| | |s| |]; simpl; try discriminate.
    intros H; injection H as <-. right. eauto.
  - intros [[-> ->] | (s & -> & ->)]; reflexivity.
Qed.

Lemma passengerSchema_Some (isEmail : string -> bool) (v : JSON)
    (p : PassengerData) :
  passengerSchema isEmail v = Some p <->
  exists fields,
    v = JObject fields /\
    (jget "firstName" fields = Some (JString (pd_firstName p)) /\
     pd_firstName p <> "") /\
    (jget "lastName" fields = Some (JString (pd_lastName p)) /\
     pd_lastName p <> "") /\
    zOptionalOrEmpty (zEmail isEmail) (jget "email" fields) = Some (pd_email p) /\
    zOptionalOrEmpty zString (jget "phone" fields) = Some (pd_phone p).
Proof.
  unfold passengerSchema. split.
  - destruct v as [| | | | |fields]; try discriminate.
    destruct (zStringMin1 (jget "firstName" fields)) as [fn|] eqn:Hfn;
      [simpl | discriminate].
    destruct (zStringMin1 (jget "lastName" fields)) as [ln|] eqn:Hln;
      [simpl | discriminate].
    destruct (zOptionalOrEmpty (zEmail isEmail) (jget "email" fields))
      as [em|] eqn:Hem; [simpl | discriminate].
    destruct (zOptionalOrEmpty zString (jget "phone" fields))
      as [ph|] eqn:Hph; [simpl | discriminate].
    intros H; injection H as <-. simpl.
    apply zStringMin1_Some in Hfn, Hln.
    exists fields. auto.
  - intros (fields & -> & Hfn & Hln & Hem & Hph).
    apply zStringMin1_Some in Hfn, Hln.
    rewrite Hfn, Hln. simpl. rewrite Hem. simpl. rewrite Hph. simpl.
    destruct p; reflexivity.
Qed.

Lemma passengerSchema_valid (isEmail : string -> bool) (v : JSON)
    (p : PassengerData) :
  passengerSchema isEmail v = Some p -> validPassenger isEmail p.
Proof.
  intros H. apply passengerSchema_Some in H
    as (fields & _ & [_ Hfn] & [_ Hln] & Hem & _).
  split; [exact Hfn |]. split; [exact Hln |].
  intros e He. rewrite He in Hem.
  apply zOptionalEmail_Some in Hem as [[_ ?] | (s & _ & Hs & Hok)];
    [discriminate |].
  injection Hs as <-. exact Hok.
Qed.

Lemma bookingSchema_Some (isEmail : string -> bool) (body : JSON)
    (d : BookingRequest) :
  bookingSchema_safeParse isEmail body = Some d <->
  exists fields items,
    body = JObject fields /\
    (jget "tripInstanceId" fields = Some (JString (req_tripInstanceId d)) /\
     req_tripInstanceId d <> "") /\
    jget "passengers" fields = Some (JArray items) /\
    Forall2 (fun item p => passengerSchema isEmail item = Some p)
      items (req_passengers d) /\
    req_passengers d <> [] /\
    (jget "contactEmail" fields = Some (JString (req_contactEmail d)) /\
     isEmail (req_contactEmail d) = true) /\
    (jget "contactPhone" fields = Some (JString (req_contactPhone d)) /\
     req_contactPhone d <> "").
Proof.
  unfold bookingSchema_safeParse. split.
  - destruct body as [| | | | |fields]; try discriminate.
    destruct (zStringMin1 (jget "tripInstanceId" fields)) as [tid|] eqn:Htid;
      [simpl | discriminate].
    unfold zPassengers.
    destruct (jget "passengers" fields) as [[| | | |items|]|] eqn:Hps;
      try discriminate.
    destruct (mapM (passengerSchema isEmail) items) as [ps|] eqn:Hmap;
      [simpl | discriminate].
    destruct (Z.leb_spec 1 (Z.of_nat (length ps))) as [Hlen|_];
      [simpl | discriminate].
    destruct (zEmail isEmail (jget "contactEmail" fields)) as [ce|] eqn:Hce;
      [simpl | discriminate].
    destruct (zStringMin1 (jget "contactPhone" fields)) as [cp|] eqn:Hcp;
      [simpl | discriminate].
    intros H; injection H as <-. simpl.
    apply zStringMin1_Some in Htid, Hcp. apply zEmail_Some in Hce.
    apply mapM_Some in Hmap.
    exists fields, items. repeat split; try tauto.
    destruct ps; [simpl in Hlen; lia | discriminate].
  - intros (fields & items & -> & Htid & Hps & Hmap & Hne & Hce & Hcp).
    apply zStringMin1_Some in Htid, Hcp. apply zEmail_Some in Hce.
    apply mapM_Some in Hmap.
    rewrite Htid. simpl. unfold zPassengers. rewrite Hps, Hmap. simpl.
    destruct (Z.leb_spec 1 (Z.of_nat (length (req_passengers d)))) as [_|Hlen].
    2:{ destruct (req_passengers d); [contradiction | simpl in Hlen; lia]. }
    simpl. rewrite Hce. simpl. rewrite Hcp. simpl.
    destruct d; reflexivity.
Qed.

Lemma bookingSchema_valid (isEmail : string -> bool) (body : JSON)
    (d : BookingRequest) :
  bookingSchema_safeParse isEmail body = Some d -> validRequest isEmail d.
Proof.
  intros H. apply bookingSchema_Some in H
    as (fields & items & _ & [_ Htid] & _ & Hall & Hne & [_ Hce] & [_ Hcp]).
  repeat split; auto.
  eapply Forall2_Forall_r; [exact Hall |].
  apply Forall_forall. intros item _ p Hp.
  eapply passengerSchema_valid, Hp.
Qed.

(** X9: Data that bookingSchema accepts is read off the body unchanged
    (tripInstanceId, contactEmail, contactPhone as the strings of those
    keys, one passenger per array element) and has a non-empty
    tripInstanceId and contactPhone, a contactEmail that passes the e-mail
    test, at least one passenger, and for each passenger non-empty names and
    an email that is absent, empty or passes the e-mail test. *)
Theorem bookingSchema_sound (isEmail : string -> bool) (body : JSON)
    (d : BookingRequest) :
  bookingSchema_safeParse isEmail body = Some d ->
  validRequest isEmail d /\
  exists fields items,
    body = JObject fields /\
    jget "tripInstanceId" fields = Some (JString (req_tripInstanceId d)) /\
    jget "passengers" fields = Some (JArray items) /\
    length items = length (req_passengers d) /\
    jget "contactEmail" fields = Some (JString (req_contactEmail d)) /\
    jget "contactPhone" fields = Some (JString (req_contactPhone d)).
Proof.
  intros H. split; [eapply bookingSchema_valid, H |].
  apply bookingSchema_Some in H
    as (fields & items & -> & [Htid _] & Hps & Hall & _ & [Hce _] & [Hcp _]).
  exists fields, items. repeat split; auto.
  eapply Forall2_length, Hall.
Qed.

Lemma bookingSchema_sound_witness :
  validRequest hasAt partyOfTwo /\
  exists fields items,
    requestJSON partyOfTwo = JObject fields /\
    jget "tripInstanceId" fields
    = Some (JString (req_tripInstanceId partyOfTwo)) /\
    jget "passengers" fields = Some (JArray items) /\
    length items = length (req_passengers partyOfTwo) /\
    jget "contactEmail" fields
    = Some (JString (req_contactEmail partyOfTwo)) /\
    jget "contactPhone" fields
    = Some (JString (req_contactPhone partyOfTwo)).
Proof.
  apply (bookingSchema_sound hasAt (requestJSON partyOfTwo) partyOfTwo).
  vm_compute. reflexivity.
Defined.

Lemma passengerSchema_roundtrip (isEmail : string -> bool)
    (p p' : PassengerData) :
  passengerSchema isEmail (passengerDataJSON p) = Some p' <->
  p' = p /\ validPassenger isEmail p.
Proof.
  rewrite passengerSchema_Some. unfold passengerDataJSON. split.
  - intros (fields & Hf & [Hfn Hfn'] & [Hln Hln'] & Hem & Hph).
    injection Hf as <-. simpl in Hfn, Hln.
    injection Hfn as Hfn. injection Hln as Hln.
    assert (Hemail : jget "email"
              ([("firstName", JString (pd_firstName p));
                ("lastName", JString (pd_lastName p))]
                 ++ property "email" (pd_email p)
                 ++ property "phone" (pd_phone p))
            = JString <$> pd_email p)
      by (destruct (pd_email p), (pd_phone p); reflexivity).
    assert (Hphone : jget "phone"
              ([("firstName", JString (pd_firstName p));
                ("lastName", JString (pd_lastName p))]
                 ++ property "email" (pd_email p)
                 ++ property "phone" (pd_phone p))
            = JString <$> pd_phone p)
      by (destruct (pd_email p), (pd_phone p); reflexivity).
    simpl app in Hemail, Hphone, Hem, Hph.
    rewrite Hemail in Hem. rewrite Hphone in Hph.
    apply zOptionalEmail_Some in Hem. apply zOptionalString_Some in Hph.
    assert (He : pd_email p' = pd_email p).
    { destruct Hem as [[Hv ->] | (s & Hv & -> & _)];
        destruct (pd_email p); simpl in Hv; congruence. }
    assert (Hp : pd_phone p' = pd_phone p).
    { destruct Hph as [[Hv ->] | (s & Hv & ->)];
        destruct (pd_phone p); simpl in Hv; congruence. }
    split.
    + destruct p, p'; simpl in *; congruence.
    + split; [congruence |]. split; [congruence |].
      intros e Hpe. rewrite Hpe in Hem. simpl in Hem.
      destruct Hem as [[Hv _] | (s & Hv & _ & Hok)]; [discriminate |].
      injection Hv as <-. exact Hok.
  - intros [-> (Hfn & Hln & Hem)].
    eexists; split; [reflexivity |]. simpl.
    repeat split; auto.
    + apply zOptionalEmail_Some.
      destruct (pd_email p) as [e|]; destruct (pd_phone p); simpl;
        try (left; split; reflexivity);
        right; exists e; repeat split; auto.
    + apply zOptionalString_Some.
      destruct (pd_email p); destruct (pd_phone p) as [ph|]; simpl;
        try (left; split; reflexivity);
        right; exists ph; repeat split; auto.
Qed.

Lemma passengers_roundtrip (isEmail : string -> bool)
    (ps ps' : list PassengerData) :
  Forall2 (fun item p => passengerSchema isEmail item = Some p)
    (map passengerDataJSON ps) ps' <->
  ps' = ps /\ Forall (validPassenger isEmail) ps.
Proof.
  revert ps'. induction ps as [|p ps IH]; intros ps'; simpl.
  - split.
    + intros H. inversion H. auto.
    + intros [-> _]. constructor.
  - split.
    + intros H. inversion H as [|item p' items ps'' Hp Hrest]; subst.
      apply passengerSchema_roundtrip in Hp as [-> Hv].
      apply IH in Hrest as [-> Hall]. auto.
    + intros [-> Hall]. inversion Hall as [|? ? Hv Hrest]; subst.
      constructor.
      * apply passengerSchema_roundtrip. auto.
      * apply IH. auto.
Qed.

Lemma requestJSON_parse (isEmail : string -> bool)
    (d d' : BookingRequest) :
  bookingSchema_safeParse isEmail (requestJSON d) = Some d' <->
  d' = d /\ validRequest isEmail d.
Proof.
  rewrite bookingSchema_Some. unfold requestJSON. split.
  - intros (fields & items & Hf & [Htid Htid'] & Hps & Hall & Hne
            & [Hce Hce'] & [Hcp Hcp']).
    injection Hf as <-. simpl in Htid, Hps, Hce, Hcp.
    injection Htid as Htid. injection Hps as <-.
    injection Hce as Hce. injection Hcp as Hcp.
    apply passengers_roundtrip in Hall as [Hps Hall].
    split; [destruct d, d'; simpl in *; congruence |].
    unfold validRequest. rewrite Htid, Hce, Hcp, <- Hps.
    repeat split; auto. rewrite Hps. exact Hall.
  - intros [-> (Htid & Hne & Hall & Hce & Hcp)].
    eexists _, _. split; [reflexivity |]. simpl.
    repeat split; auto.
    apply passengers_roundtrip. auto.
Qed.

(** X10: Parsing the JSON text of a booking request with bookingSchema gives
    back that request, with nothing added, dropped or rewritten, exactly
    when the request meets the schema's constraints, and is refused
    otherwise. *)
Theorem bookingSchema_roundtrip (isEmail : string -> bool)
    (d d' : BookingRequest) :
  bookingSchema_safeParse isEmail (requestJSON d) = Some d' <->
  d' = d /\ validRequest isEmail d.
Proof. apply requestJSON_parse. Qed.

(** ** What reaches the tables *)

Lemma orNull_Some (o : option string) (s : string) :
  orNull o = Some s <-> o = Some s /\ s <> "".
Proof.
  unfold orNull. split.
  - destruct o as [s'|]; [| discriminate].
    destruct (String.eqb_spec s' ""); [discriminate |].
    intros H; injection H as <-. auto.
  - intros [-> Hs]. destruct (String.eqb_spec s ""); [contradiction | auto].
Qed.

(** X11: Every booking the handler stores is confirmed and not cancelled,
    has a non-empty tripInstanceId and contactPhone, a contactEmail that
    passes the e-mail test, at least one passenger, and passengers with
    non-empty names whose email and phone are null rather than the empty
    string and whose email, when present, passes the e-mail test. *)
Theorem stored_booking_is_validated (isEmail : string -> bool) (env : Env)
    (body : JSON) (w : World) :
  success (fst (POST isEmail env body w)) = true ->
  exists b ref,
    resBookingRef (fst (POST isEmail env body w)) = Some ref /\
    lookupBooking ref (bookings (committed (snd (POST isEmail env body w))))
    = Some b /\
    bookingStatus b = "confirmed" /\ cancelledAt b = None /\
    tripInstanceId b <> "" /\
    isEmail (contactEmail b) = true /\
    contactPhone b <> "" /\
    passengers b <> [] /\
    Forall (fun p => firstName p <> "" /\ lastName p <> "" /\
                     email p <> Some "" /\ phone p <> Some "" /\
                     (forall e, email p = Some e -> isEmail e = true))
           (passengers b).
Proof.
  unfold POST.
  destruct (unset (DATABASE_URL env)); [discriminate |].
  destruct (bookingSchema_safeParse isEmail body) as [d|] eqn:Hparse;
    [| discriminate].
  intros Hok.
  destruct (book_success env d w Hok)
    as (snapshot & ref & Hresp & _ & _ & Hlook & _ & _).
  destruct (bookingSchema_valid _ _ _ Hparse)
    as (Htid & Hne & Hall & Hce & Hcp).
  exists (newBooking d snapshot ref), ref.
  rewrite Hresp. simpl. repeat split; auto.
  - destruct (req_passengers d); [contradiction | discriminate].
  - apply Forall_forall. intros p Hp.
    apply list_elem_of_In, in_map_iff in Hp as (pd & <- & Hpd).
    rewrite Forall_forall in Hall.
    destruct (Hall pd) as (Hfn & Hln & Hem);
      [apply list_elem_of_In; exact Hpd |].
    simpl. repeat split; auto.
    + intros H. apply orNull_Some in H as [_ H]. congruence.
    + intros H. apply orNull_Some in H as [_ H]. congruence.
    + intros e He. apply orNull_Some in He as [He Hne'].
      destruct (Hem e He); [contradiction | assumption].
Qed.

Lemma stored_booking_is_validated_witness :
  exists b ref,
    resBookingRef (fst (POST hasAt (quietEnv 0) (requestJSON partyOfTwo)
                          (initWorld smallDeparture))) = Some ref /\
    lookupBooking ref
      (bookings (committed (snd (POST hasAt (quietEnv 0)
                                   (requestJSON partyOfTwo)
                                   (initWorld smallDeparture)))))
    = Some b /\
    bookingStatus b = "confirmed" /\ cancelledAt b = None /\
    tripInstanceId b <> "" /\
    hasAt (contactEmail b) = true /\
    contactPhone b <> "" /\
    passengers b <> [] /\
    Forall (fun p => firstName p <> "" /\ lastName p <> "" /\
                     email p <> Some "" /\ phone p <> Some "" /\
                     (forall e, email p = Some e -> hasAt e = true))
           (passengers b).
Proof.
  apply (stored_booking_is_validated hasAt (quietEnv 0)
           (requestJSON partyOfTwo) (initWorld smallDeparture)).
  vm_compute. reflexivity.
Defined.

(** * The search endpoint *)

Lemma insertSorted_In {A} (compareFn : A -> A -> Z) (x y : A) (l : list A) :
  In y (insertSorted compareFn x l) <-> y = x \/ In y l.
Proof.
  induction l as [|z l IH]; simpl.
  - intuition.
  - destruct (compareFn x z <=? 0); simpl; [intuition |].
    rewrite IH. intuition.
Qed.

Lemma Array_sort_In {A} (compareFn : A -> A -> Z) (y : A) (l : list A) :
  In y (Array_sort compareFn l) <-> In y l.
Proof.
  unfold Array_sort. induction l as [|x l IH]; simpl; [reflexivity |].
  rewrite insertSorted_In, IH. intuition.
Qed.

Lemma insertSorted_Permutation {A} (compareFn : A -> A -> Z) (x : A)
    (l : list A) :
  Permutation (x :: l) (insertSorted compareFn x l).
Proof.
  induction l as [|z l IH]; simpl; [reflexivity |].
  destruct (compareFn x z <=? 0); [reflexivity |].
  rewrite <- IH. apply perm_swap.
Qed.

Lemma Array_sort_Permutation {A} (compareFn : A -> A -> Z) (l : list A) :
  Permutation l (Array_sort compareFn l).
Proof.
  unfold Array_sort. induction l as [|x l IH]; simpl; [reflexivity |].
  rewrite <- insertSorted_Permutation. now constructor.
Qed.

Section Comparator.

Context {A : Type} (compareFn : A -> A -> Z).
Hypothesis transitive : forall a b c,
  compareFn a b <= 0 -> compareFn b c <= 0 -> compareFn a c <= 0.
Hypothesis total : forall a b, compareFn a b <= 0 \/ compareFn b a <= 0.

Lemma insertSorted_inOrder (x : A) (l : list A) :
  inOrder compareFn l -> inOrder compareFn (insertSorted compareFn x l).
Proof.
  induction l as [|z l IH]; simpl.
  - intros _. split; [constructor | exact I].
  - intros [Hz Hl].
    destruct (Z.leb_spec (compareFn x z) 0) as [Hxz|Hxz]; simpl.
    + split; [| split; assumption].
      constructor; [exact Hxz |].
      eapply Forall_impl; [exact Hz |].
      intros y Hy. simpl in Hy. eapply transitive; eauto.
    + split; [| apply IH, Hl].
      apply Forall_forall. intros y Hy.
      apply list_elem_of_In, insertSorted_In in Hy as [-> | Hy].
      * destruct (total z x); [assumption | lia].
      * rewrite Forall_forall in Hz. apply Hz, list_elem_of_In, Hy.
Qed.

Lemma Array_sort_inOrder (l : list A) :
  inOrder compareFn (Array_sort compareFn l).
Proof.
  unfold Array_sort. induction l as [|x l IH]; simpl; [exact I |].
  apply insertSorted_inOrder, IH.
Qed.

End Comparator.

Lemma route_findMany_In (lib : Library) (db : Database) (o d : string)
    (dayStart dayEnd : Z) (r : TripResult) :
  In r (transformResults lib (route_findMany lib db o d dayStart dayEnd)) <->
  exists route trip instance,
    In route (routes db) /\
    containsInsensitive lib (origin route) o = true /\
    containsInsensitive lib (destination route) d = true /\
    In trip (trips db) /\ tripRouteId trip = routeId route /\
    In instance (instanceRows db) /\ instanceTripId instance = tripId trip /\
    dayStart <= date instance <= dayEnd /\
    rowStatus instance = "active" /\
    0 < rowAvailableSeats instance /\
    r = tripResult lib route trip instance.
Proof.
  unfold transformResults, route_findMany, instanceWhere. split.
  - intros H. apply in_flat_map in H as ([route routeTrips] & Hroute & H).
    apply in_map_iff in Hroute as (route' & Heq & Hroute).
    injection Heq as -> <-.
    apply filter_In in Hroute as [Hroute Hmatch].
    apply andb_true_iff in Hmatch as [Ho Hd].
    apply in_flat_map in H as ([trip tripInstances] & Htrip & H).
    apply in_map_iff in Htrip as (trip' & Heq & Htrip).
    injection Heq as -> <-.
    apply filter_In in Htrip as [Htrip Hrid].
    apply String.eqb_eq in Hrid.
    apply in_map_iff in H as (instance & <- & Hinst).
    apply filter_In in Hinst as [Hinst Hwhere].
    rewrite !andb_true_iff in Hwhere.
    destruct Hwhere as [Htid [[[Hge Hle] Hst] Hseats]].
    apply String.eqb_eq in Htid, Hst.
    apply Z.leb_le in Hge, Hle. apply Z.ltb_lt in Hseats.
    exists route, trip, instance. repeat split; auto.
  - intros (route & trip & instance & Hroute & Ho & Hd & Htrip & Hrid
            & Hinst & Htid & [Hge Hle] & Hst & Hseats & ->).
    apply in_flat_map. eexists (route, _). split.
    { apply in_map_iff. exists route. split; [reflexivity |].
      apply filter_In. split; [exact Hroute |]. now rewrite Ho, Hd. }
    apply in_flat_map. eexists (trip, _). split.
    { apply in_map_iff. exists trip. split; [reflexivity |].
      apply filter_In. split; [exact Htrip |]. now apply String.eqb_eq. }
    apply in_map_iff. exists instance. split; [reflexivity |].
    apply filter_In. split; [exact Hinst |].
    rewrite !andb_true_iff. repeat split.
    + now apply String.eqb_eq.
    + now apply Z.leb_le.
    + now apply Z.leb_le.
    + now apply String.eqb_eq.
    + now apply Z.ltb_lt.
Qed.

Lemma searchSchema_date (lib : Library) (body : JSON) (q : SearchRequest) :
  searchSchema_safeParse lib body = Some q ->
  exists searchDate, newDate lib (sr_date q) = Some searchDate.
Proof.
  unfold searchSchema_safeParse.
  destruct body as [| | | | |fields]; try discriminate.
  destruct (zStringMin1 (jget "origin" fields)) as [o|];
    [simpl | discriminate].
  destruct (zStringMin1 (jget "destination" fields)) as [d|];
    [simpl | discriminate].
  destruct (zString (jget "date" fields)) as [dt|]; [simpl | discriminate].
  destruct (newDate lib dt) as [t|] eqn:Hdate; [| discriminate].
  intros H; injection H as <-. simpl. eauto.
Qed.

Lemma search_POST_ok (lib : Library) (databaseUrl : option string)
    (body : JSON) (db : Database) (q : SearchRequest) :
  unset databaseUrl = false ->
  searchSchema_safeParse lib body = Some q ->
  exists searchDate,
    newDate lib (sr_date q) = Some searchDate /\
    search_POST lib databaseUrl None None body db
    = mkSearchResponse 200
        (Some (sortByDeparture lib
                 (transformResults lib
                    (route_findMany lib db (sr_origin q) (sr_destination q)
                       (startOfDay lib searchDate)
                       (endOfDay lib searchDate)))))
        None.
Proof.
  intros Hurl Hq. destruct (searchSchema_date _ _ _ Hq) as (t & Ht).
  exists t. split; [exact Ht |].
  unfold search_POST. rewrite Hurl, Hq, Ht. reflexivity.
Qed.

(** X12: For a valid search on a configured and reachable database the
    search handler answers 200, and its results are exactly the trip
    instances on the day searched that are active and have availableSeats >
    0, for the trips of the routes whose origin and destination contain the
    search terms, each with the route's origin, destination and distance,
    the trip's id, times and basePrice and the instance's id and
    availableSeats. *)
Theorem search_returns_the_bookable_departures (lib : Library)
    (databaseUrl : option string) (body : JSON) (db : Database)
    (q : SearchRequest) :
  unset databaseUrl = false ->
  searchSchema_safeParse lib body = Some q ->
  exists searchDate results,
    newDate lib (sr_date q) = Some searchDate /\
    search_POST lib databaseUrl None None body db
    = mkSearchResponse 200 (Some results) None /\
    forall r, In r results <-> bookableOn lib db q searchDate r.
Proof.
  intros Hurl Hq.
  destruct (search_POST_ok lib databaseUrl body db q Hurl Hq)
    as (t & Ht & Hresp).
  eexists t, _. split; [exact Ht |]. split; [exact Hresp |].
  intros r. unfold sortByDeparture. rewrite Array_sort_In.
  apply route_findMany_In.
Qed.

Lemma search_returns_the_bookable_departures_witness :
  exists searchDate results,
    newDate exampleLibrary
      (sr_date (mkSearchRequest "San" "Angeles" "2025-11-03"))
    = Some searchDate /\
    search_POST exampleLibrary (Some "postgresql://landline") None None
      (searchBodyFor "San" "Angeles" "2025-11-03") exampleDatabase
    = mkSearchResponse 200 (Some results) None /\
    forall r, In r results <->
              bookableOn exampleLibrary exampleDatabase
                (mkSearchRequest "San" "Angeles" "2025-11-03") searchDate r.
Proof.
  apply (search_returns_the_bookable_departures exampleLibrary
           (Some "postgresql://landline")
           (searchBodyFor "San" "Angeles" "2025-11-03") exampleDatabase
           (mkSearchRequest "San" "Angeles" "2025-11-03")).
  - reflexivity.
  - vm_compute. reflexivity.
Defined.

(** X13: When localeCompare orders strings consistently, the results of the
    search handler are in the order of departureTime, and they are a
    rearrangement of the instances found: sorting neither drops nor repeats
    a result. *)
Theorem search_results_sorted (lib : Library) (databaseUrl : option string)
    (queryRaw queryError : option Exn) (body : JSON) (db : Database)
    (results : list TripResult) :
  (forall a b c, localeCompare lib a b <= 0 -> localeCompare lib b c <= 0 ->
                 localeCompare lib a c <= 0) ->
  (forall a b, localeCompare lib a b <= 0 \/ localeCompare lib b a <= 0) ->
  search_results (search_POST lib databaseUrl queryRaw queryError body db)
  = Some results ->
  inOrder (byDeparture lib) results /\
  exists q searchDate,
    searchSchema_safeParse lib body = Some q /\
    newDate lib (sr_date q) = Some searchDate /\
    Permutation
      (transformResults lib
         (route_findMany lib db (sr_origin q) (sr_destination q)
            (startOfDay lib searchDate) (endOfDay lib searchDate)))
      results.
Proof.
  intros Htrans Htotal. unfold search_POST.
  destruct (unset databaseUrl); [discriminate |].
  destruct (searchSchema_safeParse lib body) as [q|] eqn:Hq; [| discriminate].
  destruct queryRaw; [discriminate |].
  destruct (newDate lib (sr_date q)) as [t|] eqn:Ht; [| discriminate].
  destruct queryError; [discriminate |].
  simpl. intros H; injection H as <-. split.
  - unfold sortByDeparture. apply (Array_sort_inOrder (byDeparture lib)).
    + intros a b c. unfold byDeparture. apply Htrans.
    + intros a b. unfold byDeparture. apply Htotal.
  - exists q, t. repeat split; auto.
    apply Array_sort_Permutation.
Qed.

Lemma search_results_sorted_witness :
  inOrder (byDeparture exampleLibrary) secondDayResults /\
  exists q searchDate,
    searchSchema_safeParse exampleLibrary
      (searchBodyFor "San" "Angeles" "2025-11-04") = Some q /\
    newDate exampleLibrary (sr_date q) = Some searchDate /\
    Permutation
      (transformResults exampleLibrary
         (route_findMany exampleLibrary exampleDatabase (sr_origin q)
            (sr_destination q)
            (startOfDay exampleLibrary searchDate)
            (endOfDay exampleLibrary searchDate)))
      secondDayResults.
Proof.
  apply (search_results_sorted exampleLibrary
           (Some "postgresql://landline") None None
           (searchBodyFor "San" "Angeles" "2025-11-04") exampleDatabase
           secondDayResults).
  - simpl. intros a b c. lia.
  - simpl. intros a b. lia.
  - vm_compute. reflexivity.
Defined.

Lemma search_response_cases (lib : Library) (databaseUrl : option string)
    (queryRaw queryError : option Exn) (body : JSON) (db : Database) :
  let r := search_POST lib databaseUrl queryRaw queryError body db in
  (search_status r = 200 /\ search_error r = None /\
   (exists results, search_results r = Some results) /\
   unset databaseUrl = false /\ queryRaw = None /\ queryError = None /\
   exists q, searchSchema_safeParse lib body = Some q)
  \/
  (search_results r = None /\
   ((search_status r = 400 /\ search_error r = Some "Invalid request" /\
     unset databaseUrl = false /\ searchSchema_safeParse lib body = None)
    \/
    (search_status r = 500 /\
     ((search_error r = Some "Database configuration error" /\
       unset databaseUrl = true)
      \/
      (search_error r = Some "Internal server error" /\
       unset databaseUrl = false /\
       (exists q, searchSchema_safeParse lib body = Some q) /\
       (queryRaw <> None \/ queryError <> None)))))).
Proof.
  unfold search_POST.
  destruct (unset databaseUrl) eqn:Hurl.
  { right. simpl. split; [reflexivity |]. right. auto. }
  destruct (searchSchema_safeParse lib body) as [q|] eqn:Hq.
  2:{ right. simpl. split; [reflexivity |]. left. auto. }
  destruct queryRaw as [e|].
  { right. simpl. split; [reflexivity |]. right.
    split; [reflexivity |]. right.
    repeat split; eauto. }
  destruct (searchSchema_date _ _ _ Hq) as (t & Ht). rewrite Ht.
  destruct queryError as [e|].
  { right. simpl. split; [reflexivity |]. right.
    split; [reflexivity |]. right.
    repeat split; eauto. }
  left. simpl. repeat split; eauto.
Qed.

(** X14: For a request whose body is JSON the search handler answers 200
    with results exactly when DATABASE_URL is set, the body passes
    searchSchema, the connection test succeeds and nothing is thrown after
    it (by prisma.route.findMany or format); otherwise it answers without
    results: 400 'Invalid request' for a body the schema refuses, 500
    'Database configuration error' for a missing DATABASE_URL, and 500
    'Internal server error' for a failed connection test or an error thrown
    after it. A date that passed the schema is never an Invalid Date in the
    query. *)
Theorem search_response_shape (lib : Library) (databaseUrl : option string)
    (queryRaw queryError : option Exn) (body : JSON) (db : Database) :
  let r := search_POST lib databaseUrl queryRaw queryError body db in
  (search_status r = 200 /\ search_error r = None /\
   (exists results, search_results r = Some results) /\
   unset databaseUrl = false /\ queryRaw = None /\ queryError = None /\
   exists q, searchSchema_safeParse lib body = Some q)
  \/
  (search_results r = None /\
   ((search_status r = 400 /\ search_error r = Some "Invalid request" /\
     unset databaseUrl = false /\ searchSchema_safeParse lib body = None)
    \/
    (search_status r = 500 /\
     ((search_error r = Some "Database configuration error" /\
       unset databaseUrl = true)
      \/
      (search_error r = Some "Internal server error" /\
       unset databaseUrl = false /\
       (exists q, searchSchema_safeParse lib body = Some q) /\
       (queryRaw <> None \/ queryError <> None)))))).
Proof. apply search_response_cases. Qed.

(** ** From a search result to a booking *)

Lemma find_unique (ts : list TripRow) (t : TripRow) :
  NoDup (map tripId ts) -> In t ts ->
  List.find (fun t' => String.eqb (tripId t') (tripId t)) ts = Some t.
Proof.
  induction ts as [|t0 ts IH]; simpl; [contradiction |].
  intros Hnd Hin. inversion Hnd as [|? ? Hnotin Hnd']; subst.
  destruct Hin as [-> | Hin].
  - rewrite String.eqb_refl. reflexivity.
  - destruct (String.eqb_spec (tripId t0) (tripId t)) as [Heq|_].
    + exfalso. apply Hnotin. rewrite Heq.
      apply list_elem_of_In, in_map, Hin.
    + apply IH; assumption.
Qed.

Lemma joinedRows_lookup (db : Database) (rows : list TripInstanceRow)
    (i : TripInstanceRow) (row : TripInstance) :
  NoDup (map instanceId rows) -> In i rows ->
  includeTrip db i = Some row ->
  joinedRows db rows !! instanceId i = Some row.
Proof.
  intros Hnd Hin Hrow.
  induction rows as [|i0 rows IH]; simpl in *; [contradiction |].
  inversion Hnd as [|? ? Hnotin Hnd']; subst.
  destruct Hin as [-> | Hin].
  - rewrite Hrow. apply lookup_insert_eq.
  - assert (Hne : instanceId i0 <> instanceId i).
    { intros Heq. apply Hnotin. rewrite Heq.
      apply list_elem_of_In, in_map, Hin. }
    destruct (includeTrip db i0).
    + rewrite lookup_insert_ne by exact Hne. apply IH; assumption.
    + apply IH; assumption.
Qed.

Lemma search_result_row (lib : Library) (databaseUrl : option string)
    (queryRaw queryError : option Exn) (body : JSON) (db : Database)
    (results : list TripResult) (r : TripResult) :
  NoDup (map tripId (trips db)) ->
  NoDup (map instanceId (instanceRows db)) ->
  search_results (search_POST lib databaseUrl queryRaw queryError body db)
  = Some results ->
  In r results ->
  exists row,
    tripInstances (storeOf db) !! tr_tripInstanceId r = Some row /\
    status row = "active" /\
    availableSeats row = tr_availableSeats r /\
    0 < availableSeats row /\
    basePrice (trip row) = tr_price r.
Proof.
  intros Htrips Hinstances. unfold search_POST.
  destruct (unset databaseUrl); [discriminate |].
  destruct (searchSchema_safeParse lib body) as [q|]; [| discriminate].
  destruct queryRaw; [discriminate |].
  destruct (newDate lib (sr_date q)) as [t|]; [| discriminate].
  destruct queryError; [discriminate |].
  simpl. intros H; injection H as <-. unfold sortByDeparture.
  rewrite Array_sort_In, route_findMany_In.
  intros (route & trip & instance & _ & _ & _ & Htrip & _ & Hinst & Htid
          & _ & Hst & Hseats & ->).
  exists (mkTripInstance (tripColumns trip) (rowAvailableSeats instance)
            (rowVersion instance) (rowStatus instance)).
  simpl. repeat split; auto.
  apply joinedRows_lookup; auto.
  unfold includeTrip. rewrite Htid, (find_unique _ _ Htrips Htrip).
  reflexivity.
Qed.

(** X15: On a database whose trip and trip-instance ids are unique, a
    booking request for a trip instance among the search results and for no
    more passengers than the availableSeats shown passes the three inventory
    checks of the booking handler on the same rows, and the row it reads has
    the seats and the price the result shows. *)
Theorem search_result_is_bookable (lib : Library)
    (databaseUrl : option string) (queryRaw queryError : option Exn) (body : JSON)
    (db : Database) (results : list TripResult) (r : TripResult)
    (d : BookingRequest) :
  NoDup (map tripId (trips db)) ->
  NoDup (map instanceId (instanceRows db)) ->
  search_results (search_POST lib databaseUrl queryRaw queryError body db)
  = Some results ->
  In r results ->
  req_tripInstanceId d = tr_tripInstanceId r ->
  passengerCount d <= tr_availableSeats r ->
  exists snapshot,
    availability d (storeOf db) = inr snapshot /\
    availableSeats snapshot = tr_availableSeats r /\
    basePrice (trip snapshot) = tr_price r.
Proof.
  intros Htrips Hinstances Hres Hin Hid Hn.
  destruct (search_result_row lib databaseUrl queryRaw queryError body db results r
              Htrips Hinstances Hres Hin)
    as (row & Hrow & Hst & Hseats & _ & Hprice).
  exists row. unfold availability. rewrite Hid, Hrow, Hst. simpl.
  destruct (Z.ltb_spec (availableSeats row) (passengerCount d)); [lia |].
  auto.
Qed.

Lemma search_result_is_bookable_witness :
  exists snapshot,
    availability partyOfTwo (storeOf exampleDatabase) = inr snapshot /\
    availableSeats snapshot = tr_availableSeats morningTrip /\
    basePrice (trip snapshot) = tr_price morningTrip.
Proof.
  apply (search_result_is_bookable exampleLibrary
           (Some "postgresql://landline") None None
           (searchBodyFor "San" "Angeles" "2025-11-03") exampleDatabase
           [morningTrip] morningTrip partyOfTwo).
  - repeat constructor; vm_compute; intros H; inversion H; subst;
      repeat match goal with
             | H : _ ∈ _ |- _ => inversion H; clear H; subst
             end.
  - repeat constructor; vm_compute; intros H; inversion H; subst;
      repeat match goal with
             | H : _ ∈ _ |- _ => inversion H; clear H; subst
             end.
  - vm_compute. reflexivity.
  - left. reflexivity.
  - reflexivity.
  - vm_compute. discriminate.
Defined.

(** * The booking form *)

Lemma splice_length {A} (start : Z) (array : list A) :
  0 <= start <= Z.of_nat (length array) ->
  splice start array = take (Z.to_nat start) array.
Proof.
  intros H. unfold splice.
  destruct (Z.ltb_spec start 0); [lia |].
  rewrite Z.min_l by lia. reflexivity.
Qed.

Lemma handleNumPassengersChange_passengers (num : Z) (st : BookingFormState) :
  0 <= num ->
  bf_passengers (handleNumPassengersChange num st)
  = take (Z.to_nat num) (bf_passengers st)
    ++ replicate (Z.to_nat num - length (bf_passengers st))
         (Some blankPassenger).
Proof.
  intros Hnum. unfold handleNumPassengersChange. simpl.
  destruct (Z.ltb_spec (Z.of_nat (length (bf_passengers st))) num) as [Hlt|Hge].
  - rewrite take_ge by lia. f_equal. f_equal. lia.
  - rewrite splice_length by lia.
    replace (Z.to_nat num - length (bf_passengers st))%nat with 0%nat by lia.
    simpl. rewrite app_nil_r. reflexivity.
Qed.

(** X16: For num >= 0, handleNumPassengersChange leaves exactly num
    passengers: the passengers already entered are kept in place up to num,
    and the positions beyond the old list are blank passengers. *)
Theorem handleNumPassengersChange_resizes (num : Z) (st : BookingFormState) :
  0 <= num ->
  let st' := handleNumPassengersChange num st in
  bf_numPassengers st' = num /\
  Z.of_nat (length (bf_passengers st')) = num /\
  (forall i, (i < length (bf_passengers st))%nat -> Z.of_nat i < num ->
             bf_passengers st' !! i = bf_passengers st !! i) /\
  (forall i, (length (bf_passengers st) <= i)%nat -> Z.of_nat i < num ->
             bf_passengers st' !! i = Some (Some blankPassenger)).
Proof.
  intros Hnum st'. subst st'.
  rewrite handleNumPassengersChange_passengers by exact Hnum.
  split; [reflexivity |]. split; [| split].
  - rewrite length_app, length_take, length_replicate. lia.
  - intros i Hi Hlt. rewrite lookup_app_l by (rewrite length_take; lia).
    apply lookup_take_lt. lia.
  - intros i Hi Hlt.
    rewrite lookup_app_r by (rewrite length_take; lia).
    apply lookup_replicate_2. rewrite length_take. lia.
Qed.

Lemma handleNumPassengersChange_resizes_witness :
  let st' := handleNumPassengersChange 3
               (updatePassenger 0 field_firstName "Ada" initialBookingForm) in
  bf_numPassengers st' = 3 /\
  Z.of_nat (length (bf_passengers st')) = 3 /\
  (forall i,
     (i < length (bf_passengers
                    (updatePassenger 0 field_firstName "Ada"
                       initialBookingForm)))%nat ->
     Z.of_nat i < 3 ->
     bf_passengers st' !! i
     = bf_passengers (updatePassenger 0 field_firstName "Ada"
                        initialBookingForm) !! i) /\
  (forall i,
     (length (bf_passengers
                (updatePassenger 0 field_firstName "Ada"
                   initialBookingForm)) <= i)%nat ->
     Z.of_nat i < 3 ->
     bf_passengers st' !! i = Some (Some blankPassenger)).
Proof.
  apply (handleNumPassengersChange_resizes 3
           (updatePassenger 0 field_firstName "Ada" initialBookingForm)).
  lia.
Defined.

Lemma passengerOptions_range (trip : TripResult) (options : list Z) (num : Z) :
  passengerOptions trip = Some options -> In num options ->
  1 <= num <= 10 /\ num <= tr_availableSeats trip.
Proof.
  unfold passengerOptions.
  destruct (Z.ltb_spec (Z.min 10 (tr_availableSeats trip)) 0) as [|Hmin];
    [discriminate |].
  intros H; injection H as <-.
  intros Hin. apply in_map_iff in Hin as (i & <- & Hi).
  apply in_seq in Hi. lia.
Qed.

Lemma withField_complete (p : option FormPassenger) (field : PassengerField)
    (value : string) :
  complete p -> complete (Some (withField p field value)).
Proof.
  intros (fn & ln & em & ph & ->).
  destruct field; simpl; unfold complete; eauto.
Qed.

Lemma handleSubmit_state (trip : TripResult)
    (fetch : JSON -> option Response) (st : BookingFormState) :
  exists message,
    fst (BookingForm_handleSubmit trip fetch st) = afterSubmit st message.
Proof.
  unfold BookingForm_handleSubmit.
  destruct (checkNames (bf_passengers st) 0); simpl; eauto.
  destruct (fetch (bookingBody trip st)) as [data|]; simpl; eauto.
  destruct (success data && negb (falsy (resBookingRef data))); simpl; eauto.
Qed.

Lemma checkNames_complete (ps : list (option FormPassenger)) (k : nat) :
  Forall complete ps -> checkNames ps k <> ReadOfUndefined.
Proof.
  intros Hall. revert k.
  induction Hall as [|p ps (fn & ln & em & ph & ->) _ IH]; intros k; simpl;
    [discriminate |].
  destruct (String.eqb fn "" || String.eqb ln ""); [discriminate | apply IH].
Qed.

Lemma reachable_invariant (trip : TripResult) (st : BookingFormState) :
  reachable trip st ->
  bf_numPassengers st = Z.of_nat (length (bf_passengers st)) /\
  1 <= bf_numPassengers st <= 10 /\
  bf_numPassengers st <= Z.max 1 (tr_availableSeats trip) /\
  Forall complete (bf_passengers st).
Proof.
  induction 1 as [|st ev _ (Hlen & Hrange & Hseats & Hall) Hoff].
  - simpl. repeat split; try lia.
    constructor; [| constructor]. unfold complete, blankPassenger. eauto.
  - destruct ev as [num|index field value|value|value|fetch];
      cbn [formStep offered] in *.
    + destruct Hoff as (options & Hopt & Hin).
      destruct (passengerOptions_range _ _ _ Hopt Hin) as [Hnum Hav].
      assert (H0 : 0 <= num) by lia.
      destruct (handleNumPassengersChange_resizes num st H0)
        as (Hn & Hl & _ & _).
      rewrite Hn, Hl. repeat split; try lia.
      rewrite handleNumPassengersChange_passengers by exact H0.
      apply Forall_app_2; [apply Forall_take, Hall |].
      apply Forall_replicate. unfold complete, blankPassenger. eauto.
    + apply Nat.ltb_lt in Hoff as Hoff'. unfold updatePassenger. simpl.
      rewrite Hoff'.
      rewrite length_insert. repeat split; try lia.
      apply Forall_insert; [exact Hall |].
      apply withField_complete.
      destruct (lookup_lt_is_Some_2 _ _ Hoff) as [p Hp].
      rewrite Hp. simpl.
      eapply Forall_lookup_1; eauto.
    + simpl. repeat split; auto; lia.
    + simpl. repeat split; auto; lia.
    + destruct (handleSubmit_state trip fetch st) as (message & ->).
      simpl. repeat split; auto; lia.
Qed.

(** X17: In every state the booking form can reach through its rendered
    controls, numPassengers equals passengers.length, lies between 1 and 10
    and does not exceed the availableSeats of the trip (when the trip has a
    seat), every passenger object has its four fields, and handleSubmit
    never reads a property of undefined. *)
Theorem form_keeps_passengers_in_step (trip : TripResult)
    (st : BookingFormState) :
  reachable trip st ->
  bf_numPassengers st = Z.of_nat (length (bf_passengers st)) /\
  1 <= bf_numPassengers st <= 10 /\
  bf_numPassengers st <= Z.max 1 (tr_availableSeats trip) /\
  Forall complete (bf_passengers st) /\
  checkNames (bf_passengers st) 0 <> ReadOfUndefined.
Proof.
  intros Hreach.
  destruct (reachable_invariant trip st Hreach) as (H1 & H2 & H3 & H4).
  repeat split; try assumption; try lia.
  apply checkNames_complete, H4.
Qed.

Lemma form_keeps_passengers_in_step_witness :
  let st := formStep morningTrip (NumPassengersChanged 2) initialBookingForm in
  bf_numPassengers st = Z.of_nat (length (bf_passengers st)) /\
  1 <= bf_numPassengers st <= 10 /\
  bf_numPassengers st <= Z.max 1 (tr_availableSeats morningTrip) /\
  Forall complete (bf_passengers st) /\
  checkNames (bf_passengers st) 0 <> ReadOfUndefined.
Proof.
  apply (form_keeps_passengers_in_step morningTrip
           (formStep morningTrip (NumPassengersChanged 2) initialBookingForm)).
  apply reachable_step; [apply reachable_initial |].
  exists [1; 2]. split; [reflexivity | right; left; reflexivity].
Defined.

(** ** Submitting the form *)

Lemma checkNames_missing (ps : list (option FormPassenger)) :
  forall (k i : nat) (p : FormPassenger),
    ps !! i = Some (Some p) ->
    falsy (fp_firstName p) || falsy (fp_lastName p) = true ->
    (forall j, (j < i)%nat -> exists q, ps !! j = Some q /\ named q) ->
    checkNames ps k = NameMissing (k + i).
Proof.
  induction ps as [|q ps IH]; intros k i p Hi Hmiss Hbefore;
    [discriminate |].
  destruct i as [|i]; simpl in *.
  - injection Hi as ->. rewrite Hmiss, Nat.add_0_r. reflexivity.
  - destruct (Hbefore 0%nat) as (q0 & Hq0 & (p0 & -> & Hfn & Hln)); [lia |].
    simpl in Hq0. injection Hq0 as ->.
    rewrite Hfn, Hln. simpl.
    rewrite (IH (S k) i p Hi Hmiss).
    + f_equal. lia.
    + intros j Hj. apply (Hbefore (S j)). lia.
Qed.

(** X18: When passenger i (counted from 0) is the first without a first or
    last name, handleSubmit sends no request whatever the server would
    answer, calls onComplete not at all, and ends with isSubmitting false
    and the error 'Please enter first and last name for passenger i+1'. *)
Theorem submit_stops_at_first_missing_name (trip : TripResult)
    (fetch : JSON -> option Response) (st : BookingFormState)
    (i : nat) (p : FormPassenger) :
  bf_passengers st !! i = Some (Some p) ->
  falsy (fp_firstName p) || falsy (fp_lastName p) = true ->
  (forall j, (j < i)%nat ->
             exists q, bf_passengers st !! j = Some q /\ named q) ->
  BookingForm_handleSubmit trip fetch st
  = (afterSubmit st
       ("Please enter first and last name for passenger "
          +:+ pretty (Z.of_nat i + 1)), None).
Proof.
  intros Hi Hmiss Hbefore. unfold BookingForm_handleSubmit.
  rewrite (checkNames_missing _ 0 i p Hi Hmiss Hbefore). reflexivity.
Qed.

Lemma submit_stops_at_first_missing_name_witness :
  BookingForm_handleSubmit morningTrip (fun _ => None)
    (handleNumPassengersChange 2
       (updatePassenger 0 field_lastName "Lovelace"
          (updatePassenger 0 field_firstName "Ada" initialBookingForm)))
  = (afterSubmit
       (handleNumPassengersChange 2
          (updatePassenger 0 field_lastName "Lovelace"
             (updatePassenger 0 field_firstName "Ada" initialBookingForm)))
       ("Please enter first and last name for passenger "
          +:+ pretty (Z.of_nat 1 + 1)), None).
Proof.
  apply (submit_stops_at_first_missing_name morningTrip (fun _ => None)
           (handleNumPassengersChange 2
              (updatePassenger 0 field_lastName "Lovelace"
                 (updatePassenger 0 field_firstName "Ada"
                    initialBookingForm)))
           1 blankPassenger).
  - reflexivity.
  - reflexivity.
  - intros j Hj. assert (j = 0%nat) by lia. subst j.
    eexists. split; [reflexivity |].
    eexists. split; [reflexivity |]. split; reflexivity.
Defined.

Lemma checkNames_AllNamed (ps : list (option FormPassenger)) (k : nat) :
  checkNames ps k = AllNamed <-> Forall named ps.
Proof.
  revert k. induction ps as [|q ps IH]; intros k; simpl.
  - split; [constructor | reflexivity].
  - destruct q as [p|].
    2:{ split; [discriminate |].
        intros H. inversion H as [|? ? (p' & Hp & _) _]. discriminate. }
    destruct (falsy (fp_firstName p)) eqn:Hfn; simpl.
    { split; [discriminate |].
      intros H. inversion H as [|? ? (p' & Hp & Hfn' & _) _].
      injection Hp as <-. congruence. }
    destruct (falsy (fp_lastName p)) eqn:Hln; simpl.
    { split; [discriminate |].
      intros H. inversion H as [|? ? (p' & Hp & _ & Hln') _].
      injection Hp as <-. congruence. }
    rewrite IH. split.
    + intros H. constructor; [| exact H]. exists p. auto.
    + intros H. inversion H. assumption.
Qed.

Lemma falsy_false (o : option string) :
  falsy o = false -> exists s, o = Some s /\ s <> "".
Proof.
  destruct o as [s|]; simpl; [| discriminate].
  destruct (String.eqb_spec s ""); [discriminate | eauto].
Qed.

Lemma passengerJSON_named (p : option FormPassenger) :
  named p ->
  passengerJSON p = passengerDataJSON (formPassengerData p) /\
  pd_firstName (formPassengerData p) <> "" /\
  pd_lastName (formPassengerData p) <> "".
Proof.
  intros (p' & -> & Hfn & Hln).
  apply falsy_false in Hfn as (fn & Hfn & Hfn').
  apply falsy_false in Hln as (ln & Hln & Hln').
  destruct p' as [f l e ph]. simpl in *. subst f l.
  unfold passengerDataJSON. simpl. auto.
Qed.

Lemma passengersJSON_named (ps : list (option FormPassenger)) :
  Forall named ps ->
  map passengerJSON ps = map passengerDataJSON (map formPassengerData ps).
Proof.
  induction 1 as [|p ps Hp _ IH]; simpl; [reflexivity |].
  rewrite IH. f_equal. apply passengerJSON_named, Hp.
Qed.

Lemma bookingBody_requestJSON (trip : TripResult) (st : BookingFormState) :
  Forall named (bf_passengers st) ->
  bookingBody trip st = requestJSON (formRequest trip st).
Proof.
  intros Hall. unfold bookingBody, requestJSON, formRequest. simpl.
  rewrite (passengersJSON_named _ Hall). reflexivity.
Qed.

Lemma formRequest_valid (isEmail : string -> bool) (trip : TripResult)
    (st : BookingFormState) :
  Forall named (bf_passengers st) ->
  validRequest isEmail (formRequest trip st) <->
  tr_tripInstanceId trip <> "" /\
  bf_passengers st <> [] /\
  (forall p e, In (Some p) (bf_passengers st) -> fp_email p = Some e ->
               e = "" \/ isEmail e = true) /\
  isEmail (bf_contactEmail st) = true /\
  bf_contactPhone st <> "".
Proof.
  intros Hnamed. unfold validRequest, formRequest. simpl.
  assert (Hall : Forall (validPassenger isEmail)
                   (map formPassengerData (bf_passengers st))
                 <-> forall p e, In (Some p) (bf_passengers st) ->
                                 fp_email p = Some e ->
                                 e = "" \/ isEmail e = true).
  { induction Hnamed as [|q ps Hq _ IH]; simpl.
    - split; [intros _ p e [] | constructor].
    - pose proof (passengerJSON_named q Hq) as (_ & Hfn & Hln).
      destruct Hq as (p' & -> & _ & _).
      split.
      + intros H. inversion H as [|? ? (_ & _ & Hem) Hrest]; subst.
        intros p e [Hp | Hp] He.
        * injection Hp as <-. apply Hem. exact He.
        * eapply (proj1 IH Hrest); eauto.
      + intros H. constructor.
        * split; [exact Hfn |]. split; [exact Hln |].
          intros e He. apply (H p' e); auto.
        * apply (proj2 IH). intros p e Hp He. apply (H p e); auto. }
  assert (Hne : map formPassengerData (bf_passengers st) <> []
                <-> bf_passengers st <> []).
  { destruct (bf_passengers st); simpl; split; congruence. }
  rewrite Hne, Hall. tauto.
Qed.

Lemma submitted_body_parse (isEmail : string -> bool)
    (trip : TripResult) (st : BookingFormState) (d : BookingRequest) :
  checkNames (bf_passengers st) 0 = AllNamed ->
  (bookingSchema_safeParse isEmail (bookingBody trip st) = Some d <->
   d = formRequest trip st /\
   tr_tripInstanceId trip <> "" /\
   bf_passengers st <> [] /\
   (forall p e, In (Some p) (bf_passengers st) -> fp_email p = Some e ->
                e = "" \/ isEmail e = true) /\
   isEmail (bf_contactEmail st) = true /\
   bf_contactPhone st <> "").
Proof.
  intros Hnames. apply checkNames_AllNamed in Hnames.
  rewrite bookingBody_requestJSON by exact Hnames.
  rewrite requestJSON_parse, formRequest_valid by exact Hnames.
  reflexivity.
Qed.

(** X19: A body the booking form sends (every passenger has both names) is
    accepted by bookingSchema exactly when the trip instance id and the
    contact phone are non-empty, the contact email passes the e-mail test
    and each passenger email is empty or passes it; the data parsed is then
    the form's data. The server never refuses such a body for a name. *)
Theorem submitted_body_is_parsed_as_entered (isEmail : string -> bool)
    (trip : TripResult) (st : BookingFormState) (d : BookingRequest) :
  checkNames (bf_passengers st) 0 = AllNamed ->
  (bookingSchema_safeParse isEmail (bookingBody trip st) = Some d <->
   d = formRequest trip st /\
   tr_tripInstanceId trip <> "" /\
   bf_passengers st <> [] /\
   (forall p e, In (Some p) (bf_passengers st) -> fp_email p = Some e ->
                e = "" \/ isEmail e = true) /\
   isEmail (bf_contactEmail st) = true /\
   bf_contactPhone st <> "").
Proof. apply submitted_body_parse. Qed.

Lemma submitted_body_is_parsed_as_entered_witness :
  bookingSchema_safeParse hasAt (bookingBody morningTrip filledForm)
  = Some (formRequest morningTrip filledForm) <->
  formRequest morningTrip filledForm = formRequest morningTrip filledForm /\
  tr_tripInstanceId morningTrip <> "" /\
  bf_passengers filledForm <> [] /\
  (forall p e, In (Some p) (bf_passengers filledForm) ->
               fp_email p = Some e -> e = "" \/ hasAt e = true) /\
  hasAt (bf_contactEmail filledForm) = true /\
  bf_contactPhone filledForm <> "".
Proof.
  apply (submitted_body_is_parsed_as_entered hasAt morningTrip filledForm
           (formRequest morningTrip filledForm)).
  reflexivity.
Defined.

(** ** From the search result to the stored booking *)

Lemma handleSubmit_completed (trip : TripResult)
    (fetch : JSON -> option Response) (st st' : BookingFormState)
    (ref : string) :
  BookingForm_handleSubmit trip fetch st = (st', Some ref) ->
  checkNames (bf_passengers st) 0 = AllNamed /\
  (exists data,
     fetch (bookingBody trip st) = Some data /\
     success data = true /\ resBookingRef data = Some ref) /\
  st' = afterSubmit st "".
Proof.
  unfold BookingForm_handleSubmit.
  destruct (checkNames (bf_passengers st) 0); try discriminate.
  destruct (fetch (bookingBody trip st)) as [data|]; [| discriminate].
  destruct (success data) eqn:Hok; simpl; [| discriminate].
  destruct (falsy (resBookingRef data)); simpl; [discriminate |].
  intros H; injection H as <- Href. eauto 10.
Qed.

Lemma reachable_request_fits (lib : Library) (databaseUrl : option string)
    (queryRaw queryError : option Exn) (body : JSON) (db : Database)
    (results : list TripResult) (selected : TripResult)
    (st : BookingFormState) :
  NoDup (map tripId (trips db)) ->
  NoDup (map instanceId (instanceRows db)) ->
  search_results (search_POST lib databaseUrl queryRaw queryError body db)
  = Some results ->
  In selected results ->
  reachable selected st ->
  passengerCount (formRequest selected st) = bf_numPassengers st /\
  exists snapshot,
    availability (formRequest selected st) (storeOf db) = inr snapshot /\
    basePrice (trip snapshot) = tr_price selected.
Proof.
  intros Htrips Hinstances Hres Hin Hreach.
  destruct (reachable_invariant selected st Hreach) as (Hlen & _ & Hmax & _).
  assert (Hcount : passengerCount (formRequest selected st)
                   = bf_numPassengers st).
  { unfold passengerCount, formRequest. simpl. rewrite length_map. lia. }
  split; [exact Hcount |].
  destruct (search_result_row lib databaseUrl queryRaw queryError body db results
              selected Htrips Hinstances Hres Hin)
    as (row & Hrow & Hst & Hseats & Hpos & Hprice).
  exists row. split; [| exact Hprice].
  unfold availability.
  change (req_tripInstanceId (formRequest selected st))
    with (tr_tripInstanceId selected).
  rewrite Hrow, Hst. simpl negb. cbv iota. rewrite Hcount.
  destruct (Z.ltb_spec (availableSeats row) (bf_numPassengers st));
    [lia | reflexivity].
Qed.

(** X20: When the form for a trip taken from the search results is submitted
    to the booking handler on the database that was searched, with nobody
    else writing, and onComplete is called with a reference, then that
    reference looks up a stored booking for the trip instance shown, with
    numPassengers passengers and a totalPrice equal to the total the form
    displays, and the form ends without error. *)
Theorem booking_is_stored_as_shown (lib : Library) (isEmail : string -> bool)
    (env : Env) (databaseUrl : option string) (queryRaw queryError : option Exn)
    (query : JSON) (db : Database) (results : list TripResult)
    (selected : TripResult) (st st' : BookingFormState) (ref : string)
    (w : World) :
  NoDup (map tripId (trips db)) ->
  NoDup (map instanceId (instanceRows db)) ->
  search_results (search_POST lib databaseUrl queryRaw queryError query db)
  = Some results ->
  In selected results ->
  reachable selected st ->
  (forall k s, others env k s = s) ->
  working w = storeOf db ->
  BookingForm_handleSubmit selected
    (fun body => Some (fst (POST isEmail env body w))) st
  = (st', Some ref) ->
  exists b,
    lookupBooking ref
      (bookings (committed (snd (POST isEmail env (bookingBody selected st)
                                   w))))
    = Some b /\
    tripInstanceId b = tr_tripInstanceId selected /\
    Z.of_nat (length (passengers b)) = bf_numPassengers st /\
    totalPrice b = BookingForm_totalPrice selected st /\
    bf_error st' = "" /\ bf_isSubmitting st' = false.
Proof.
  intros Htrips Hinstances Hres Hin Hreach Hquiet Hw Hsubmit.
  destruct (handleSubmit_completed _ _ _ _ _ Hsubmit)
    as (Hnames & (data & Hdata & Hok & Href) & ->).
  injection Hdata as <-.
  destruct (reachable_request_fits lib databaseUrl queryRaw queryError query db results
              selected st Htrips Hinstances Hres Hin Hreach)
    as (Hcount & snapshot & Hav & Hprice).
  revert Hok Href. unfold POST.
  destruct (unset (DATABASE_URL env)); [discriminate |].
  destruct (bookingSchema_safeParse isEmail (bookingBody selected st))
    as [d|] eqn:Hparse; [| discriminate].
  apply (submitted_body_parse isEmail selected st d Hnames) in Hparse
    as [-> _].
  destruct (undisturbed_book env (formRequest selected st) w
              (Hquiet (yields w)))
    as [Hbook _].
  pose proof (undisturbed_attempt env (formRequest selected st) w
                (Hquiet (yields w)))
    as Hatt.
  rewrite Hw, Hav in Hatt. rewrite Hbook.
  destruct Hatt as [(ref0 & w' & Hrun) | (w' & Hrun)]; rewrite Hrun;
    simpl; [| discriminate].
  intros _ Href. injection Href as <-.
  destruct (booked_attempt _ _ _ _ _ Hrun)
    as (snapshot' & row & ref' & Hb & Hav' & _ & _ & Hfree & Hc & _).
  rewrite Hw, Hav in Hav'. injection Hav' as <-.
  assert (ref' = ref0) by (apply (f_equal bookingRef) in Hb; auto).
  subst ref'.
  exists (newBooking (formRequest selected st) snapshot ref0).
  rewrite Hc. simpl. repeat split.
  - apply lookupBooking_last; [exact Hfree | reflexivity].
  - rewrite !length_map.
    destruct (reachable_invariant selected st Hreach) as (Hlen & _). lia.
  - unfold BookingForm_totalPrice. rewrite Hprice.
    fold (passengerCount (formRequest selected st)). rewrite Hcount.
    reflexivity.
Qed.

Lemma filledForm_reachable : reachable morningTrip filledForm.
Proof.
  unfold filledForm.
  repeat (apply reachable_step; [| simpl; try lia; exact I]).
  apply reachable_initial.
Qed.

Lemma booking_is_stored_as_shown_witness :
  exists b,
    lookupBooking "ABCDEF"
      (bookings
         (committed
            (snd (POST hasAt (quietEnv 0) (bookingBody morningTrip filledForm)
                    (initWorld (storeOf exampleDatabase))))))
    = Some b /\
    tripInstanceId b = tr_tripInstanceId morningTrip /\
    Z.of_nat (length (passengers b)) = bf_numPassengers filledForm /\
    totalPrice b = BookingForm_totalPrice morningTrip filledForm /\
    bf_error (afterSubmit filledForm "") = "" /\
    bf_isSubmitting (afterSubmit filledForm "") = false.
Proof.
  apply (booking_is_stored_as_shown exampleLibrary hasAt (quietEnv 0)
           (Some "postgresql://landline") None None
           (searchBodyFor "San" "Angeles" "2025-11-03") exampleDatabase
           [morningTrip] morningTrip filledForm (afterSubmit filledForm "")
           "ABCDEF" (initWorld (storeOf exampleDatabase))).
  - repeat constructor; vm_compute; intros H; inversion H; subst;
      repeat match goal with
             | H : _ ∈ _ |- _ => inversion H; clear H; subst
             end.
  - repeat constructor; vm_compute; intros H; inversion H; subst;
      repeat match goal with
             | H : _ ∈ _ |- _ => inversion H; clear H; subst
             end.
  - vm_compute. reflexivity.
  - left. reflexivity.
  - exact filledForm_reachable.
  - intros k s. reflexivity.
  - reflexivity.
  - vm_compute. reflexivity.
Defined.

Lemma passengerJSON_complete (p : option FormPassenger) :
  complete p -> passengerJSON p = passengerDataJSON (formPassengerData p).
Proof.
  intros (fn & ln & em & ph & ->). reflexivity.
Qed.

Lemma bookingBody_complete (selected : TripResult) (st : BookingFormState) :
  Forall complete (bf_passengers st) ->
  bookingBody selected st = requestJSON (formRequest selected st).
Proof.
  intros Hall. unfold bookingBody, requestJSON, formRequest. simpl.
  do 3 f_equal.
  assert (map passengerJSON (bf_passengers st)
          = map passengerDataJSON (map formPassengerData (bf_passengers st)))
    as ->; [| reflexivity].
  induction Hall as [|p ps Hp _ IH]; simpl; [reflexivity |].
  rewrite IH. f_equal. apply passengerJSON_complete, Hp.
Qed.



(** * The search form and the page *)

(** X22: When the search form calls onSearch, it passes its origin,
    destination and date, all non-empty and origin different from
    destination, and clears its error; searchSchema accepts the body built
    from them exactly when the date parses, so such a query is never refused
    for its origin or destination. *)
Theorem search_form_submits_complete_queries (lib : Library)
    (st st' : SearchFormState) (o d dt : string) :
  SearchForm_handleSubmit st = (st', Some (o, d, dt)) ->
  (o, d, dt) = (sf_origin st, sf_destination st, sf_date st) /\
  o <> "" /\ d <> "" /\ dt <> "" /\ o <> d /\
  sf_error st' = "" /\
  searchSchema_safeParse lib (searchBody o d dt)
  = match newDate lib dt with
    | Some _ => Some (mkSearchRequest o d dt)
    | None => None
    end.
Proof.
  unfold SearchForm_handleSubmit.
  destruct (String.eqb_spec (sf_origin st) "") as [|Ho]; [discriminate |].
  destruct (String.eqb_spec (sf_destination st) "") as [|Hd];
    [discriminate |].
  destruct (String.eqb_spec (sf_date st) "") as [|Hdt]; [discriminate |].
  destruct (String.eqb_spec (sf_origin st) (sf_destination st)) as [|Hne];
    [discriminate |].
  simpl. intros H; injection H as <- <- <- <-.
  repeat split; auto.
  unfold searchSchema_safeParse, searchBody. simpl.
  assert (Hmin : forall s, s <> "" ->
                           zStringMin1 (Some (JString s)) = Some s)
    by (intros s Hs; apply zStringMin1_Some; auto).
  rewrite (Hmin _ Ho), (Hmin _ Hd). reflexivity.
Qed.

Lemma search_form_submits_complete_queries_witness :
  ("San Francisco", "Los Angeles", "2025-11-03")
  = (sf_origin (mkSearchFormState "San Francisco" "Los Angeles"
                  "2025-11-03" "Please fill in all fields"),
     sf_destination (mkSearchFormState "San Francisco" "Los Angeles"
                       "2025-11-03" "Please fill in all fields"),
     sf_date (mkSearchFormState "San Francisco" "Los Angeles"
                "2025-11-03" "Please fill in all fields")) /\
  "San Francisco" <> "" /\ "Los Angeles" <> "" /\ "2025-11-03" <> "" /\
  "San Francisco" <> "Los Angeles" /\
  sf_error (mkSearchFormState "San Francisco" "Los Angeles" "2025-11-03" "")
  = "" /\
  searchSchema_safeParse exampleLibrary
    (searchBody "San Francisco" "Los Angeles" "2025-11-03")
  = match newDate exampleLibrary "2025-11-03" with
    | Some _ =>
        Some (mkSearchRequest "San Francisco" "Los Angeles" "2025-11-03")
    | None => None
    end.
Proof.
  apply (search_form_submits_complete_queries exampleLibrary
           (mkSearchFormState "San Francisco" "Los Angeles" "2025-11-03"
              "Please fill in all fields")
           (mkSearchFormState "San Francisco" "Los Angeles" "2025-11-03" "")
           "San Francisco" "Los Angeles" "2025-11-03").
  reflexivity.
Defined.

(** X23: handleSearch records the search parameters and moves the page to
    the results step, without an alert, exactly when the search handler
    answers 200 (also with an empty result list); for every error response
    of the search handler the page stays as it is and alerts 'No trips found
    for your search'. *)
Theorem page_shows_results_iff_search_answers (lib : Library)
    (databaseUrl : option string) (queryRaw queryError : option Exn) (db : Database)
    (o d dt : string) (st : HomeState) :
  let response := search_POST lib databaseUrl queryRaw queryError (searchBody o d dt) db in
  let after :=
    handleSearch o d dt
      (fun body => Some (search_POST lib databaseUrl queryRaw queryError body db)) st in
  home_searchParams (fst after) = (o, d, dt) /\
  home_selectedTrip (fst after) = home_selectedTrip st /\
  home_bookingRef (fst after) = home_bookingRef st /\
  match search_results response with
  | Some results =>
      search_status response = 200 /\
      home_step (fst after) = step_results /\
      home_searchResults (fst after) = results /\
      snd after = None
  | None =>
      search_status response <> 200 /\
      home_step (fst after) = home_step st /\
      home_searchResults (fst after) = home_searchResults st /\
      snd after = Some "No trips found for your search"
  end.
Proof.
  intros response after. subst response after. unfold handleSearch.
  pose proof (search_response_cases lib databaseUrl queryRaw queryError
                (searchBody o d dt) db) as Hshape.
  destruct (search_results
              (search_POST lib databaseUrl queryRaw queryError (searchBody o d dt) db))
    as [results|] eqn:Hres; simpl; cbv zeta in Hshape.
  - repeat split; auto.
    destruct Hshape as [(H200 & _) | (Hnone & _)]; congruence.
  - repeat split; auto. intros H200.
    destruct Hshape as [(_ & _ & (results & Hsome) & _) | (_ & Herr)];
      [congruence |].
    destruct Herr as [(H400 & _) | (H500 & _)]; lia.
Qed.

(** ** The steps of the page *)

Lemma handleSearch_split (o d dt : string)
    (fetch : JSON -> option SearchResponse) (st : HomeState) :
  handleSearch o d dt fetch st
  = searchAnswered (fetch (searchBody o d dt)) (searchRequested o d dt st).
Proof. reflexivity. Qed.

Lemma dispatch_invariant (ev : HomeEvent) (st : HomeState) :
  (home_step st = step_booking ->
   exists selected, home_selectedTrip st = Some selected
                    /\ In selected (home_searchResults st)) ->
  (home_step (dispatch ev st) = step_booking ->
   exists selected, home_selectedTrip (dispatch ev st) = Some selected
                    /\ In selected (home_searchResults (dispatch ev st))).
Proof.
  destruct ev; cbn [dispatch]; unfold rendered, searchAnswered;
    repeat match goal with
           | |- context [match ?x with _ => _ end] => destruct x eqn:?
           end;
    simpl; try (intros H; exact H); try (intros _; discriminate).
  intros _ _. eexists. split; [reflexivity |].
  apply list_elem_of_In. eapply list_elem_of_lookup_2. eassumption.
Qed.

(** X24: After every sequence of user actions and of late answers to the
    page's requests (the answer to a search or to a booking arrives whatever
    the page shows by then) exactly the panel of the current step is
    rendered: the page is never blank, and in the booking step a trip is
    selected and it is one of the search results on display. The
    confirmation step does not keep that:
    late_confirmation_keeps_the_earlier_trip reaches it with a selected trip
    that is not among the results. *)
Theorem page_always_renders_a_panel (events : list HomeEvent) :
  let st := fold_left (fun st ev => dispatch ev st) events initialHome in
  rendered st = Some (home_step st) /\
  (home_step st = step_booking ->
   exists selected, home_selectedTrip st = Some selected
                    /\ In selected (home_searchResults st)).
Proof.
  intros st.
  assert (Hinv : home_step st = step_booking ->
                 exists selected, home_selectedTrip st = Some selected
                                  /\ In selected (home_searchResults st)).
  { subst st.
    assert (Hinit : home_step initialHome = step_booking ->
                    exists selected,
                      home_selectedTrip initialHome = Some selected
                      /\ In selected (home_searchResults initialHome))
      by discriminate.
    revert Hinit. generalize initialHome.
    induction events as [|ev events IH]; intros st0 Hst0; simpl;
      [exact Hst0 |].
    apply IH, dispatch_invariant, Hst0. }
  split; [| exact Hinv].
  unfold rendered. destruct (home_step st) eqn:Hstep; try reflexivity.
  destruct Hinv as (selected & -> & _); auto.
Qed.

(** An answer that arrives late finds another page: the booking form has
    sent its request, the user goes back twice and searches again, and
    when the booking is answered the confirmation is shown with the trip
    selected earlier, which is not among the results of the new search. *)
Lemma late_confirmation_keeps_the_earlier_trip :
  let answer results := Some (mkSearchResponse 200 (Some results) None) in
  let st :=
    fold_left (fun st ev => dispatch ev st)
      [SearchSubmitted "San" "Angeles" "2025-11-03";
       SearchAnswered (answer [morningTrip]);
       TripSelected 0; BackToResults; BackToSearch;
       SearchSubmitted "San" "Angeles" "2025-11-04";
       SearchAnswered (answer secondDayResults);
       BookingCompleted "ABCDEF"]
      initialHome in
  rendered st = Some step_confirmation /\
  home_bookingRef st = "ABCDEF" /\
  home_selectedTrip st = Some morningTrip /\
  home_searchResults st = secondDayResults /\
  ~ In morningTrip (home_searchResults st).
Proof.
  repeat split.
  vm_compute. intros [H|[H|[]]]; discriminate.
Qed.

(** * The reference generator *)

#[local] Transparent generateBookingRef.

Lemma randomIndex_draw (i : Z) : randomIndex (i # 32) = i.
Proof.
  unfold randomIndex, Qfloor, Qmult, inject_Z.
  change (Z.of_nat (String.length chars)) with 32.
  cbn [Qnum Qden]. change (Z.pos (32 * 1)) with 32.
  apply Z.div_mul. discriminate.
Qed.

Lemma indexOf_get (c : ascii) (s : string) :
  In c (String.list_ascii_of_string s) ->
  String.get (indexOf c s) s = Some c /\ (indexOf c s < String.length s)%nat.
Proof.
  induction s as [|c' s IH]; simpl; [contradiction |].
  destruct (Ascii.eqb_spec c c') as [->|Hne].
  - intros _. split; [reflexivity | lia].
  - intros [Heq | Hin]; [congruence |].
    destruct (IH Hin) as [Hget Hlt]. split; [exact Hget | lia].
Qed.

Lemma append_char (a : string) (c : ascii) (rest : string) :
  (a +:+ String c "") +:+ rest = a +:+ String c rest.
Proof.
  induction a as [|x a IH].
  - reflexivity.
  - change ((String x a +:+ String c "") +:+ rest)
      with (String x ((a +:+ String c "") +:+ rest)).
    change (String x a +:+ String c rest)
      with (String x (a +:+ String c rest)).
    now rewrite IH.
Qed.

Lemma append_empty (a : string) : a +:+ "" = a.
Proof.
  induction a as [|x a IH]; [reflexivity |].
  change (String x a +:+ "") with (String x (a +:+ "")). now rewrite IH.
Qed.

Lemma generateLoop_spells (random : nat -> Q) (rest : string) :
  forall (pos : nat) (acc : string),
    Forall inAlphabet (String.list_ascii_of_string rest) ->
    (forall k c, String.get k rest = Some c ->
                 randomIndex (random (pos + k)%nat)
                 = Z.of_nat (indexOf c chars)) ->
    generateLoop random (String.length rest) pos acc
    = (acc +:+ rest, (pos + String.length rest)%nat).
Proof.
  induction rest as [|c rest IH]; intros pos acc Hall Hdraw; simpl.
  - rewrite append_empty, Nat.add_0_r. reflexivity.
  - inversion Hall as [|? ? Hc Hrest]; subst.
    rewrite (IH (S pos)); [| exact Hrest |].
    + rewrite <- (Nat.add_0_r pos) at 1.
      rewrite (Hdraw 0%nat c eq_refl).
      destruct (indexOf_get c chars Hc) as [Hget _].
      unfold charAt.
      destruct (Z.ltb_spec (Z.of_nat (indexOf c chars)) 0); [lia |].
      rewrite Nat2Z.id, Hget, append_char.
      f_equal. lia.
    + intros k c' Hk. rewrite <- (Hdraw (S k) c' Hk). f_equal. f_equal. lia.
Qed.

(** X25: Every string of 6 characters of the alphabet is a reference the
    generator returns for suitable draws of Math.random() in [0, 1): the
    draw (index of the character)/32 at each position spells the string out,
    using 6 draws. *)
Theorem generateBookingRef_reaches_every_code (ref : string) :
  String.length ref = 6%nat ->
  Forall inAlphabet (String.list_ascii_of_string ref) ->
  (forall k, (0 <= drawsFor ref k)%Q /\ (drawsFor ref k < 1)%Q) /\
  generateBookingRef (drawsFor ref) 0 = (ref, 6%nat).
Proof.
  intros Hlen Hall. split.
  - intros k. unfold drawsFor.
    destruct (String.get k ref) as [c|] eqn:Hget;
      [| split; [apply Qle_refl | reflexivity]].
    assert (Hc : inAlphabet c).
    { rewrite Forall_forall in Hall. apply Hall, list_elem_of_In.
      eapply get_In, Hget. }
    destruct (indexOf_get c chars Hc) as [_ Hlt].
    change (String.length chars) with 32%nat in Hlt.
    set (i := indexOf c chars) in *.
    unfold Qle, Qlt. cbn [Qnum Qden]. lia.
  - unfold generateBookingRef. rewrite <- Hlen.
    rewrite (generateLoop_spells (drawsFor ref) ref 0 "" Hall).
    + reflexivity.
    + intros k c Hget. unfold drawsFor. cbn [Nat.add]. rewrite Hget.
      apply randomIndex_draw.
Qed.

Lemma inAlphabet_check (s : string) :
  forallb (fun c => existsb (Ascii.eqb c) (String.list_ascii_of_string chars))
          (String.list_ascii_of_string s) = true ->
  Forall inAlphabet (String.list_ascii_of_string s).
Proof.
  intros H. apply Forall_forall. intros c Hc.
  rewrite forallb_forall in H.
  specialize (H c (proj1 (list_elem_of_In _ _) Hc)).
  apply existsb_exists in H as (c' & Hin & Heq).
  apply Ascii.eqb_eq in Heq. subst c'. exact Hin.
Qed.

Lemma generateBookingRef_reaches_every_code_witness :
  (forall k, (0 <= drawsFor "K7XQ2M" k)%Q /\ (drawsFor "K7XQ2M" k < 1)%Q) /\
  generateBookingRef (drawsFor "K7XQ2M") 0 = ("K7XQ2M", 6%nat).
Proof.
  apply (generateBookingRef_reaches_every_code "K7XQ2M").
  - reflexivity.
  - apply inAlphabet_check. reflexivity.
Defined.

Lemma get_nth_error (s : string) (n : nat) :
  String.get n s = nth_error (String.list_ascii_of_string s) n.
Proof.
  revert n. induction s as [|c s IH]; intros [|n]; simpl; auto.
Qed.

Lemma alphabet_NoDup : NoDup (String.list_ascii_of_string chars).
Proof. apply (bool_decide_unpack _). vm_compute. reflexivity. Qed.

Lemma charAt_injective (i j : Z) :
  0 <= i < 32 -> 0 <= j < 32 -> charAt chars i = charAt chars j -> i = j.
Proof.
  intros Hi Hj. unfold charAt.
  destruct (Z.ltb_spec i 0) as [|_]; [lia |].
  destruct (Z.ltb_spec j 0) as [|_]; [lia |].
  destruct (get_lt chars (Z.to_nat i)) as (ci & Hci);
    [change (String.length chars) with 32%nat; lia |].
  destruct (get_lt chars (Z.to_nat j)) as (cj & Hcj);
    [change (String.length chars) with 32%nat; lia |].
  rewrite Hci, Hcj. intros Heq; injection Heq as <-.
  rewrite get_nth_error in Hci, Hcj.
  assert (Z.to_nat i = Z.to_nat j); [| lia].
  apply (proj1 (NoDup_nth_error _)
           (proj1 (NoDup_ListNoDup _) alphabet_NoDup)).
  - change (length (String.list_ascii_of_string chars)) with 32%nat. lia.
  - congruence.
Qed.

Lemma append_inv_char (a b : string) (x y : ascii) :
  String.length a = String.length b ->
  a +:+ String x "" = b +:+ String y "" -> a = b /\ x = y.
Proof.
  revert b. induction a as [|c a IH]; intros [|c' b] Hlen; simpl in Hlen;
    try discriminate.
  - intros H. injection H as ->. auto.
  - change (String c a +:+ String x "")
      with (String c (a +:+ String x "")).
    change (String c' b +:+ String y "")
      with (String c' (b +:+ String y "")).
    intros H. injection H as -> H.
    destruct (IH b) as [-> ->]; auto.
Qed.

Lemma generateLoop_injective (random1 random2 : nat -> Q) :
  (forall k, (0 <= random1 k)%Q /\ (random1 k < 1)%Q) ->
  (forall k, (0 <= random2 k)%Q /\ (random2 k < 1)%Q) ->
  forall n pos1 pos2 acc1 acc2,
    String.length acc1 = String.length acc2 ->
    fst (generateLoop random1 n pos1 acc1)
    = fst (generateLoop random2 n pos2 acc2) ->
    acc1 = acc2 /\
    forall k, (k < n)%nat ->
              randomIndex (random1 (pos1 + k)%nat)
              = randomIndex (random2 (pos2 + k)%nat).
Proof.
  intros H1 H2.
  induction n as [|n IH]; intros pos1 pos2 acc1 acc2 Hlen; simpl.
  - intros ->. split; [reflexivity | intros k Hk; lia].
  - destruct (H1 pos1) as [H10 H11]. destruct (H2 pos2) as [H20 H21].
    pose proof (randomIndex_range _ H10 H11) as Hr1.
    pose proof (randomIndex_range _ H20 H21) as Hr2.
    destruct (charAt_alphabet _ Hr1) as (c1 & Hc1 & _).
    destruct (charAt_alphabet _ Hr2) as (c2 & Hc2 & _).
    intros Heq.
    apply IH in Heq as [Hacc Hrest].
    2:{ rewrite !length_append, Hc1, Hc2, Hlen. reflexivity. }
    rewrite Hc1, Hc2 in Hacc.
    apply append_inv_char in Hacc as [-> Hc]; [| exact Hlen].
    split; [reflexivity |].
    intros [|k] Hk.
    + rewrite !Nat.add_0_r.
      change (Z.of_nat (String.length chars)) with 32 in Hr1, Hr2.
      apply charAt_injective; congruence.
    + replace (pos1 + S k)%nat with (S pos1 + k)%nat by lia.
      replace (pos2 + S k)%nat with (S pos2 + k)%nat by lia.
      apply Hrest. lia.
Qed.

Lemma generateLoop_same_indices (random1 random2 : nat -> Q) :
  forall n pos1 pos2 acc,
    (forall k, (k < n)%nat ->
               randomIndex (random1 (pos1 + k)%nat)
               = randomIndex (random2 (pos2 + k)%nat)) ->
    fst (generateLoop random1 n pos1 acc)
    = fst (generateLoop random2 n pos2 acc).
Proof.
  induction n as [|n IH]; intros pos1 pos2 acc Hk; [reflexivity |].
  cbn [generateLoop].
  pose proof (Hk 0%nat ltac:(lia)) as H0. rewrite !Nat.add_0_r in H0.
  rewrite H0. apply IH.
  intros k Hlt.
  replace (S pos1 + k)%nat with (pos1 + S k)%nat by lia.
  replace (S pos2 + k)%nat with (pos2 + S k)%nat by lia.
  apply Hk. lia.
Qed.

(** X26: Two runs of the generator return the same reference exactly when
    they draw the same six alphabet indices in the same order: the alphabet
    has no repeated character, so distinct index sequences give distinct
    references. *)
Theorem generateBookingRef_code_determines_draws (random1 random2 : nat -> Q)
    (pos1 pos2 : nat) :
  (forall k, (0 <= random1 k)%Q /\ (random1 k < 1)%Q) ->
  (forall k, (0 <= random2 k)%Q /\ (random2 k < 1)%Q) ->
  fst (generateBookingRef random1 pos1) = fst (generateBookingRef random2 pos2)
  <->
  forall k, (k < 6)%nat ->
            randomIndex (random1 (pos1 + k)%nat)
            = randomIndex (random2 (pos2 + k)%nat).
Proof.
  intros H1 H2. unfold generateBookingRef. split.
  - intros Heq.
    apply (generateLoop_injective random1 random2 H1 H2 6 pos1 pos2 "" "");
      auto.
  - intros Hk. apply generateLoop_same_indices. exact Hk.
Qed.

Lemma generateBookingRef_code_determines_draws_witness :
  fst (generateBookingRef (draws 0) 0) = fst (generateBookingRef midDraws 0)
  <->
  forall k, (k < 6)%nat ->
            randomIndex (draws 0 (0 + k)%nat)
            = randomIndex (midDraws (0 + k)%nat).
Proof.
  apply (generateBookingRef_code_determines_draws (draws 0) midDraws 0 0).
  - intros k. unfold draws, Qle, Qlt. cbn [Qnum Qden].
    pose proof (Nat.mod_upper_bound (0 + k) 32). lia.
  - intros k. unfold midDraws, Qle, Qlt. cbn [Qnum Qden].
    pose proof (Nat.mod_upper_bound k 32). lia.
Defined.

#[local] Opaque generateBookingRef.

(** * The seed script *)

Lemma seatReduction_range (t : Trip) (r : Q) :
  (0 <= r)%Q -> (r < 1)%Q ->
  capacity t - 9 <= availableSeats (seedTripInstance t r) <= capacity t.
Proof.
  intros H0 H1.
  assert (Hr : 0 <= Qfloor (r * inject_Z 10) < 10).
  { split.
    - change 0 with (Qfloor 0). apply Qfloor_resp_le.
      apply Qmult_le_0_compat; [exact H0 | discriminate].
    - rewrite Zlt_Qlt. eapply Qle_lt_trans; [apply Qfloor_le |].
      eapply Qlt_le_trans;
        [apply Qmult_lt_compat_r; [reflexivity | exact H1] |].
      rewrite Qmult_1_l. apply Qle_refl. }
  unfold seedTripInstance.
  set (reduction := Qfloor (r * inject_Z 10)) in *.
  cbn [availableSeats]. lia.
Qed.

Lemma seedTrips_rows (random : nat -> Q) (cuid : nat -> string)
    (getDay : Z -> Z) (date0 : Z) (createdTrips : list TripRow) :
  (forall k, (0 <= random k)%Q /\ (random k < 1)%Q) ->
  forall all count rows count',
    (forall t, In t createdTrips -> In t all) ->
    seedTrips random cuid date0 (pretty (getDay date0)) createdTrips count
    = (rows, count') ->
    Forall (seededRow getDay all) rows.
Proof.
  intros Hrandom all.
  induction createdTrips as [|trip rest IH]; intros count rows count' Hsub;
    simpl.
  - intros H; injection H as <- <-. constructor.
  - destruct (existsb (String.eqb (pretty (getDay date0)))
                (split_comma (daysOfWeek trip))) eqn:Hday.
    + destruct (seedTrips random cuid date0 (pretty (getDay date0)) rest
                  (S count)) as [rows1 count1] eqn:Hrest.
      intros H; injection H as <- <-.
      constructor.
      * exists trip. simpl.
        destruct (Hrandom count) as [H0 H1].
        repeat split; try (apply seatReduction_range; assumption).
        -- apply Hsub. left. reflexivity.
        -- apply existsb_exists in Hday as (piece & Hin & Heq).
           apply String.eqb_eq in Heq. now subst piece.
      * eapply IH; [| exact Hrest]. intros t Ht. apply Hsub. right. exact Ht.
    + intros H. eapply IH; [| exact H].
      intros t Ht. apply Hsub. right. exact Ht.
Qed.

Lemma seedDays_rows (random : nat -> Q) (cuid : nat -> string)
    (dateOf : nat -> Z) (getDay : Z -> Z) (createdTrips : list TripRow) :
  (forall k, (0 <= random k)%Q /\ (random k < 1)%Q) ->
  forall days i count,
    Forall (seededRow getDay createdTrips)
      (seedDays random cuid dateOf getDay createdTrips days i count).
Proof.
  intros Hrandom. induction days as [|days IH]; intros i count; simpl.
  - constructor.
  - destruct (seedTrips random cuid (dateOf i) (pretty (getDay (dateOf i)))
                createdTrips count) as [rows count'] eqn:Hrows.
    apply Forall_app_2; [| apply IH].
    eapply seedTrips_rows; eauto.
Qed.

Lemma joinedRows_lookup_inv (db : Database) (rows : list TripInstanceRow)
    (id : string) (row : TripInstance) :
  joinedRows db rows !! id = Some row ->
  exists i, In i rows /\ instanceId i = id /\ includeTrip db i = Some row.
Proof.
  induction rows as [|i0 rows IH]; simpl.
  - rewrite lookup_empty. discriminate.
  - destruct (includeTrip db i0) as [row0|] eqn:Hrow0.
    + destruct (decide (instanceId i0 = id)) as [<-|Hne].
      * rewrite lookup_insert_eq. intros H; injection H as <-. eauto.
      * rewrite lookup_insert_ne by exact Hne.
        intros H. destruct (IH H) as (i & Hin & Hid & Hrow). eauto.
    + intros H. destruct (IH H) as (i & Hin & Hid & Hrow). eauto.
Qed.

(** X27: Every trip instance the seed script creates belongs to one of the
    created trips, falls on a day whose getDay() is listed in the trip's
    daysOfWeek, is active at version 0 and has between capacity - 9 and
    capacity seats; with unique trip ids and capacities of at least 9 the
    seeded database, read as the booking handler reads it, satisfies the
    consistency the capacity invariant starts from. *)
Theorem seeded_database_is_consistent (random : nat -> Q)
    (cuid : nat -> string) (dateOf : nat -> Z) (getDay : Z -> Z)
    (createdRoutes : list Route) (createdTrips : list TripRow) :
  (forall k, (0 <= random k)%Q /\ (random k < 1)%Q) ->
  NoDup (map tripId createdTrips) ->
  Forall (fun t => 9 <= capacity (tripColumns t)) createdTrips ->
  let rows := seedInstances random cuid dateOf getDay createdTrips in
  Forall (seededRow getDay createdTrips) rows /\
  consistent (storeOf (mkDatabase createdRoutes createdTrips rows [])).
Proof.
  intros Hrandom Hids Hcap rows.
  assert (Hrows : Forall (seededRow getDay createdTrips) rows)
    by (apply seedDays_rows, Hrandom).
  split; [exact Hrows |].
  intros id row Hlook. unfold storeOf in Hlook. simpl in Hlook.
  apply joinedRows_lookup_inv in Hlook as (i & Hin & _ & Hrow).
  rewrite Forall_forall in Hrows.
  destruct (Hrows i) as (t & Ht & Htid & _ & Hseats & _ & _);
    [apply list_elem_of_In, Hin |].
  unfold includeTrip in Hrow. simpl in Hrow.
  rewrite Htid, (find_unique _ _ Hids Ht) in Hrow. simpl in Hrow.
  injection Hrow as <-. simpl.
  rewrite Forall_forall in Hcap.
  specialize (Hcap t (proj2 (list_elem_of_In _ _) Ht)). simpl in Hcap. lia.
Qed.

Lemma seeded_database_is_consistent_witness :
  let rows := seedInstances (draws 0) (fun k => "dep" +:+ pretty (Z.of_nat k))
                (fun i => 1762128000000 + Z.of_nat i * 86400000)
                (fun t => (t / 86400000 + 4) mod 7)
                (trips exampleDatabase) in
  Forall (seededRow (fun t => (t / 86400000 + 4) mod 7)
            (trips exampleDatabase)) rows /\
  consistent (storeOf (mkDatabase (routes exampleDatabase)
                         (trips exampleDatabase) rows [])).
Proof.
  apply (seeded_database_is_consistent (draws 0)
           (fun k => "dep" +:+ pretty (Z.of_nat k))
           (fun i => 1762128000000 + Z.of_nat i * 86400000)
           (fun t => (t / 86400000 + 4) mod 7)
           (routes exampleDatabase) (trips exampleDatabase)).
  - intros k. unfold draws, Qle, Qlt. cbn [Qnum Qden].
    pose proof (Nat.mod_upper_bound (0 + k) 32). lia.
  - repeat constructor; vm_compute; intros H; inversion H; subst;
      repeat match goal with
             | H : _ ∈ _ |- _ => inversion H; clear H; subst
             end.
  - repeat constructor; simpl; lia.
Defined.
